(** * The Solana test client of chainlink-solana: transaction submission,
      background confirmation tracking, wallet loading and chain identity.

    The development embeds the client of the Go package [solclient] as
    executable Rocq functions.  Everything the package reaches outside of the
    repository (the solana-go library, the JSON-RPC node, the websocket
    endpoint, the goroutine scheduler) is gathered in one record of oracles,
    [Env]; every call to it leaves an [Event] in the world's trace together
    with the answer that came back, so that statements can speak about what
    was asked of the transport and in which order. *)

From Stdlib Require Import ZArith Lia.
From stdpp Require Import base option list strings gmap.

Open Scope string_scope.
Open Scope list_scope.

(** ** Values of the solana-go library *)

Module Solana.

(** Keys, hashes and signatures are carried in their base58 text form. *)
Definition PublicKey := string.
Definition PrivateKey := string.
Definition Hash := string.
Definition Signature := string.

Record AccountMeta := {
  MetaPublicKey : PublicKey;
  IsSigner : bool;
  IsWritable : bool
}.

Record Instruction := {
  ProgramID : PublicKey;
  Accounts : list AccountMeta;
  Data : string
}.

Record Message := {
  AccountKeys : list PublicKey;
  NumRequiredSignatures : nat;
  RecentBlockhash : Hash;
  Instructions : list Instruction
}.

Record Transaction := {
  Signatures : list Signature;
  TxMessage : Message
}.

Record Wallet := { WalletPrivateKey : PrivateKey }.

(** [LAMPORTS_PER_SOL] of solana-go. *)
Definition LAMPORTS_PER_SOL : Z := 1000000000.

End Solana.
Export Solana.

(** [rpc.CommitmentType] is a Go string type; the library names a few values. *)
Definition CommitmentType := string.
Definition CommitmentFinalized : CommitmentType := "finalized".
Definition CommitmentConfirmed : CommitmentType := "confirmed".
Definition CommitmentProcessed : CommitmentType := "processed".

(** The on-chain execution error carried by a signature notification
    ([res.Value.Err], an [interface{}] decoded from JSON). *)
Definition TxError := string.

Record SignatureResult := { ValueErr : option TxError }.

(** ** Go errors, results and panics *)

(** A Go [error].  [ErrExternal] is whatever a collaborator hands back; the
    other constructors are the errors that the code under study and
    [Transaction.Sign] build themselves with [fmt.Errorf]. *)
Inductive error :=
| ErrExternal (msg : string)
| ErrEncodeForSigning (cause : string)
| ErrSignerKeyNotFound (key : PublicKey)
| ErrSignFailed (key : PublicKey) (cause : string)
| ErrConfirmationFailed (txerr : TxError).

(** A Go pair [(value, err)] of which exactly one side is meaningful. *)
Inductive result (A : Type) :=
| Ok (a : A)
| Err (e : error).
Arguments Ok {A} a.
Arguments Err {A} e.

(** The run-time faults met in this code: an index past the end of a slice,
    and a slice expression [s[low:]] on a slice of fewer than [low]
    elements. *)
Inductive Panic :=
| IndexOutOfRange (index : Z) (len : nat)
| SliceBoundsOutOfRange (low : nat) (len : nat).

Inductive Outcome (A : Type) :=
| Returns (a : A)
| Panics (p : Panic).
Arguments Returns {A} a.
Arguments Panics {A} p.

#[global] Instance error_eq_dec : EqDecision error.
Proof. solve_decision. Defined.

(** [uint64] arithmetic wraps around. *)
Definition uint64_mul (a b : Z) : Z := (a * b) mod 2 ^ 64.

(** ** The world outside the client *)

Inductive Event :=
| EvGetRecentBlockhash (commitment : CommitmentType) (resp : result Hash)
| EvEncodeTree (name : string) (resp : option error)
| EvSendTransactionWithOpts (tx : Transaction) (skipPreflight : bool)
    (preflight : CommitmentType) (resp : result Signature)
| EvSendTransaction (tx : Transaction) (resp : result Signature)
| EvRequestAirdrop (account : PublicKey) (lamports : Z)
    (commitment : CommitmentType) (resp : result Signature)
| EvWSConnect (url : string) (resp : option error)
| EvSignatureSubscribe (sig : Signature) (commitment : CommitmentType)
    (resp : option error)
| EvRecv (sig : Signature) (commitment : CommitmentType)
    (resp : result SignatureResult)
| EvUnsubscribe (sig : Signature) (commitment : CommitmentType).

(** The collaborators.  RPC answers may change from one request to the next,
    so they are indexed by the number of requests made so far; what the
    ledger eventually reports for a signature is a property of the signature
    and of the commitment asked for.  A private key is the bytes that its
    base58 text decodes to, however many: [lib_PrivateKey_len] is their
    number, and [lib_PublicKey] the public half of a key that has one.
    [ws_Recv] is what a receive returns when it returns: [Recv] waits for
    the node without a deadline, and what follows describes the runs in
    which every receive that was started came back. *)
Record Env := {
  lib_NewTransaction : list Instruction → Hash → PublicKey → result Transaction;
  lib_EncodeTree : Transaction → string → option error;
  lib_MarshalBinary : Message → string + string;
  lib_PrivateKey_Sign : PrivateKey → string → Signature + string;
  lib_PrivateKeyFromBase58 : string → result PrivateKey;
  lib_PublicKeyFromBase58 : string → result PublicKey;
  lib_PrivateKey_len : PrivateKey → nat;
  lib_PublicKey : PrivateKey → PublicKey;
  rpc_GetRecentBlockhash : nat → CommitmentType → result Hash;
  rpc_SendTransactionWithOpts :
    nat → Transaction → bool → CommitmentType → result Signature;
  rpc_SendTransaction : nat → Transaction → result Signature;
  rpc_RequestAirdrop : nat → PublicKey → Z → CommitmentType → result Signature;
  ws_Connect : string → option error;
  ws_SignatureSubscribe : Signature → CommitmentType → option error;
  ws_Recv : Signature → CommitmentType → result SignatureResult
}.

(** [rpcSeq] counts the RPC requests made, [events] is the trace (oldest
    first) and [sched] holds the scheduler's future choices among the
    goroutines that are still running.

    The trace is written by one thread.  A call of the client adds what the
    call asks itself; what a goroutine of the error group asks is added
    where the group is joined, one goroutine after the other.  The
    goroutines run from the moment they are started, so their subscription
    traffic may reach the websocket earlier than that and in between the
    requests of the caller: the trace says what each call and each goroutine
    asks and in which order each of them does, and says nothing of how the
    requests of the caller and of the goroutines are interleaved. *)
Record World := {
  rpcSeq : nat;
  events : list Event;
  sched : list nat
}.

(** ** A state monad with panics *)

Definition M (A : Type) : Type := World → Outcome (A * World).

Definition ret {A} (a : A) : M A := λ w, Returns (a, w).

Definition bind {A B} (m : M A) (k : A → M B) : M B :=
  λ w, match m w with
       | Returns (a, w') => k a w'
       | Panics p => Panics p
       end.

Definition panic {A} (p : Panic) : M A := λ _, Panics p.

Notation "'do' x <- m ; k" := (bind m (λ x, k))
  (at level 10, x name, m at level 100, k at level 200).
Notation "'run' m ; k" := (bind m (λ _, k))
  (at level 10, m at level 100, k at level 200).

Definition emit (e : Event) : M unit :=
  λ w, Returns (tt, {| rpcSeq := rpcSeq w; events := events w ++ [e]; sched := sched w |}).

(** One RPC request: the answer is the oracle's at the current request
    number, which then advances. *)
Definition rpc_request {A} (ask : nat → result A) (ev : result A → Event) : M (result A) :=
  λ w, let r := ask (rpcSeq w) in
       Returns (r, {| rpcSeq := S (rpcSeq w); events := events w ++ [ev r]; sched := sched w |}).

(** The scheduler picks one of [n] running goroutines. *)
Definition pick (n : nat) : M nat :=
  λ w, match sched w with
       | [] => Returns (0, w)
       | i :: rest =>
           Returns (i mod n, {| rpcSeq := rpcSeq w; events := events w; sched := rest |})
       end.

Section WithEnv.

Variable env : Env.

Definition RPC_GetRecentBlockhash (commitment : CommitmentType) : M (result Hash) :=
  rpc_request (λ n, rpc_GetRecentBlockhash env n commitment)
              (EvGetRecentBlockhash commitment).

Definition RPC_SendTransactionWithOpts (tx : Transaction) (skipPreflight : bool)
    (preflight : CommitmentType) : M (result Signature) :=
  rpc_request (λ n, rpc_SendTransactionWithOpts env n tx skipPreflight preflight)
              (EvSendTransactionWithOpts tx skipPreflight preflight).

Definition RPC_SendTransaction (tx : Transaction) : M (result Signature) :=
  rpc_request (λ n, rpc_SendTransaction env n tx) (EvSendTransaction tx).

Definition RPC_RequestAirdrop (account : PublicKey) (lamports : Z)
    (commitment : CommitmentType) : M (result Signature) :=
  rpc_request (λ n, rpc_RequestAirdrop env n account lamports commitment)
              (EvRequestAirdrop account lamports commitment).

Definition WS_SignatureSubscribe (sig : Signature) (commitment : CommitmentType)
    : M (option error) :=
  let r := ws_SignatureSubscribe env sig commitment in
  run emit (EvSignatureSubscribe sig commitment r); ret r.

(** [sub.Recv()], for a receive that returns. *)
Definition Sub_Recv (sig : Signature) (commitment : CommitmentType)
    : M (result SignatureResult) :=
  let r := ws_Recv env sig commitment in
  run emit (EvRecv sig commitment r); ret r.

Definition Sub_Unsubscribe (sig : Signature) (commitment : CommitmentType) : M unit :=
  emit (EvUnsubscribe sig commitment).

Definition EncodeTree (tx : Transaction) (name : string) : M (option error) :=
  let r := lib_EncodeTree env tx name in
  run emit (EvEncodeTree name r); ret r.

(** *** [Transaction.Sign] of solana-go

    The message is marshalled once; then every key of
    [Message.signerKeys()] (the first [NumRequiredSignatures] account keys)
    is looked up with the caller's getter, a missing key ends the signing
    with an error, and each signature is appended to the transaction. *)

Definition signerKeys (m : Message) : list PublicKey :=
  take (NumRequiredSignatures m) (AccountKeys m).

Fixpoint sign_keys (content : string) (getter : PublicKey → option PrivateKey)
    (keys : list PublicKey) (tx : Transaction) : Transaction * result (list Signature) :=
  match keys with
  | [] => (tx, Ok (Signatures tx))
  | key :: keys' =>
      match getter key with
      | None => (tx, Err (ErrSignerKeyNotFound key))
      | Some privateKey =>
          match lib_PrivateKey_Sign env privateKey content with
          | inr cause => (tx, Err (ErrSignFailed key cause))
          | inl s =>
              sign_keys content getter keys'
                {| Signatures := Signatures tx ++ [s]; TxMessage := TxMessage tx |}
          end
      end
  end.

Definition Sign (tx : Transaction) (getter : PublicKey → option PrivateKey)
    : Transaction * result (list Signature) :=
  match lib_MarshalBinary env (TxMessage tx) with
  | inr cause => (tx, Err (ErrEncodeForSigning cause))
  | inl messageContent =>
      sign_keys messageContent getter (signerKeys (TxMessage tx)) tx
  end.

End WithEnv.

(** ** The client of package [solclient] *)

Record NetworkConfig := {
  External : bool;
  ContractsDeployed : bool;
  Name : string;
  ID : string;
  ChainID : Z;
  URL : string;
  URLs : list string;
  Type_ : string;
  PrivateKeys : list string;
  Timeout : Z
}.

(** A goroutine started by [queueTX]: the closure is always the same
    function, so it is determined by what it captured. *)
Record Task := {
  taskSig : Signature;
  taskCommitment : CommitmentType
}.

(** [errgroup.Group]: the goroutines its wait group still counts, and the
    error kept by its [errOnce]. *)
Record Group := {
  running : list Task;
  firstErr : option error
}.

Record RPCClient := { rpcEndpoint : string }.
Record WSClient := { wsEndpoint : string }.

Record Client := {
  Config : NetworkConfig;
  Wallets : list Wallet;
  ProgramWallets : gmap string Wallet;
  DefaultWallet : option Wallet;
  txErrGroup : Group;
  queueTransactions : bool;
  RPC : RPCClient;
  WS : WSClient
}.

Definition set_Wallets (ws : list Wallet) (c : Client) : Client :=
  {| Config := Config c; Wallets := ws; ProgramWallets := ProgramWallets c;
     DefaultWallet := DefaultWallet c; txErrGroup := txErrGroup c;
     queueTransactions := queueTransactions c; RPC := RPC c; WS := WS c |}.

Definition set_DefaultWallet (w : option Wallet) (c : Client) : Client :=
  {| Config := Config c; Wallets := Wallets c; ProgramWallets := ProgramWallets c;
     DefaultWallet := w; txErrGroup := txErrGroup c;
     queueTransactions := queueTransactions c; RPC := RPC c; WS := WS c |}.

Definition set_txErrGroup (g : Group) (c : Client) : Client :=
  {| Config := Config c; Wallets := Wallets c; ProgramWallets := ProgramWallets c;
     DefaultWallet := DefaultWallet c; txErrGroup := g;
     queueTransactions := queueTransactions c; RPC := RPC c; WS := WS c |}.

(** [g.errOnce.Do(func() { g.err = err })], reached only for a non-nil [err]. *)
Definition errOnce (kept : option error) (r : option error) : option error :=
  match r with
  | None => kept
  | Some e => match kept with
              | None => Some e
              | Some e0 => Some e0
              end
  end.

Definition Group_Go (g : Group) (t : Task) : Group :=
  {| running := running g ++ [t]; firstErr := firstErr g |}.

Definition Group_done (g : Group) (i : nat) (r : option error) : Group :=
  {| running := delete i (running g); firstErr := errOnce (firstErr g) r |}.

Section ClientMethods.

Variable env : Env.

(** [NewClient]: both URL reads are plain slice indexing. *)
Definition NewClient (cfg : NetworkConfig) : M (result Client) :=
  match URLs cfg !! 0%nat with
  | None => panic (IndexOutOfRange 0 (length (URLs cfg)))
  | Some url0 =>
      let c := {| rpcEndpoint := url0 |} in
      match URLs cfg !! 1%nat with
      | None => panic (IndexOutOfRange 1 (length (URLs cfg)))
      | Some url1 =>
          let r := ws_Connect env url1 in
          run emit (EvWSConnect url1 r);
          match r with
          | Some err => ret (Err err)
          | None =>
              ret (Ok {| Config := cfg; Wallets := []; ProgramWallets := ∅;
                         DefaultWallet := None;
                         txErrGroup := {| running := []; firstErr := None |};
                         queueTransactions := false;
                         RPC := c; WS := {| wsEndpoint := url1 |} |})
          end
      end
  end.

(** [TXSync] *)
Definition TXSync (c : Client) (name : string) (commitment : CommitmentType)
    (instr : list Instruction) (signerFunc : PublicKey → option PrivateKey)
    (payer : PublicKey) : M (option error) :=
  do recent <- RPC_GetRecentBlockhash env CommitmentFinalized;
  match recent with
  | Err err => ret (Some err)
  | Ok blockhash =>
  match lib_NewTransaction env instr blockhash payer with
  | Err err => ret (Some err)
  | Ok tx =>
  do enc <- EncodeTree env tx name;
  match enc with
  | Some err => ret (Some err)
  | None =>
  match Sign env tx signerFunc with
  | (_, Err err) => ret (Some err)
  | (tx, Ok _) =>
  do sent <- RPC_SendTransactionWithOpts env tx false commitment;
  match sent with
  | Err err => ret (Some err)
  | Ok sig =>
  do sub <- WS_SignatureSubscribe env sig commitment;
  match sub with
  | Some err => ret (Some err)
  | None =>
  do res <- Sub_Recv env sig commitment;
  match res with
  | Err err => run Sub_Unsubscribe sig commitment; ret (Some err)
  | Ok _ => run Sub_Unsubscribe sig commitment; ret None
  end end end end end end end.

(** The function handed to [c.txErrGroup.Go] by [queueTX]. *)
Definition confirmation (t : Task) : M (option error) :=
  let sig := taskSig t in
  let commitment := taskCommitment t in
  do sub <- WS_SignatureSubscribe env sig commitment;
  match sub with
  | Some err => ret (Some err)
  | None =>
  do res <- Sub_Recv env sig commitment;
  match res with
  | Err err => run Sub_Unsubscribe sig commitment; ret (Some err)
  | Ok res =>
      match ValueErr res with
      | Some txerr =>
          run Sub_Unsubscribe sig commitment;
          ret (Some (ErrConfirmationFailed txerr))
      | None => run Sub_Unsubscribe sig commitment; ret None
      end
  end end.

(** [queueTX]: [Go] starts the goroutine at once; the group counts it from
    here on, and what it does is accounted for at the join. *)
Definition queueTX (c : Client) (sig : Signature) (commitment : CommitmentType) : Client :=
  set_txErrGroup
    (Group_Go (txErrGroup c) {| taskSig := sig; taskCommitment := commitment |}) c.

(** [TXAsync] *)
Definition TXAsync (c : Client) (name : string) (instr : list Instruction)
    (signerFunc : PublicKey → option PrivateKey) (payer : PublicKey)
    : M (Client * option error) :=
  do recent <- RPC_GetRecentBlockhash env CommitmentFinalized;
  match recent with
  | Err err => ret (c, Some err)
  | Ok blockhash =>
  match lib_NewTransaction env instr blockhash payer with
  | Err err => ret (c, Some err)
  | Ok tx =>
  do enc <- EncodeTree env tx name;
  match enc with
  | Some err => ret (c, Some err)
  | None =>
  match Sign env tx signerFunc with
  | (_, Err err) => ret (c, Some err)
  | (tx, Ok _) =>
  do sent <- RPC_SendTransaction env tx;
  match sent with
  | Err err => ret (c, Some err)
  | Ok sig => ret (queueTX c sig CommitmentConfirmed, None)
  end end end end end.

(** [PrivateKey.PublicKey]: the public half is sliced out of the key from
    byte 32 on, which panics on a shorter key. *)
Definition PrivateKey_PublicKey (pk : PrivateKey) : Outcome PublicKey :=
  if decide (lib_PrivateKey_len env pk < 32)%nat
  then Panics (SliceBoundsOutOfRange 32 (lib_PrivateKey_len env pk))
  else Returns (lib_PublicKey env pk).

(** [LoadWallet]; the public key is computed for the line it logs. *)
Definition LoadWallet (path : string) : Outcome (result Wallet) :=
  match lib_PrivateKeyFromBase58 env path with
  | Err err => Returns (Err err)
  | Ok pk =>
      match PrivateKey_PublicKey pk with
      | Panics p => Panics p
      | Returns _ => Returns (Ok {| WalletPrivateKey := pk |})
      end
  end.

(** [Airdrop] *)
Definition Airdrop (c : Client) (wpk : PublicKey) (solAmount : Z)
    : M (Client * option error) :=
  do r <- RPC_RequestAirdrop env wpk (uint64_mul LAMPORTS_PER_SOL solAmount)
            CommitmentConfirmed;
  match r with
  | Err err => ret (c, Some err)
  | Ok txHash => ret (queueTX c txHash CommitmentConfirmed, None)
  end.

(** [errgroup.Group.Wait] as one thread sees it: the goroutines still
    running finish one after the other, in the order the scheduler chooses,
    and only then is the kept error read. *)
Fixpoint Group_drain (n : nat) (g : Group) : M Group :=
  match n with
  | O => ret g
  | S n' =>
      match running g with
      | [] => ret g
      | _ :: _ =>
          do i <- pick (length (running g));
          match running g !! i with
          | None => ret g
          | Some t =>
              do r <- confirmation t;
              Group_drain n' (Group_done g i r)
          end
      end
  end.

Definition Group_Wait (g : Group) : M (Group * option error) :=
  do g' <- Group_drain (length (running g)) g;
  ret (g', firstErr g').

(** [WaitForEvents] *)
Definition WaitForEvents (c : Client) : M (Client * option error) :=
  do r <- Group_Wait (txErrGroup c);
  ret (set_txErrGroup (fst r) c, snd r).

(** [AirdropAddresses] *)
Fixpoint airdrop_range (c : Client) (addr : list string) (solAmount : Z)
    : M (Client * option error) :=
  match addr with
  | [] => ret (c, None)
  | a :: rest =>
      match lib_PublicKeyFromBase58 env a with
      | Err err => ret (c, Some err)
      | Ok pubKey =>
          do r <- Airdrop c pubKey solAmount;
          match r with
          | (c', Some err) => ret (c', Some err)
          | (c', None) => airdrop_range c' rest solAmount
          end
      end
  end.

Definition AirdropAddresses (c : Client) (addr : list string) (solAmount : Z)
    : M (Client * option error) :=
  do r <- airdrop_range c addr solAmount;
  match r with
  | (c', Some err) => ret (c', Some err)
  | (c', None) => WaitForEvents c'
  end.

(** [SetWallet] *)
Definition SetWallet (c : Client) (num : Z) : M (Client * option error) :=
  if decide (num < 0)%Z
  then panic (IndexOutOfRange num (length (Wallets c)))
  else match Wallets c !! Z.to_nat num with
       | None => panic (IndexOutOfRange num (length (Wallets c)))
       | Some w => ret (set_DefaultWallet (Some w) c, None)
       end.

(** [LoadWallets] *)
Fixpoint load_range (c : Client) (keys : list string)
    : Outcome (Client * option error) :=
  match keys with
  | [] => Returns (c, None)
  | pkString :: rest =>
      match LoadWallet pkString with
      | Panics p => Panics p
      | Returns (Err err) => Returns (c, Some err)
      | Returns (Ok w) => load_range (set_Wallets (Wallets c ++ [w]) c) rest
      end
  end.

(** [LoadWallets].  The wallets a client holds are those that
    [LoadWallet] made, the one place that appends to [Wallets], and it has
    taken the public key of each; taking it again for the addresses is
    without fault. *)
Definition LoadWallets (c : Client) (cfg : NetworkConfig) : M (Client * option error) :=
  match load_range c (PrivateKeys cfg) with
  | Panics p => panic p
  | Returns (c, Some err) => ret (c, Some err)
  | Returns (c, None) =>
      let addresses := (λ w, lib_PublicKey env (WalletPrivateKey w)) <$> Wallets c in
      do r <- AirdropAddresses c addresses 500;
      match r with
      | (c, Some err) => ret (c, Some err)
      | (c, None) =>
          do r <- SetWallet c 1;
          match r with
          | (c, Some err) => ret (c, Some err)
          | (c, None) => ret (c, None)
          end
      end
  end.

End ClientMethods.

(** * Chain identity (pkg/solana/client) *)

Module Reader.

(** The mock server of [TestClient_Reader_ChainID]: every request is
    answered with [genesisHashes[hashCounter]], and the counter moves on.  A
    request past the end of the table gets no answer. *)
Record Server := {
  genesisHashes : list Hash;
  hashCounter : nat
}.

Definition GetGenesisHash (s : Server) : result Hash * Server :=
  (match genesisHashes s !! hashCounter s with
   | Some hash => Ok hash
   | None => Err (ErrExternal "EOF")
   end,
   {| genesisHashes := genesisHashes s; hashCounter := S (hashCounter s) |}).

Section ChainID.

(** The three genesis hash constants the test refers to; the file of
    package [client] that declares them is not among the sources. *)
Variables DevnetGenesisHash TestnetGenesisHash MainnetGenesisHash : Hash.

(** Modelled from the spec: the lookup table of [Client.ChainID], which
    lives in pkg/solana/client (absent; only its test is here).
    "map it via a fixed lookup table of [...] known genesis hashes ->
    {devnet, testnet, mainnet} and default to localnet for any unrecognized
    hash". *)
Definition knownNetworks : list (Hash * string) :=
  [ (DevnetGenesisHash, "devnet");
    (TestnetGenesisHash, "testnet");
    (MainnetGenesisHash, "mainnet") ].

Fixpoint lookup_network (table : list (Hash * string)) (hash : Hash) : string :=
  match table with
  | [] => "localnet"
  | (known, network) :: table' =>
      if decide (hash = known) then network else lookup_network table' hash
  end.

(** Modelled from the spec: [Client.ChainID] of pkg/solana/client (absent).
    "query the transport for the ledger's genesis hash; map it [...]. No
    caching across calls in this spec; each call re-queries the
    transport". *)
Definition ChainID (s : Server) : result string * Server :=
  match GetGenesisHash s with
  | (Err err, s') => (Err err, s')
  | (Ok hash, s') => (Ok (lookup_network knownNetworks hash), s')
  end.

(** The loop of the test: [n] calls in a row. *)
Fixpoint ChainID_calls (n : nat) (s : Server) : list (result string) * Server :=
  match n with
  | O => ([], s)
  | S n' =>
      let (network, s') := ChainID s in
      let (networks, s'') := ChainID_calls n' s' in
      (network :: networks, s'')
  end.

End ChainID.

(** The genesis hashes of the public clusters. *)
Definition Devnet : Hash := "EtWTRABZaYq6iMfeYKouRu166VU2xqa1wcaWoxPkrZBG".
Definition Testnet : Hash := "4uhcVJyU9pJkvQyS88uRDiswHXSCkY3zQawwpjk2NsNY".
Definition Mainnet : Hash := "5eykt4UsFv8P8NJdTREpY1vzqKqZKvdpKuc147dw2N9d".

End Reader.

(** The scheme of an URL as [url.Parse] finds it: the letters, digits,
    [+], [-] and [.] before the first colon, starting with a letter and in
    lower case; an URL whose first colon comes after anything else has no
    scheme. *)
Definition is_upper (ch : Ascii.ascii) : bool :=
  (65 <=? Ascii.nat_of_ascii ch)%nat && (Ascii.nat_of_ascii ch <=? 90)%nat.

Definition is_lower (ch : Ascii.ascii) : bool :=
  (97 <=? Ascii.nat_of_ascii ch)%nat && (Ascii.nat_of_ascii ch <=? 122)%nat.

Definition is_scheme_mark (ch : Ascii.ascii) : bool :=
  (48 <=? Ascii.nat_of_ascii ch)%nat && (Ascii.nat_of_ascii ch <=? 57)%nat
  || bool_decide (Ascii.nat_of_ascii ch ∈ [43; 45; 46]%nat).

Definition to_lower (ch : Ascii.ascii) : Ascii.ascii :=
  if is_upper ch then Ascii.ascii_of_nat (Ascii.nat_of_ascii ch + 32) else ch.

Fixpoint getScheme (first : bool) (url : string) : option string :=
  match url with
  | EmptyString => None
  | String ch rest =>
      if is_upper ch || is_lower ch
      then String (to_lower ch) <$> getScheme false rest
      else if is_scheme_mark ch
      then if first then None else String ch <$> getScheme false rest
      else if bool_decide (Ascii.nat_of_ascii ch = 58%nat)
      then if first then None else Some EmptyString
      else None
  end.

(** The schemes that the websocket dialer takes; it refuses an URL of any
    other scheme, or of none, without dialling. *)
Definition ws_scheme (url : string) : bool :=
  bool_decide (getScheme true url = Some "ws") ||
  bool_decide (getScheme true url = Some "wss").

Definition accepts_only_ws (env : Env) : Prop :=
  ∀ url, ws_scheme url = false → is_Some (ws_Connect env url).

(** ** A simulated validator

  A small executable instance of [Env], used to run the client on concrete
  inputs.  Keys are named after their owner and have their 64 bytes; the
  node answers a submit with the first signature of the transaction, as a
  Solana RPC node does. *)

Module Sim.

Definition new_transaction (instr : list Instruction) (blockhash : Hash)
    (payer : PublicKey) : result Transaction :=
  match instr with
  | [] => Err (ErrExternal "requires at-least one instruction to create a transaction")
  | _ :: _ =>
      let metas := concat (Accounts <$> instr) in
      let signers :=
        remove_dups (payer :: (MetaPublicKey <$> filter (λ a, IsSigner a) metas)) in
      let others :=
        filter (λ k, k ∉ signers)
          (remove_dups ((MetaPublicKey <$> metas) ++ (ProgramID <$> instr))) in
      Ok {| Signatures := [];
            TxMessage := {| AccountKeys := signers ++ others;
                            NumRequiredSignatures := length signers;
                            RecentBlockhash := blockhash;
                            Instructions := instr |} |}
  end.

Definition marshal (m : Message) : string + string :=
  inl (RecentBlockhash m +:+ ":" +:+ String.concat "," (AccountKeys m)
       +:+ ":" +:+ String.concat "," (Data <$> Instructions m)).

Definition ed25519 (sk : PrivateKey) (content : string) : Signature + string :=
  inl ("sig[" +:+ sk +:+ "|" +:+ content +:+ "]").

Definition public_key (sk : PrivateKey) : PublicKey := "pub/" +:+ sk.

Definition parse_key (s : string) : result string :=
  if decide (s = "") then Err (ErrExternal "zero length string") else Ok s.

Definition submit (tx : Transaction) : result Signature :=
  match Signatures tx with
  | s :: _ => Ok s
  | [] => Err (ErrExternal "transaction has no signatures")
  end.

(** [submit_down n] says whether the node refuses the [n]-th RPC request
    when it is a submit, [subscribe_down] whether the websocket refuses to
    watch a signature, and [verdict] is what the ledger reports for it. *)
Definition node (submit_down : nat → bool) (subscribe_down : Signature → bool)
    (verdict : Signature → option TxError) : Env :=
  {| lib_NewTransaction := new_transaction;
     lib_EncodeTree := λ _ _, None;
     lib_MarshalBinary := marshal;
     lib_PrivateKey_Sign := ed25519;
     lib_PrivateKeyFromBase58 := parse_key;
     lib_PublicKeyFromBase58 := parse_key;
     lib_PrivateKey_len := λ _, 64%nat;
     lib_PublicKey := public_key;
     rpc_GetRecentBlockhash := λ _ _, Ok "EETubP5AKHgjPAhzPAFcb8BAY1hMH639CWCFTqi3sS9U";
     rpc_SendTransactionWithOpts := λ n tx _ _,
       if submit_down n then Err (ErrExternal "connection reset by peer") else submit tx;
     rpc_SendTransaction := λ n tx,
       if submit_down n then Err (ErrExternal "connection reset by peer") else submit tx;
     rpc_RequestAirdrop := λ _ account _ _, Ok ("airdrop/" +:+ account);
     ws_Connect := λ url,
       if ws_scheme url then None else Some (ErrExternal "malformed ws or wss URL");
     ws_SignatureSubscribe := λ sig _,
       if subscribe_down sig then Some (ErrExternal "websocket: close sent") else None;
     ws_Recv := λ sig _, Ok {| ValueErr := verdict sig |} |}.

Definition healthy : Env := node (λ _, false) (λ _, false) (λ _, None).

(** The same collaborators, with private keys of [len] bytes. *)
Definition with_key_len (len : PrivateKey → nat) (env : Env) : Env :=
  {| lib_NewTransaction := lib_NewTransaction env;
     lib_EncodeTree := lib_EncodeTree env;
     lib_MarshalBinary := lib_MarshalBinary env;
     lib_PrivateKey_Sign := lib_PrivateKey_Sign env;
     lib_PrivateKeyFromBase58 := lib_PrivateKeyFromBase58 env;
     lib_PublicKeyFromBase58 := lib_PublicKeyFromBase58 env;
     lib_PrivateKey_len := len;
     lib_PublicKey := lib_PublicKey env;
     rpc_GetRecentBlockhash := rpc_GetRecentBlockhash env;
     rpc_SendTransactionWithOpts := rpc_SendTransactionWithOpts env;
     rpc_SendTransaction := rpc_SendTransaction env;
     rpc_RequestAirdrop := rpc_RequestAirdrop env;
     ws_Connect := ws_Connect env;
     ws_SignatureSubscribe := ws_SignatureSubscribe env;
     ws_Recv := ws_Recv env |}.

(** A library for which a key has as many bytes as its text has
    characters, so that every short text is a short key. *)
Definition truncating : Env := with_key_len String.length healthy.

(** The same collaborators, with a websocket that answers [recv] to a
    receive. *)
Definition with_Recv (recv : Signature → CommitmentType → result SignatureResult)
    (env : Env) : Env :=
  {| lib_NewTransaction := lib_NewTransaction env;
     lib_EncodeTree := lib_EncodeTree env;
     lib_MarshalBinary := lib_MarshalBinary env;
     lib_PrivateKey_Sign := lib_PrivateKey_Sign env;
     lib_PrivateKeyFromBase58 := lib_PrivateKeyFromBase58 env;
     lib_PublicKeyFromBase58 := lib_PublicKeyFromBase58 env;
     lib_PrivateKey_len := lib_PrivateKey_len env;
     lib_PublicKey := lib_PublicKey env;
     rpc_GetRecentBlockhash := rpc_GetRecentBlockhash env;
     rpc_SendTransactionWithOpts := rpc_SendTransactionWithOpts env;
     rpc_SendTransaction := rpc_SendTransaction env;
     rpc_RequestAirdrop := rpc_RequestAirdrop env;
     ws_Connect := ws_Connect env;
     ws_SignatureSubscribe := ws_SignatureSubscribe env;
     ws_Recv := recv |}.

(** A websocket that grants every subscription and is closed before the
    notification comes. *)
Definition hanging_up : Env :=
  with_Recv (λ _ _, Err (ErrExternal "websocket: close 1006 (abnormal closure)"))
    healthy.

Definition config (keys : list string) : NetworkConfig :=
  {| External := false; ContractsDeployed := false; Name := "solana";
     ID := "solana"; ChainID := 0; URL := "";
     URLs := ["http://localhost:8899"; "ws://localhost:8900"];
     Type_ := "solana"; PrivateKeys := keys; Timeout := 0 |}.

Definition client : Client :=
  {| Config := config []; Wallets := []; ProgramWallets := ∅;
     DefaultWallet := None;
     txErrGroup := {| running := []; firstErr := None |};
     queueTransactions := false;
     RPC := {| rpcEndpoint := "http://localhost:8899" |};
     WS := {| wsEndpoint := "ws://localhost:8900" |} |}.

Definition world (choices : list nat) : World :=
  {| rpcSeq := 0; events := []; sched := choices |}.

Definition alice : PublicKey := public_key "alice".

(** A transfer of one lamport from [from] to [to], signed by [from]. *)
Definition transfer (from to : PublicKey) : Instruction :=
  {| ProgramID := "11111111111111111111111111111111";
     Accounts := [ {| MetaPublicKey := from; IsSigner := true; IsWritable := true |};
                   {| MetaPublicKey := to; IsSigner := false; IsWritable := true |} ];
     Data := "transfer 1" |}.

Definition alice_signs (key : PublicKey) : option PrivateKey :=
  if decide (key = alice) then Some "alice" else None.

Definition nobody_signs (key : PublicKey) : option PrivateKey := None.

(** The signature alice's key gives to the transaction made of [instr]. *)
Definition signature_of (instr : list Instruction) : Signature :=
  match new_transaction instr "EETubP5AKHgjPAhzPAFcb8BAY1hMH639CWCFTqi3sS9U" alice with
  | Ok tx =>
      match marshal (TxMessage tx) with
      | inl content =>
          match ed25519 "alice" content with
          | inl s => s
          | inr _ => ""
          end
      | inr _ => ""
      end
  | Err _ => ""
  end.

(** A ledger on which the transactions of [failing] fail, each with its
    own error, and every other transaction goes through. *)
Fixpoint ledger (failing : list (list Instruction * TxError)) (sig : Signature)
    : option TxError :=
  match failing with
  | [] => None
  | (instr, txerr) :: failing' =>
      if decide (sig = signature_of instr) then Some txerr else ledger failing' sig
  end.

End Sim.

(** * Properties of the client *)

(** ** Reading traces *)

Definition extend (w : World) (new : list Event) : World :=
  {| rpcSeq := rpcSeq w; events := events w ++ new; sched := sched w |}.

Definition is_blockhash_fetch (e : Event) : bool :=
  match e with
  | EvGetRecentBlockhash _ _ => true
  | _ => false
  end.

Definition is_submit (e : Event) : bool :=
  match e with
  | EvSendTransaction _ _ | EvSendTransactionWithOpts _ _ _ _ => true
  | _ => false
  end.

Definition is_subscription (e : Event) : bool :=
  match e with
  | EvSignatureSubscribe _ _ _ | EvRecv _ _ _ | EvUnsubscribe _ _ => true
  | _ => false
  end.

(** The errors [Transaction.Sign] returns. *)
Definition signing_error (e : error) : Prop :=
  match e with
  | ErrEncodeForSigning _ | ErrSignerKeyNotFound _ | ErrSignFailed _ _ => True
  | _ => False
  end.

(** What a confirmation goroutine returns to its group, and what it leaves
    in the trace: both are functions of the task alone. *)
Definition task_result (env : Env) (t : Task) : option error :=
  match ws_SignatureSubscribe env (taskSig t) (taskCommitment t) with
  | Some err => Some err
  | None =>
      match ws_Recv env (taskSig t) (taskCommitment t) with
      | Err err => Some err
      | Ok res =>
          match ValueErr res with
          | Some txerr => Some (ErrConfirmationFailed txerr)
          | None => None
          end
      end
  end.

Definition task_trace (env : Env) (t : Task) : list Event :=
  let sig := taskSig t in
  let commitment := taskCommitment t in
  match ws_SignatureSubscribe env sig commitment with
  | Some err => [EvSignatureSubscribe sig commitment (Some err)]
  | None =>
      [EvSignatureSubscribe sig commitment None;
       EvRecv sig commitment (ws_Recv env sig commitment);
       EvUnsubscribe sig commitment]
  end.

(** The subscription of a task delivers a notification. *)
Definition notified (env : Env) (t : Task) : bool :=
  match ws_SignatureSubscribe env (taskSig t) (taskCommitment t) with
  | Some _ => false
  | None =>
      match ws_Recv env (taskSig t) (taskCommitment t) with
      | Ok _ => true
      | Err _ => false
      end
  end.

(** The task observes an on-chain execution error. *)
Definition execution_failed (env : Env) (t : Task) : bool :=
  match ws_SignatureSubscribe env (taskSig t) (taskCommitment t) with
  | Some _ => false
  | None =>
      match ws_Recv env (taskSig t) (taskCommitment t) with
      | Ok res => bool_decide (is_Some (ValueErr res))
      | Err _ => false
      end
  end.

(** The error [Wait] reads after the tasks of [order] have finished in that
    order: the kept one if there was one, else the first failure. *)
Definition first_failure (env : Env) (kept : option error) (order : list Task)
    : option error :=
  match kept with
  | Some e => Some e
  | None => head (omap (task_result env) order)
  end.

(** ** The error group as the goroutines see it

    Between two calls of the client the goroutines of the group finish in
    any order, and new ones are started.  [Wait] can return in the states
    where the group counts no goroutine, and returns the kept error. *)

Inductive group_event :=
| Started (t : Task)
| Finished (t : Task) (r : option error).

Inductive group_step (env : Env)
  : Group * World → group_event → Group * World → Prop :=
| step_started g w t :
    group_step env (g, w) (Started t) (Group_Go g t, w)
| step_finished g w i t r w' :
    running g !! i = Some t →
    confirmation env t w = Returns (r, w') →
    group_step env (g, w) (Finished t r) (Group_done g i r, w').

Inductive group_run (env : Env)
  : Group * World → list group_event → Group * World → Prop :=
| run_here s : group_run env s [] s
| run_step s e s' es s'' :
    group_step env s e s' →
    group_run env s' es s'' →
    group_run env s (e :: es) s''.

Definition started (es : list group_event) : list Task :=
  omap (λ e, match e with Started t => Some t | Finished _ _ => None end) es.

Definition finished (es : list group_event) : list Task :=
  omap (λ e, match e with Finished t _ => Some t | Started _ => None end) es.

Definition Wait_returns (s : Group * World) (r : option error) : Prop :=
  running s.1 = [] ∧ r = firstErr s.1.

(** ** Sentences of the specification, as worded *)

(** C3, as the specification words it: the goroutine that a send started,
    once it has run to its end in a group that had kept no error, has put
    an error in the group exactly when the confirmation carries an
    execution error. *)
Definition records_iff_execution_error (env : Env) (g : Group) (w : World) : Prop :=
  ∀ i t r w',
    running g !! i = Some t →
    firstErr g = None →
    confirmation env t w = Returns (r, w') →
    (firstErr (Group_done g i r) ≠ None ↔ execution_failed env t = true).


(** C2, as the specification words it: after the sends whose goroutines are
    [running], [WaitForEvents] returns an error exactly when at least one of
    them saw an execution error. *)
Definition error_iff_execution_failure (env : Env) (c : Client) (w : World) : Prop :=
  ∀ c' r w',
    WaitForEvents env c w = Returns ((c', r), w') →
    (r ≠ None ↔
     (0 < length (filter (λ t, execution_failed env t) (running (txErrGroup c))))%nat).

(** C9, as the specification words it for a configuration that lacks an
    endpoint, be it that an URL is not listed or that it is empty: the
    constructor returns an error. *)
Definition endpoint_missing (cfg : NetworkConfig) : Prop :=
  (length (URLs cfg) < 2)%nat ∨ "" ∈ take 2 (URLs cfg).

Definition missing_endpoint_is_an_error (env : Env) (cfg : NetworkConfig) (w : World)
    : Prop :=
  endpoint_missing cfg →
  ∃ e w', NewClient env cfg w = Returns (Err e, w').

(** * The rest of the package *)

(** ** More ways of reading traces *)

Definition is_unsubscribe (e : Event) : bool :=
  match e with
  | EvUnsubscribe _ _ => true
  | _ => false
  end.

Definition is_airdrop (e : Event) : bool :=
  match e with
  | EvRequestAirdrop _ _ _ _ => true
  | _ => false
  end.

(** Every subscription that was granted is given back, once, as the last
    thing done; nothing else is given back. *)
Definition released (new : list Event) : Prop :=
  (∀ sig com, EvSignatureSubscribe sig com None ∈ new ↔ EvUnsubscribe sig com ∈ new) ∧
  (length (filter (λ ev, is_unsubscribe ev) new) ≤ 1)%nat ∧
  (∀ sig com, EvUnsubscribe sig com ∈ new → last new = Some (EvUnsubscribe sig com)).

(** The goroutine that an accepted airdrop request starts. *)
Definition accepted (e : Event) : option Task :=
  match e with
  | EvRequestAirdrop _ _ _ (Ok sig) =>
      Some {| taskSig := sig; taskCommitment := CommitmentConfirmed |}
  | _ => None
  end.

(** The request [AirdropAddresses] makes for the address [a]. *)
Definition requests_airdrop_for (env : Env) (solAmount : Z) (a : string) (e : Event)
    : Prop :=
  ∃ key resp,
    lib_PublicKeyFromBase58 env a = Ok key ∧
    e = EvRequestAirdrop key (uint64_mul LAMPORTS_PER_SOL solAmount)
          CommitmentConfirmed resp.

(** How the loop of [AirdropAddresses] ended, given the requests it made:
    it went through every address, or it stopped at an address that does not
    parse or at a request that was refused, every request before having
    been granted. *)
Definition stopped_at (env : Env) (addr : list string) (reqs : list Event)
    (r : option error) : Prop :=
  match r with
  | None => length reqs = length addr ∧ Forall (λ ev, is_Some (accepted ev)) reqs
  | Some e =>
      (∃ a, addr !! length reqs = Some a ∧ lib_PublicKeyFromBase58 env a = Err e ∧
            Forall (λ ev, is_Some (accepted ev)) reqs) ∨
      (∃ before key lamports,
         reqs = before ++ [EvRequestAirdrop key lamports CommitmentConfirmed (Err e)] ∧
         Forall (λ ev, is_Some (accepted ev)) before)
  end.


(** Every key parses, to 32 bytes at least. *)
Definition whole_keys (env : Env) (keys : list string) : Prop :=
  Forall (λ key, ∃ pk, lib_PrivateKeyFromBase58 env key = Ok pk ∧
                       (32 ≤ lib_PrivateKey_len env pk)%nat) keys.

(** ** Faults other than the index fault *)

(** What ends a Go call that does not return: a fault of [Panic] (an index
    or a slice bound out of range), the dereference of a nil pointer, or an
    explicit [panic(msg)]. *)
Inductive Crash :=
| IndexFault (p : Panic)
| NilDereference
| Panicked (msg : string).

Inductive Run (A : Type) :=
| Done (a : A)
| Crashed (c : Crash).
Arguments Done {A} a.
Arguments Crashed {A} c.

(** ** [Fund] *)

(** The value of a finite [big.Float]: a rational number (a dyadic one, in
    fact). *)
Record BigFloat := {
  numerator : Z;
  denominator : positive
}.

Definition MaxUint64 : Z := 2 ^ 64 - 1.

(** The method [Uint64] of [big.Float] (math/big): the value truncated towards zero,
    0 for a negative value and [math.MaxUint64] for a value above it. *)
Definition BigFloat_Uint64 (x : BigFloat) : Z :=
  let t := Z.quot (numerator x) (Z.pos (denominator x)) in
  if (t <? 0)%Z then 0%Z
  else if (MaxUint64 <? t)%Z then MaxUint64
  else t.

Definition Fund (env : Env) (c : Client) (toAddress : string) (amount : BigFloat)
    : M (Client * option error) :=
  match lib_PublicKeyFromBase58 env toAddress with
  | Err err => ret (c, Some err)
  | Ok pubKey =>
      let a := BigFloat_Uint64 amount in
      do r <- RPC_RequestAirdrop env pubKey (uint64_mul LAMPORTS_PER_SOL a)
                CommitmentConfirmed;
      match r with
      | Err err => ret (c, Some err)
      | Ok txHash => ret (queueTX c txHash CommitmentConfirmed, None)
      end
  end.

(** ** [ClientInitFunc] *)

(** gopkg.in/yaml.v2, as [ClientInitFunc] uses it: the configuration map is
    printed, and the text is read back into a [NetworkConfig].  The text
    printed from a map is a mapping, for which [Unmarshal] allocates the
    configuration, so the pointer it fills is not nil afterwards. *)
Record YamlCodec (ConfigMap : Type) := {
  yaml_Marshal : ConfigMap → result string;
  yaml_Unmarshal : string → result NetworkConfig
}.
Arguments yaml_Marshal {ConfigMap} _ _.
Arguments yaml_Unmarshal {ConfigMap} _ _.

Definition set_ID_URLs (id : string) (urls : list string) (cfg : NetworkConfig)
    : NetworkConfig :=
  {| External := External cfg; ContractsDeployed := ContractsDeployed cfg;
     Name := Name cfg; ID := id; ChainID := ChainID cfg; URL := URL cfg;
     URLs := urls; Type_ := Type_ cfg; PrivateKeys := PrivateKeys cfg;
     Timeout := Timeout cfg |}.

(** The function [ClientInitFunc] returns; [urls] are the texts of the URLs
    it is given. *)
Definition ClientInitFunc {ConfigMap : Type} (yaml : YamlCodec ConfigMap) (env : Env)
    (networkName : string) (networkConfig : ConfigMap) (urls : list string)
    : World → Run (result Client * World) :=
  λ w,
  match yaml_Marshal yaml networkConfig with
  | Err err => Done (Err err, w)
  | Ok d =>
  match yaml_Unmarshal yaml d with
  | Err err => Done (Err err, w)
  | Ok cfg =>
  let cfg := set_ID_URLs networkName urls cfg in
  match NewClient env cfg w with
  | Panics p => Crashed (IndexFault p)
  | Returns (Err err, w) => Done (Err err, w)
  | Returns (Ok c, w) =>
  match LoadWallets env c cfg w with
  | Panics p => Crashed (IndexFault p)
  | Returns ((_, Some err), w) => Done (Err err, w)
  | Returns ((c, None), w) => Done (Ok c, w)
  end end end end.

(** The function [ClientURLSFunc] returns: the local URLs of the validator
    chart for the port [http-rpc], followed by those for the port [ws-rpc];
    [httpURL] and [wsURL] are what [LocalURLsByPort] answers for the two. *)
Definition ClientURLSFunc (httpURL wsURL : result (list string))
    : result (list string) :=
  match httpURL with
  | Err err => Err err
  | Ok httpURL =>
      match wsURL with
      | Err err => Err err
      | Ok wsURL => Ok (([] ++ httpURL) ++ wsURL)
      end
  end.

(** What wallet loading and sends leave alone in a client. *)
Definition same_bindings (c c' : Client) : Prop :=
  Config c' = Config c ∧ RPC c' = RPC c ∧ WS c' = WS c ∧
  ProgramWallets c' = ProgramWallets c ∧
  queueTransactions c' = queueTransactions c.

(** A codec for the simulated node: the configuration map is the list of
    private keys, printed on one line. *)
Definition keys_yaml : YamlCodec (list string) :=
  {| yaml_Marshal := λ keys, Ok (String.concat " " keys);
     yaml_Unmarshal := λ d, Ok (Sim.config (String.words d)) |}.

(** ** Walking a directory *)

Module Fs.

Import Stdlib.Strings.Ascii.
#[local] Set Warnings "-register-all".

(** What [os.Lstat] and the reading of directories find at a path and below
    it.  An entry carries the name [Lstat] reports for it, which for an entry
    of a directory is the name under which the directory lists it; a
    directory carries its entries in the order in which [readDirNames] gives
    them (sorted by name), or the error of reading it.  Whatever is not a
    directory is a [File], a symbolic link included, since [Lstat] does not
    follow links. *)
Inductive Entry :=
| Missing (name : string) (err : error)
| File (name : string)
| Directory (name : string) (content : result (list Entry)).

Definition entry_name (e : Entry) : string :=
  match e with
  | Missing name _ | File name | Directory name _ => name
  end.

Record FileInfo := {
  info_Name : string;
  info_IsDir : bool
}.

(** [filepath.SkipDir] *)
Definition SkipDir : error := ErrExternal "skip this directory".

Definition IsPathSeparator (ch : Ascii.ascii) : bool := bool_decide (ch = "/"%char).

(** [scan path] is the suffix of [path] that starts at its last dot, when
    that dot comes after every separator; [Some ""] when a separator comes
    last; [None] when [path] has neither. *)
Fixpoint scan (path : string) : option string :=
  match path with
  | EmptyString => None
  | String ch rest =>
      match scan rest with
      | Some found => Some found
      | None =>
          if bool_decide (ch = "."%char) then Some path
          else if IsPathSeparator ch then Some EmptyString
          else None
      end
  end.

(** [filepath.Ext]: the suffix beginning at the final dot in the final
    element of [path], empty if there is no dot. *)
Definition Ext (path : string) : string := default EmptyString (scan path).

(** [filepath.Join] of a directory and a name, up to [filepath.Clean], which
    rewrites separators and dot elements but leaves a final element that is a
    name as it is. *)
Definition Join (dir name : string) : string :=
  if decide (dir = EmptyString) then name else dir +:+ "/" +:+ name.

Section Walk.

Context {State : Type}.
Variable walkFn :
  string → option FileInfo → option error → State → Run (State * option error).

(** The treatment of one path by [filepath.Walk]: [Lstat]; on failure the
    function is called with a nil [FileInfo] and the error; otherwise [walk],
    which calls it on a file, and on a directory calls it with the result of
    reading the directory and then treats the entries in turn.  An error
    from below ends the loop, except [SkipDir] coming from a directory or from
    the call for a failed [Lstat]. *)
Fixpoint visit (path : string) (e : Entry) (st : State) {struct e}
    : Run (State * option error) :=
  match e with
  | Missing _ err => walkFn path None (Some err) st
  | File name => walkFn path (Some {| info_Name := name; info_IsDir := false |}) None st
  | Directory name content =>
      let info := {| info_Name := name; info_IsDir := true |} in
      match content with
      | Err err => walkFn path (Some info) (Some err) st
      | Ok entries =>
          match walkFn path (Some info) None st with
          | Crashed c => Crashed c
          | Done (st, Some err1) => Done (st, Some err1)
          | Done (st, None) =>
              (fix each (entries : list Entry) (st : State) {struct entries}
                 : Run (State * option error) :=
                 match entries with
                 | [] => Done (st, None)
                 | e' :: entries =>
                     match visit (Join path (entry_name e')) e' st with
                     | Crashed c => Crashed c
                     | Done (st, None) => each entries st
                     | Done (st, Some err) =>
                         match e' with
                         | File _ => Done (st, Some err)
                         | Missing _ _ | Directory _ _ =>
                             if decide (err = SkipDir) then each entries st
                             else Done (st, Some err)
                         end
                     end
                 end) entries st
          end
      end
  end.

(** [filepath.Walk] *)
Definition Walk (root : string) (e : Entry) (st : State)
    : Run (State * option error) :=
  match visit root e st with
  | Crashed c => Crashed c
  | Done (st, Some err) =>
      if decide (err = SkipDir) then Done (st, None) else Done (st, Some err)
  | Done (st, None) => Done (st, None)
  end.

End Walk.

(** The function literal of [ListDirFilenamesByExt]; the state is
    [keyFiles]. *)
Definition collect (ext : string) (path : string) (info : option FileInfo)
    (err : option error) (keyFiles : list string)
    : Run (list string * option error) :=
  match info with
  | None => Crashed NilDereference
  | Some info =>
      if info_IsDir info then Done (keyFiles, None)
      else if decide (Ext path = ext) then Done (keyFiles ++ [info_Name info], None)
      else Done (keyFiles, None)
  end.

(** [ListDirFilenamesByExt], with [root] what the file system holds at
    [dir]. *)
Definition ListDirFilenamesByExt (root : Entry) (dir ext : string)
    : Run (result (list string)) :=
  match Walk (collect ext) dir root [] with
  | Crashed c => Crashed c
  | Done (_, Some err) => Done (Err err)
  | Done (keyFiles, None) => Done (Ok keyFiles)
  end.

(** *** Reading a tree *)

(** An entry that [Lstat] fails on is met by the walk: every directory on
    the way to it can be read. *)
Fixpoint broken (e : Entry) : bool :=
  match e with
  | Missing _ _ => true
  | File _ => false
  | Directory _ (Err _) => false
  | Directory _ (Ok entries) =>
      (fix any (entries : list Entry) : bool :=
         match entries with
         | [] => false
         | e' :: entries => broken e' || any entries
         end) entries
  end.

(** The names of the files below an entry, in the order of the walk. *)
Fixpoint files (e : Entry) : list string :=
  match e with
  | Missing _ _ => []
  | File name => [name]
  | Directory _ (Err _) => []
  | Directory _ (Ok entries) =>
      (fix all (entries : list Entry) : list string :=
         match entries with
         | [] => []
         | e' :: entries => files e' ++ all entries
         end) entries
  end.

(** What the walk has added to [keyFiles] when it returns from an entry
    it reached as [path]. *)
Fixpoint found (ext path : string) (e : Entry) : list string :=
  match e with
  | Missing _ _ => []
  | File name => if decide (Ext path = ext) then [name] else []
  | Directory _ (Err _) => []
  | Directory _ (Ok entries) =>
      (fix all (entries : list Entry) : list string :=
         match entries with
         | [] => []
         | e' :: entries => found ext (Join path (entry_name e')) e' ++ all entries
         end) entries
  end.

(** The names of the files that a directory holds itself. *)
Definition own_files (root : Entry) : list string :=
  match root with
  | Directory _ (Ok entries) =>
      omap (λ e, match e with File name => Some name | _ => None end) entries
  | _ => []
  end.

(** A directory as the build leaves it: program binaries and their key
    files, side by side. *)
Definition target : Entry :=
  Directory "deploy"
    (Ok [ File "access_controller-keypair.json";
          File "access_controller.so";
          File "ocr2-keypair.json";
          File "ocr2.so";
          File "store-keypair.json";
          File "store.so" ]).

(** A directory of program binaries and key files, with a directory that
    is named like a key file and one that cannot be read. *)
Definition programs : Entry :=
  Directory "deploy"
    (Ok [ File "access_controller-keypair.json";
          File "access_controller.so";
          Directory "backup.json" (Ok [File "ocr2-keypair.json"; File "notes"]);
          Directory "locked" (Err (ErrExternal "permission denied"));
          File "ocr2.so";
          File "store.so" ]).

End Fs.

(** ** The contract deployer *)

Definition set_ProgramWallets (pw : gmap string Wallet) (c : Client) : Client :=
  {| Config := Config c; Wallets := Wallets c; ProgramWallets := pw;
     DefaultWallet := DefaultWallet c; txErrGroup := txErrGroup c;
     queueTransactions := queueTransactions c; RPC := RPC c; WS := WS c |}.

Module Deployer.

Record Authority := {
  AuthorityPublicKey : PublicKey;
  Nonce : Z
}.

(** [Accounts]; the wallets are pointers. *)
Record Accounts := {
  OCR : option Wallet;
  Store : option Wallet;
  OCRVault : option Wallet;
  OCRVaultAssociatedPubKey : PublicKey;
  Feed : option Wallet;
  Authorities : gmap string Authority;
  Owner : option Wallet;
  Mint : option Wallet;
  Proposal : option Wallet;
  MintAuthority : option Wallet
}.

Definition set_Authorities_Owner (authorities : gmap string Authority)
    (owner : option Wallet) (a : Accounts) : Accounts :=
  {| OCR := OCR a; Store := Store a; OCRVault := OCRVault a;
     OCRVaultAssociatedPubKey := OCRVaultAssociatedPubKey a; Feed := Feed a;
     Authorities := authorities; Owner := owner; Mint := Mint a;
     Proposal := Proposal a; MintAuthority := MintAuthority a |}.

(** [ContractDeployer], without the handle on the test environment. *)
Record ContractDeployer := {
  deployerClient : Client;
  deployerAccounts : Accounts
}.

(** What the deployer takes from solana-go besides the client's [Env]:
    the search for a program address from seeds, the reading of a key file
    written by solana-keygen, and the base58 text of a private key. *)
Record Lib := {
  lib_FindProgramAddress : list string → PublicKey → result (PublicKey * Z);
  lib_PrivateKeyFromSolanaKeygenFile : string → result PrivateKey;
  lib_PrivateKey_String : PrivateKey → string
}.

Section Methods.

Variable env : Env.
Variable lib : Lib.

(** [(w *Wallet).PublicKey()] *)
Definition Wallet_PublicKey (w : option Wallet) : Run PublicKey :=
  match w with
  | None => Crashed NilDereference
  | Some w => Done (lib_PublicKey env (WalletPrivateKey w))
  end.

(** [FindAuthorityAddress] *)
Definition FindAuthorityAddress (seed : string) (statePubKey progPubKey : PublicKey)
    : result (PublicKey * Z) :=
  match lib_FindProgramAddress lib [seed; statePubKey] progPubKey with
  | Err err => Err err
  | Ok (auth, nonce) => Ok (auth, nonce)
  end.

(** The loop of [GenerateAuthorities] over [seeds]. *)
Fixpoint generate_range (c : ContractDeployer) (authorities : gmap string Authority)
    (seeds : list string) : Run (result (gmap string Authority)) :=
  match seeds with
  | [] => Done (Ok authorities)
  | seed :: seeds =>
      match Wallet_PublicKey (OCR (deployerAccounts c)) with
      | Crashed crash => Crashed crash
      | Done statePubKey =>
      match Wallet_PublicKey
              (ProgramWallets (deployerClient c) !! "ocr2-keypair.json") with
      | Crashed crash => Crashed crash
      | Done progPubKey =>
      match FindAuthorityAddress seed statePubKey progPubKey with
      | Err err => Done (Err err)
      | Ok (auth, nonce) =>
          generate_range c
            (<[seed := {| AuthorityPublicKey := auth; Nonce := nonce |}]> authorities)
            seeds
      end end end
  end.

(** [GenerateAuthorities] *)
Definition GenerateAuthorities (c : ContractDeployer) (seeds : list string)
    : Run (ContractDeployer * option error) :=
  match generate_range c ∅ seeds with
  | Crashed crash => Crashed crash
  | Done (Err err) => Done (c, Some err)
  | Done (Ok authorities) =>
      Done ({| deployerClient := deployerClient c;
               deployerAccounts :=
                 set_Authorities_Owner authorities
                   (DefaultWallet (deployerClient c)) (deployerAccounts c) |},
            None)
  end.

(** The loop of [LoadPrograms] over [keyFiles]. *)
Fixpoint load_programs (c : Client) (contractsDir : string) (keyFiles : list string)
    : Outcome (Client * option error) :=
  match keyFiles with
  | [] => Returns (c, None)
  | kfn :: keyFiles =>
      match lib_PrivateKeyFromSolanaKeygenFile lib (Fs.Join contractsDir kfn) with
      | Err err => Returns (c, Some err)
      | Ok pk =>
          match LoadWallet env (lib_PrivateKey_String lib pk) with
          | Panics p => Panics p
          | Returns (Err err) => Returns (c, Some err)
          | Returns (Ok w) =>
              load_programs (set_ProgramWallets (<[kfn := w]> (ProgramWallets c)) c)
                contractsDir keyFiles
          end
      end
  end.

(** [LoadPrograms], with [root] what the file system holds at
    [contractsDir]. *)
Definition LoadPrograms (root : Fs.Entry) (c : ContractDeployer)
    (contractsDir : string) : Run (ContractDeployer * option error) :=
  match Fs.ListDirFilenamesByExt root contractsDir ".json" with
  | Crashed crash => Crashed crash
  | Done (Err err) => Done (c, Some err)
  | Done (Ok keyFiles) =>
      match load_programs (deployerClient c) contractsDir keyFiles with
      | Panics p => Crashed (IndexFault p)
      | Returns (client, r) =>
          Done ({| deployerClient := client; deployerAccounts := deployerAccounts c |},
                r)
      end
  end.

(** *** Reading a deployer *)

(** The public keys that the two lookups of an iteration of
    [GenerateAuthorities] give, when neither pointer is nil. *)
Definition keys_of (c : ContractDeployer) : option (PublicKey * PublicKey) :=
  match OCR (deployerAccounts c),
        ProgramWallets (deployerClient c) !! "ocr2-keypair.json" with
  | Some ocr, Some prog =>
      Some (lib_PublicKey env (WalletPrivateKey ocr),
            lib_PublicKey env (WalletPrivateKey prog))
  | _, _ => None
  end.

(** What becomes of the key file [kfn] of [contractsDir]: the wallet it
    holds, the error of reading it or of parsing its key, or the panic of
    [LoadWallet] on a key that is too short. *)
Definition wallet_of (contractsDir kfn : string) : Outcome (result Wallet) :=
  match lib_PrivateKeyFromSolanaKeygenFile lib (Fs.Join contractsDir kfn) with
  | Err err => Returns (Err err)
  | Ok pk => LoadWallet env (lib_PrivateKey_String lib pk)
  end.

End Methods.

(** A library for the simulated node, reading key files from the
    directory [contractsDir] that holds [root]: a file that the directory
    holds itself has a key named after its path, any other path is not
    there; a program address is named after its seeds. *)
Definition sim_lib (root : Fs.Entry) (contractsDir : string) : Lib :=
  {| lib_FindProgramAddress := λ seeds prog,
       Ok ("pda/" +:+ String.concat "/" seeds +:+ "@" +:+ prog, 255%Z);
     lib_PrivateKeyFromSolanaKeygenFile := λ path,
       if decide (path ∈ Fs.Join contractsDir <$> Fs.own_files root)
       then Ok ("key:" +:+ path)
       else Err (ErrExternal ("open " +:+ path +:+ ": no such file or directory"));
     lib_PrivateKey_String := λ pk, pk |}.

(** A deployer as [NewContractDeployer] makes it, around the simulated
    client. *)
Definition sim_deployer : ContractDeployer :=
  {| deployerClient := Sim.client;
     deployerAccounts :=
       {| OCR := Some {| WalletPrivateKey := "ocr" |};
          Store := Some {| WalletPrivateKey := "store" |};
          OCRVault := Some {| WalletPrivateKey := "vault" |};
          OCRVaultAssociatedPubKey := "";
          Feed := Some {| WalletPrivateKey := "feed" |};
          Authorities := ∅;
          Owner := Some {| WalletPrivateKey := "owner" |};
          Mint := Some {| WalletPrivateKey := "mint" |};
          Proposal := Some {| WalletPrivateKey := "proposal" |};
          MintAuthority := Some {| WalletPrivateKey := "mint-authority" |} |} |}.

End Deployer.

(** * Balance metrics ([pkg/monitoring/metrics.go]) *)

Module Monitoring.

Definition BalanceAccountNames : list string :=
  [ "contract"; "state"; "transmissions"; "token_vault";
    "requester_access_controller"; "billing_access_controller" ].

Definition labelNames : list string :=
  [ "account_address"; "feed_id"; "chain_id"; "contract_status"; "contract_type";
    "feed_name"; "feed_path"; "network_id"; "network_name" ].

(** The conversion [float64(balance)] of a [uint64]: the nearest number with
    a 53-bit significand, the one with an even significand when two are
    equally near.  Such a number is an integer here, and is kept as one. *)
Definition float64_of_uint64 (n : Z) : Z :=
  if (n <? 2 ^ 53)%Z then n
  else
    let e := (Z.log2 n - 52)%Z in
    let q := (n / 2 ^ e)%Z in
    let r := (n mod 2 ^ e)%Z in
    let half := (2 ^ (e - 1))%Z in
    if (r <? half)%Z then (q * 2 ^ e)%Z
    else if (half <? r)%Z then ((q + 1) * 2 ^ e)%Z
    else if Z.even q then (q * 2 ^ e)%Z
    else ((q + 1) * 2 ^ e)%Z.

(** A [prometheus.GaugeVec]: its name, its label names, and the value of
    every series, by label values. *)
Record GaugeVec := {
  gauge_Name : string;
  gauge_labels : list string;
  gauge_series : gmap (list string) Z
}.

Definition set_series (series : gmap (list string) Z) (g : GaugeVec) : GaugeVec :=
  {| gauge_Name := gauge_Name g; gauge_labels := gauge_labels g;
     gauge_series := series |}.

(** The default registry, as far as names go, and the package variable
    [gauges]. *)
Record State := {
  registered : gset string;
  gauges : gmap string GaugeVec
}.

Definition set_gauges (gs : gmap string GaugeVec) (st : State) : State :=
  {| registered := registered st; gauges := gs |}.

(** The arguments that [SetBalance] and [Cleanup] pass on as label
    values. *)
Record Labels := {
  accountAddress : string;
  feedID : string;
  chainID : string;
  contractStatus : string;
  contractType : string;
  feedName : string;
  feedPath : string;
  networkID : string;
  networkName : string
}.

Definition label_values (l : Labels) : list string :=
  [ accountAddress l; feedID l; chainID l; contractStatus l; contractType l;
    feedName l; feedPath l; networkID l; networkName l ].

Section Prometheus.

(** [utf8.ValidString] *)
Variable utf8_ValidString : string → bool.

(** The check the vector makes of label values: as many as there are label
    names, each of them valid UTF-8. *)
Definition validateLabelValues (g : GaugeVec) (lvs : list string) : bool :=
  bool_decide (length lvs = length (gauge_labels g)) && forallb utf8_ValidString lvs.

(** [promauto.NewGaugeVec]: the vector is registered with the default
    registry, which panics when the name is taken. *)
Definition NewGaugeVec (reg : gset string) (name : string) (labels : list string)
    : Run (gset string * GaugeVec) :=
  if decide (name ∈ reg)
  then Crashed (Panicked "duplicate metrics collector registration attempted")
  else Done ({[ name ]} ∪ reg,
             {| gauge_Name := name; gauge_labels := labels; gauge_series := ∅ |}).

(** [g.WithLabelValues(lvs...).Set(v)]: the series is made if it is not
    there; label values that fail the check make [WithLabelValues] panic. *)
Definition WithLabelValues_Set (g : GaugeVec) (lvs : list string) (v : Z)
    : Run GaugeVec :=
  if validateLabelValues g lvs
  then Done (set_series (<[lvs := v]> (gauge_series g)) g)
  else Crashed (Panicked "inconsistent label cardinality or invalid label value").

(** [g.DeleteLabelValues(lvs...)]: whether a series was deleted. *)
Definition DeleteLabelValues (g : GaugeVec) (lvs : list string) : GaugeVec * bool :=
  if validateLabelValues g lvs
  then match gauge_series g !! lvs with
       | Some _ => (set_series (delete lvs (gauge_series g)) g, true)
       | None => (g, false)
       end
  else (g, false).

(** The loop of [init] over [names]. *)
Fixpoint init_range (names : list string) (st : State) : Run State :=
  match names with
  | [] => Done st
  | name :: names =>
      match NewGaugeVec (registered st) ("sol_balance_" +:+ name) labelNames with
      | Crashed crash => Crashed crash
      | Done (reg, g) =>
          init_range names {| registered := reg; gauges := <[name := g]> (gauges st) |}
      end
  end.

(** [init], run on a default registry that holds [reg]. *)
Definition init (reg : gset string) : Run State :=
  init_range BalanceAccountNames {| registered := reg; gauges := ∅ |}.

(** [SetBalance] *)
Definition SetBalance (st : State) (balance : Z) (balanceAccountName : string)
    (l : Labels) : Run State :=
  match gauges st !! balanceAccountName with
  | None =>
      Crashed (Panicked ("gauge not known for name '" +:+ balanceAccountName +:+ "'"))
  | Some gauge =>
      match WithLabelValues_Set gauge (label_values l) (float64_of_uint64 balance) with
      | Crashed crash => Crashed crash
      | Done gauge => Done (set_gauges (<[balanceAccountName := gauge]> (gauges st)) st)
      end
  end.

(** The loop of [Cleanup] over [names]; [gauges[name]] is nil for a name the
    map does not have. *)
Fixpoint cleanup_range (names : list string) (st : State) (l : Labels) : Run State :=
  match names with
  | [] => Done st
  | name :: names =>
      match gauges st !! name with
      | None => Crashed NilDereference
      | Some gauge =>
          let (gauge, _) := DeleteLabelValues gauge (label_values l) in
          cleanup_range names (set_gauges (<[name := gauge]> (gauges st)) st) l
      end
  end.

(** [Cleanup] *)
Definition Cleanup (st : State) (l : Labels) : Run State :=
  cleanup_range BalanceAccountNames st l.

(** The states the package can be in: [init] has run, and then any number of
    calls that returned. *)
Inductive reachable (reg : gset string) : State → Prop :=
| reach_init st :
    init reg = Done st → reachable reg st
| reach_SetBalance st balance name l st' :
    reachable reg st → SetBalance st balance name l = Done st' → reachable reg st'
| reach_Cleanup st l st' :
    reachable reg st → Cleanup st l = Done st' → reachable reg st'.

End Prometheus.

(** What the gauge of [name] shows for the label values [lvs]. *)
Definition shown (st : State) (name : string) (lvs : list string) : option Z :=
  g ← gauges st !! name; gauge_series g !! lvs.

(** The gauge that [init] makes for an account name. *)
Definition fresh_gauge (name : string) : GaugeVec :=
  {| gauge_Name := "sol_balance_" +:+ name; gauge_labels := labelNames;
     gauge_series := ∅ |}.

(** There is one gauge for each account name and no other, named and
    labelled as [init] made it, and its series are for label values that pass
    its check. *)
Definition as_registered (utf8_ValidString : string → bool) (st : State) : Prop :=
  ∀ name,
    match gauges st !! name with
    | None => name ∉ BalanceAccountNames
    | Some g =>
        name ∈ BalanceAccountNames ∧
        gauge_Name g = "sol_balance_" +:+ name ∧
        gauge_labels g = labelNames ∧
        ∀ lvs, is_Some (gauge_series g !! lvs) →
               validateLabelValues utf8_ValidString g lvs = true
    end.

(** Label values and a validity check to try the definitions on: a text is
    taken for valid when it is not the byte 255. *)
Definition feed : Labels :=
  {| accountAddress := "2TQ6BVFyVyFJjxR8CZxfk6jSmCFfUWGXWfV6ib1wEMqT";
     feedID := "sol-usd"; chainID := "devnet"; contractStatus := "live";
     contractType := "ocr2"; feedName := "SOL / USD"; feedPath := "sol-usd";
     networkID := "solana-devnet"; networkName := "Solana Devnet" |}.

Definition no_byte_255 (s : string) : bool :=
  negb (bool_decide (s = String (Ascii.ascii_of_nat 255) EmptyString)).

End Monitoring.

(** * Proofs *)

Ltac unfold_go :=
  unfold TXSync, TXAsync, confirmation, Airdrop, RPC_GetRecentBlockhash,
    RPC_SendTransactionWithOpts, RPC_SendTransaction, RPC_RequestAirdrop,
    WS_SignatureSubscribe, Sub_Recv, Sub_Unsubscribe, EncodeTree,
    rpc_request, emit, bind, ret, panic, extend;
  cbn [events rpcSeq sched].

Ltac case_go :=
  match goal with
  | |- context [match ?x with _ => _ end] => destruct x eqn:?
  end.

Ltac split_elem H :=
  repeat (apply elem_of_cons in H as [H | H]; [try discriminate H |]);
  try (apply elem_of_nil in H; destruct H).

Lemma confirmation_runs env t w :
  confirmation env t w = Returns (task_result env t, extend w (task_trace env t)).
Proof.
  unfold task_result, task_trace. unfold_go.
  repeat case_go; simplify_eq; cbn [events rpcSeq sched];
    rewrite <- ?app_assoc; reflexivity.
Qed.

Lemma sign_keys_unresolved env content getter keys key :
  key ∈ keys → getter key = None →
  ∀ tx, ∃ tx' e, sign_keys env content getter keys tx = (tx', Err e) ∧ signing_error e.
Proof.
  intros Hin Hnone. induction keys as [|k keys IH]; intros tx.
  - apply elem_of_nil in Hin. destruct Hin.
  - cbn [sign_keys]. apply elem_of_cons in Hin as [<- | Hin].
    + rewrite Hnone. do 2 eexists. split; [reflexivity | exact I].
    + destruct (getter k) as [sk|]; [| do 2 eexists; split; [reflexivity | exact I]].
      destruct (lib_PrivateKey_Sign env sk content) as [s | cause];
        [| do 2 eexists; split; [reflexivity | exact I]].
      apply IH, Hin.
Qed.

Lemma Sign_unresolved env tx getter key :
  key ∈ signerKeys (TxMessage tx) → getter key = None →
  ∃ tx' e, Sign env tx getter = (tx', Err e) ∧ signing_error e.
Proof.
  intros Hin Hnone. unfold Sign.
  destruct (lib_MarshalBinary env (TxMessage tx)) as [content | cause].
  - eapply sign_keys_unresolved; eassumption.
  - do 2 eexists. split; [reflexivity | exact I].
Qed.

(** ** Blockhash freshness *)

(** C8. [TXSync] and [TXAsync] both start with one request for the recent
    blockhash at the finalized commitment, whatever commitment the caller
    gave; no other blockhash request follows, and a transaction that is
    submitted was assembled from the hash this request returned. *)
Theorem blockhash_fetched_at_finalized env c name commitment instr signerFunc payer w :
  let fetched := rpc_GetRecentBlockhash env (rpcSeq w) CommitmentFinalized in
  (∃ r w' rest,
     TXSync env c name commitment instr signerFunc payer w = Returns (r, w') ∧
     events w' = events w ++ EvGetRecentBlockhash CommitmentFinalized fetched :: rest ∧
     forallb (λ e, negb (is_blockhash_fetch e)) rest = true ∧
     ∀ tx skip pre resp, EvSendTransactionWithOpts tx skip pre resp ∈ rest →
       ∃ blockhash tx0, fetched = Ok blockhash ∧
         lib_NewTransaction env instr blockhash payer = Ok tx0 ∧
         tx = (Sign env tx0 signerFunc).1) ∧
  (∃ r w' rest,
     TXAsync env c name instr signerFunc payer w = Returns (r, w') ∧
     events w' = events w ++ EvGetRecentBlockhash CommitmentFinalized fetched :: rest ∧
     forallb (λ e, negb (is_blockhash_fetch e)) rest = true ∧
     ∀ tx resp, EvSendTransaction tx resp ∈ rest →
       ∃ blockhash tx0, fetched = Ok blockhash ∧
         lib_NewTransaction env instr blockhash payer = Ok tx0 ∧
         tx = (Sign env tx0 signerFunc).1).
Proof.
  intros fetched. subst fetched. split; unfold_go.
  - repeat case_go; do 3 eexists; cbn [events];
      (split; [reflexivity |]); rewrite <- ?app_assoc;
      (split; [reflexivity |]); (split; [reflexivity |]);
      intros tx' skip pre resp Hin; split_elem Hin;
      simplify_eq; do 2 eexists; split_and!; try eassumption; try reflexivity;
      match goal with H : Sign _ _ _ = _ |- _ => rewrite H end; reflexivity.
  - repeat case_go; do 3 eexists; cbn [events];
      (split; [reflexivity |]); rewrite <- ?app_assoc;
      (split; [reflexivity |]); (split; [reflexivity |]);
      intros tx' resp Hin; split_elem Hin;
      simplify_eq; do 2 eexists; split_and!; try eassumption; try reflexivity;
      match goal with H : Sign _ _ _ = _ |- _ => rewrite H end; reflexivity.
Qed.

(** ** Synchronous send: what becomes of the notification *)

(** Whenever the subscription of [TXSync] delivers a notification, the call
    returns [nil]: the notification is logged and not looked into. *)
Lemma TXSync_nil_after_notification env c name commitment instr signerFunc payer w :
  ∃ r new n,
    TXSync env c name commitment instr signerFunc payer w
      = Returns (r, {| rpcSeq := n; events := events w ++ new; sched := sched w |}) ∧
    ∀ sig com res, EvRecv sig com (Ok res) ∈ new → r = None.
Proof.
  unfold_go.
  repeat (case_go; cbn [events rpcSeq sched]); rewrite <- ?app_assoc;
    do 3 eexists; (split; [reflexivity |]);
    intros sig' com res Hin; split_elem Hin; simplify_eq; reflexivity.
Qed.

(** C1.  A transfer to the system program's address is accepted by the node
    and fails on chain; the notification that [TXSync] receives carries the
    execution error, and [TXSync] returns [nil] all the same.  The
    confirmation goroutine of [queueTX] turns the same notification into
    "transaction confirmation failed". *)
Theorem TXSync_returns_nil_on_execution_error :
  let env := Sim.node (λ _, false) (λ _, false) (λ _, Some "InstructionError") in
  let sig :=
    Sim.signature_of [Sim.transfer Sim.alice "11111111111111111111111111111111"] in
  ∃ w' before,
    TXSync env Sim.client "Create feed" CommitmentFinalized
      [Sim.transfer Sim.alice "11111111111111111111111111111111"]
      Sim.alice_signs Sim.alice (Sim.world []) = Returns (None, w') ∧
    events w' = before ++
      [EvRecv sig CommitmentFinalized (Ok {| ValueErr := Some "InstructionError" |});
       EvUnsubscribe sig CommitmentFinalized] ∧
    task_result env {| taskSig := sig; taskCommitment := CommitmentFinalized |}
      = Some (ErrConfirmationFailed "InstructionError").
Proof.
  cbv zeta. eexists. eexists (_ :: _ :: _ :: [_]).
  split; [vm_compute; reflexivity |].
  split; reflexivity.
Qed.

(** ** Signing *)

(** C7.  When the resolver has no key for some account of the assembled
    transaction that must sign, [TXSync] and [TXAsync] return an error at
    once: the trace holds the single blockhash request and nothing is ever
    submitted or subscribed to, [TXAsync] leaves the client and its error
    group as they were, and, the tree print having gone through, the error
    is the one [Transaction.Sign] returned. *)
Theorem unresolved_signer_fails_before_submit
    env c name commitment instr signerFunc payer w :
  let fetched := rpc_GetRecentBlockhash env (rpcSeq w) CommitmentFinalized in
  (∀ blockhash tx,
     fetched = Ok blockhash →
     lib_NewTransaction env instr blockhash payer = Ok tx →
     ∃ key, key ∈ signerKeys (TxMessage tx) ∧ signerFunc key = None) →
  ∃ e new n,
    let w' := {| rpcSeq := n; events := events w ++ new; sched := sched w |} in
    TXSync env c name commitment instr signerFunc payer w = Returns (Some e, w') ∧
    TXAsync env c name instr signerFunc payer w = Returns ((c, Some e), w') ∧
    forallb (λ ev, negb (is_submit ev)) new = true ∧
    forallb (λ ev, negb (is_subscription ev)) new = true ∧
    length (filter (λ ev, is_blockhash_fetch ev) new) = 1 ∧
    ∀ blockhash tx,
      fetched = Ok blockhash →
      lib_NewTransaction env instr blockhash payer = Ok tx →
      lib_EncodeTree env tx name = None →
      signing_error e ∧ (Sign env tx signerFunc).2 = Err e ∧
      new = [EvGetRecentBlockhash CommitmentFinalized (Ok blockhash);
             EvEncodeTree name None].
Proof.
  intros fetched Hkey. subst fetched. unfold_go.
  destruct (rpc_GetRecentBlockhash env (rpcSeq w) CommitmentFinalized)
    as [blockhash | e] eqn:Hf.
  2:{ exists e. do 2 eexists. cbv zeta.
      split_and!; try reflexivity. intros ? ? Heq; discriminate Heq. }
  destruct (lib_NewTransaction env instr blockhash payer) as [tx | e] eqn:Hn.
  2:{ exists e. do 2 eexists. cbv zeta.
      split_and!; try reflexivity. intros; congruence. }
  destruct (Hkey blockhash tx eq_refl Hn) as (key & Hin & Hnone).
  destruct (Sign_unresolved env tx signerFunc key Hin Hnone) as (tx' & e & HS & He).
  cbn [events rpcSeq sched].
  destruct (lib_EncodeTree env tx name) as [e' |] eqn:Henc.
  - exists e'. do 2 eexists. cbv zeta. rewrite <- !app_assoc.
    split_and!; try reflexivity. intros; congruence.
  - rewrite HS. cbn [events rpcSeq sched]. exists e. do 2 eexists. cbv zeta.
    rewrite <- !app_assoc.
    split_and!; try reflexivity. intros bh tx0 Hb Ht _.
    assert (bh = blockhash) by congruence. subst bh.
    assert (tx0 = tx) by congruence. subst tx0.
    rewrite HS. split_and!; [exact He | reflexivity | reflexivity].
Qed.

Lemma unresolved_signer_fails_before_submit_witness :
  ∃ e new n,
    let w' := {| rpcSeq := n; events := [] ++ new; sched := [] |} in
    TXSync Sim.healthy Sim.client "Deploy store" CommitmentConfirmed
      [Sim.transfer Sim.alice Sim.alice] Sim.nobody_signs Sim.alice (Sim.world [])
      = Returns (Some e, w') ∧
    TXAsync Sim.healthy Sim.client "Deploy store"
      [Sim.transfer Sim.alice Sim.alice] Sim.nobody_signs Sim.alice (Sim.world [])
      = Returns ((Sim.client, Some e), w') ∧
    forallb (λ ev, negb (is_submit ev)) new = true ∧
    forallb (λ ev, negb (is_subscription ev)) new = true ∧
    length (filter (λ ev, is_blockhash_fetch ev) new) = 1 ∧
    ∀ blockhash tx,
      rpc_GetRecentBlockhash Sim.healthy 0 CommitmentFinalized = Ok blockhash →
      lib_NewTransaction Sim.healthy [Sim.transfer Sim.alice Sim.alice] blockhash Sim.alice
        = Ok tx →
      lib_EncodeTree Sim.healthy tx "Deploy store" = None →
      signing_error e ∧ (Sign Sim.healthy tx Sim.nobody_signs).2 = Err e ∧
      new = [EvGetRecentBlockhash CommitmentFinalized (Ok blockhash);
             EvEncodeTree "Deploy store" None].
Proof.
  apply (unresolved_signer_fails_before_submit Sim.healthy Sim.client "Deploy store"
           CommitmentConfirmed [Sim.transfer Sim.alice Sim.alice] Sim.nobody_signs
           Sim.alice (Sim.world [])).
  intros blockhash tx Hf Hn. exists Sim.alice. split; [| reflexivity].
  cbn in Hn. injection Hn as <-. vm_compute. left.
Defined.

(** ** The join, one goroutine after the other *)

Lemma pick_in_range n w :
  (0 < n)%nat →
  ∃ i choices,
    pick n w = Returns (i, {| rpcSeq := rpcSeq w; events := events w; sched := choices |}) ∧
    (i < n)%nat.
Proof.
  intros Hn. unfold pick. destruct w as [seq evs [| i rest]]; cbn.
  - exists 0%nat, []. split; [reflexivity | exact Hn].
  - exists (i mod n)%nat, rest. split; [reflexivity |].
    apply Nat.mod_upper_bound. lia.
Qed.

Lemma first_failure_done env kept t order :
  first_failure env (errOnce kept (task_result env t)) order
  = first_failure env kept (t :: order).
Proof.
  unfold first_failure, errOnce. cbn [omap list_omap].
  destruct kept as [e0 |]; destruct (task_result env t) as [e |]; reflexivity.
Qed.

(** Draining the group runs every task that was still counted, each to its
    end and one whole task after the other, in some order. *)
Lemma Group_drain_runs_all env n :
  ∀ g w, (length (running g) ≤ n)%nat →
  ∃ order choices,
    Group_drain env n g w
      = Returns ({| running := []; firstErr := first_failure env (firstErr g) order |},
                 {| rpcSeq := rpcSeq w;
                    events := events w ++ concat (task_trace env <$> order);
                    sched := choices |}) ∧
    order ≡ₚ running g.
Proof.
  induction n as [| n IH]; intros g w Hlen.
  - destruct g as [[| t l] kept]; cbn in Hlen; [| lia].
    exists [], (sched w). cbn. rewrite app_nil_r. destruct w, kept; done.
  - cbn [Group_drain]. destruct (running g) as [| t0 l] eqn:Hrun.
    + exists [], (sched w). cbn. rewrite app_nil_r. unfold ret.
      destruct g as [tasks kept], w; cbn in *; subst tasks. destruct kept; done.
    + rewrite <- Hrun in *.
      destruct (pick_in_range (length (running g)) w) as (i & choices & Hpick & Hi).
      { rewrite Hrun. cbn. lia. }
      unfold bind at 1. rewrite Hpick.
      destruct (lookup_lt_is_Some_2 (running g) i Hi) as [t Ht]. rewrite Ht.
      unfold bind at 1. rewrite confirmation_runs.
      destruct (IH (Group_done g i (task_result env t))
                  (extend {| rpcSeq := rpcSeq w; events := events w; sched := choices |}
                          (task_trace env t)))
        as (order & choices' & Hdrain & Hperm).
      { cbn [Group_done running]. rewrite length_delete by eauto. lia. }
      exists (t :: order), choices'. rewrite Hdrain. split.
      * cbn [Group_done firstErr extend rpcSeq events sched fmap list_fmap concat].
        rewrite first_failure_done, <- app_assoc. reflexivity.
      * cbn [Group_done running] in Hperm. rewrite Hperm.
        symmetry. by apply delete_Permutation.
Qed.

(** ** Asynchronous send *)

(** What [TXAsync] does, whatever the collaborators answer: it returns; it
    asks the node to take the transaction at most once; the answer to that
    request decides the result; and the only goroutine it can start watches
    at the confirmed commitment. *)
Lemma TXAsync_outline env c name instr signerFunc payer w :
  ∃ c' r new n,
    TXAsync env c name instr signerFunc payer w
      = Returns ((c', r), {| rpcSeq := n; events := events w ++ new; sched := sched w |}) ∧
    (length (filter (λ ev, is_submit ev) new) ≤ 1)%nat ∧
    forallb (λ ev, negb (is_subscription ev)) new = true ∧
    (∀ tx e, EvSendTransaction tx (Err e) ∈ new → r = Some e ∧ c' = c) ∧
    (∀ tx sig, EvSendTransaction tx (Ok sig) ∈ new →
       r = None ∧ c' = queueTX c sig CommitmentConfirmed ∧
       ∃ before, new = before ++ [EvSendTransaction tx (Ok sig)]) ∧
    (r = None → ∃ tx sig, EvSendTransaction tx (Ok sig) ∈ new).
Proof.
  unfold_go.
  repeat (case_go; cbn [events rpcSeq sched]); rewrite <- ?app_assoc;
    do 4 eexists; (split; [reflexivity |]);
    (split; [vm_compute; lia |]); (split; [reflexivity |]);
    (split; [intros tx' e' Hin; split_elem Hin; simplify_eq; done |]);
    (split; [intros tx' sig' Hin; split_elem Hin; simplify_eq;
             split_and!; try reflexivity; by eexists [_; _] |]);
    intros Hr; try discriminate Hr; do 2 eexists;
    do 2 apply list_elem_of_further; apply list_elem_of_here.
Qed.


(** C3, refuted as worded.  A transaction is sent with [TXAsync] and the
    node takes it.  Then the websocket refuses the subscription for its
    signature, or grants it and is closed before the notification comes:
    either way the goroutine hands its error to the group, which keeps it,
    and no confirmation result carried an execution error. *)
Lemma TXAsync_task_records_transport_failure :
  let refusing := Sim.node (λ _, false) (λ _, true) (λ _, None) in
  let send env :=
    TXAsync env Sim.client "Initializing access controller"
      [Sim.transfer Sim.alice Sim.alice] Sim.alice_signs Sim.alice (Sim.world []) in
  (∃ c1 w1 t w2,
     send refusing = Returns ((c1, None), w1) ∧
     running (txErrGroup c1) = [t] ∧ firstErr (txErrGroup c1) = None ∧
     confirmation refusing t w1
       = Returns (Some (ErrExternal "websocket: close sent"), w2) ∧
     firstErr (Group_done (txErrGroup c1) 0 (Some (ErrExternal "websocket: close sent")))
       = Some (ErrExternal "websocket: close sent") ∧
     execution_failed refusing t = false ∧
     ¬ records_iff_execution_error refusing (txErrGroup c1) w1) ∧
  (∃ c1 w1 t w2,
     send Sim.hanging_up = Returns ((c1, None), w1) ∧
     running (txErrGroup c1) = [t] ∧ firstErr (txErrGroup c1) = None ∧
     ws_SignatureSubscribe Sim.hanging_up (taskSig t) (taskCommitment t) = None ∧
     confirmation Sim.hanging_up t w1
       = Returns (Some (ErrExternal "websocket: close 1006 (abnormal closure)"), w2) ∧
     firstErr (Group_done (txErrGroup c1) 0
                 (Some (ErrExternal "websocket: close 1006 (abnormal closure)")))
       = Some (ErrExternal "websocket: close 1006 (abnormal closure)") ∧
     execution_failed Sim.hanging_up t = false ∧
     ¬ records_iff_execution_error Sim.hanging_up (txErrGroup c1) w1).
Proof.
  cbv zeta. split.
  - do 4 eexists. split; [vm_compute; reflexivity |].
    split_and!; try (vm_compute; reflexivity).
    intros Hiff.
    specialize (Hiff 0%nat _ _ _ eq_refl eq_refl ltac:(vm_compute; reflexivity)).
    destruct Hiff as [Hiff _].
    assert (false = true) as Habs; [| discriminate Habs].
    apply Hiff. vm_compute. discriminate.
  - do 4 eexists. split; [vm_compute; reflexivity |].
    split_and!; try (vm_compute; reflexivity).
    intros Hiff.
    specialize (Hiff 0%nat _ _ _ eq_refl eq_refl ltac:(vm_compute; reflexivity)).
    destruct Hiff as [Hiff _].
    assert (false = true) as Habs; [| discriminate Habs].
    apply Hiff. vm_compute. discriminate.
Qed.

(** C3, amended.  A call of [TXAsync] that succeeds has done nothing beyond
    the submit: its trace ends with the node's answer [sig] and holds no
    subscription event.  The client it leaves has one more goroutine in the
    shared error group, the last one, watching [sig] at the confirmed
    commitment.  When that goroutine has run to its end, it has subscribed
    for [sig] first, and it hands the group an error exactly when the
    subscription was refused, the receive failed or the notification
    carries an execution error; with a notification delivered, that is
    exactly when it carries an execution error.  The group then counts one
    goroutine less and keeps the error it had, or else the one it is
    handed; so the join of a client that had nothing else running and no
    error kept returns what this goroutine returned. *)
Theorem TXAsync_registers_confirmation_task
    env c name instr signerFunc payer w c' w' :
  TXAsync env c name instr signerFunc payer w = Returns ((c', None), w') →
  ∃ tx sig before,
    let t := {| taskSig := sig; taskCommitment := CommitmentConfirmed |} in
    let i := length (running (txErrGroup c)) in
    events w' = events w ++ before ++ [EvSendTransaction tx (Ok sig)] ∧
    forallb (λ ev, negb (is_subscription ev)) before = true ∧
    c' = queueTX c sig CommitmentConfirmed ∧
    running (txErrGroup c') = running (txErrGroup c) ++ [t] ∧
    running (txErrGroup c') !! i = Some t ∧
    firstErr (txErrGroup c') = firstErr (txErrGroup c) ∧
    (∀ w1 r w2,
       confirmation env t w1 = Returns (r, w2) →
       (∃ rest,
          events w2 = events w1 ++
            EvSignatureSubscribe sig CommitmentConfirmed
              (ws_SignatureSubscribe env sig CommitmentConfirmed) :: rest) ∧
       r = task_result env t ∧
       (r ≠ None ↔
        is_Some (ws_SignatureSubscribe env sig CommitmentConfirmed) ∨
        (∃ e, ws_Recv env sig CommitmentConfirmed = Err e) ∨
        (∃ res txerr, ws_Recv env sig CommitmentConfirmed = Ok res ∧
                      ValueErr res = Some txerr)) ∧
       (∀ res,
          ws_SignatureSubscribe env sig CommitmentConfirmed = None →
          ws_Recv env sig CommitmentConfirmed = Ok res →
          (r ≠ None ↔ ValueErr res ≠ None)) ∧
       running (Group_done (txErrGroup c') i r) = running (txErrGroup c) ∧
       firstErr (Group_done (txErrGroup c') i r)
         = match firstErr (txErrGroup c) with
           | Some kept => Some kept
           | None => r
           end) ∧
    (running (txErrGroup c) = [] →
     firstErr (txErrGroup c) = None →
     ∀ w1 c2 r w2,
       WaitForEvents env c' w1 = Returns ((c2, r), w2) →
       r = task_result env t ∧
       txErrGroup c2 = {| running := []; firstErr := r |}).
Proof.
  intros Hrun.
  destruct (TXAsync_outline env c name instr signerFunc payer w)
    as (c1 & r & new & n & Heq & _ & Hsub & _ & Hok & Hnil).
  rewrite Heq in Hrun. injection Hrun as -> -> <-.
  destruct (Hnil eq_refl) as (tx & sig & Hin).
  destruct (Hok tx sig Hin) as (_ & -> & before & ->).
  exists tx, sig, before. cbv zeta. cbn [events].
  rewrite forallb_app in Hsub. apply andb_prop in Hsub as [Hsub _].
  split_and!; try reflexivity; try assumption.
  - cbn [queueTX set_txErrGroup txErrGroup Group_Go running].
    by rewrite lookup_app_r, Nat.sub_diag by lia.
  - intros w1 r w2. rewrite confirmation_runs. intros [= <- <-]. split_and!.
    + unfold task_trace, extend. cbn [taskSig taskCommitment events].
      destruct (ws_SignatureSubscribe env sig CommitmentConfirmed); eexists; reflexivity.
    + reflexivity.
    + unfold task_result. cbn [taskSig taskCommitment].
      destruct (ws_SignatureSubscribe env sig CommitmentConfirmed) as [e |].
      { split; [intros _; left; by eexists | done]. }
      destruct (ws_Recv env sig CommitmentConfirmed) as [res | e].
      2:{ split; [intros _; right; left; by eexists | done]. }
      destruct (ValueErr res) as [txerr |] eqn:Hres.
      * split; [intros _; right; right; by exists res, txerr | done].
      * split; [done |].
        intros [[e He] | [[e He] | (res' & txerr & Hr & Hv)]]; try discriminate.
        injection Hr as <-. congruence.
    + intros res Hs Hr. unfold task_result. cbn [taskSig taskCommitment].
      rewrite Hs, Hr. destruct (ValueErr res); split; congruence.
    + cbn [queueTX set_txErrGroup txErrGroup Group_Go Group_done running].
      by rewrite delete_middle, app_nil_r.
    + cbn [queueTX set_txErrGroup txErrGroup Group_Go Group_done firstErr].
      unfold errOnce.
      destruct (task_result env _), (firstErr (txErrGroup c)); reflexivity.
  - intros Hidle Hkept w1 c2 r w2. unfold WaitForEvents, Group_Wait.
    destruct (Group_drain_runs_all env
                (length (running (txErrGroup (queueTX c sig CommitmentConfirmed))))
                (txErrGroup (queueTX c sig CommitmentConfirmed)) w1 (le_n _))
      as (order & choices & Hdrain & Hperm).
    unfold bind at 1 2. rewrite Hdrain. unfold ret, bind. cbn [fst snd firstErr].
    cbn [queueTX set_txErrGroup txErrGroup Group_Go running firstErr] in Hperm |- *.
    rewrite Hidle in Hperm. cbn [app] in Hperm.
    apply Permutation_singleton_r in Hperm as ->.
    rewrite Hkept. unfold first_failure. cbn [omap list_omap].
    intros [= <- <- <-]. cbn [txErrGroup set_txErrGroup].
    destruct (task_result env _); split; reflexivity.
Qed.

Lemma TXAsync_registers_confirmation_task_witness :
  let env := Sim.node (λ _, false) (λ _, false) (λ _, Some "InstructionError") in
  let call :=
    TXAsync env Sim.client "Initializing access controller"
      [Sim.transfer Sim.alice Sim.alice] Sim.alice_signs Sim.alice (Sim.world []) in
  ∃ c' w', call = Returns ((c', None), w') ∧
  ∃ tx sig before,
    let t := {| taskSig := sig; taskCommitment := CommitmentConfirmed |} in
    let i := length (running (txErrGroup Sim.client)) in
    events w' = [] ++ before ++ [EvSendTransaction tx (Ok sig)] ∧
    forallb (λ ev, negb (is_subscription ev)) before = true ∧
    c' = queueTX Sim.client sig CommitmentConfirmed ∧
    running (txErrGroup c') = running (txErrGroup Sim.client) ++ [t] ∧
    running (txErrGroup c') !! i = Some t ∧
    firstErr (txErrGroup c') = firstErr (txErrGroup Sim.client) ∧
    (∀ w1 r w2,
       confirmation env t w1 = Returns (r, w2) →
       (∃ rest,
          events w2 = events w1 ++
            EvSignatureSubscribe sig CommitmentConfirmed
              (ws_SignatureSubscribe env sig CommitmentConfirmed) :: rest) ∧
       r = task_result env t ∧
       (r ≠ None ↔
        is_Some (ws_SignatureSubscribe env sig CommitmentConfirmed) ∨
        (∃ e, ws_Recv env sig CommitmentConfirmed = Err e) ∨
        (∃ res txerr, ws_Recv env sig CommitmentConfirmed = Ok res ∧
                      ValueErr res = Some txerr)) ∧
       (∀ res,
          ws_SignatureSubscribe env sig CommitmentConfirmed = None →
          ws_Recv env sig CommitmentConfirmed = Ok res →
          (r ≠ None ↔ ValueErr res ≠ None)) ∧
       running (Group_done (txErrGroup c') i r) = running (txErrGroup Sim.client) ∧
       firstErr (Group_done (txErrGroup c') i r)
         = match firstErr (txErrGroup Sim.client) with
           | Some kept => Some kept
           | None => r
           end) ∧
    (running (txErrGroup Sim.client) = [] →
     firstErr (txErrGroup Sim.client) = None →
     ∀ w1 c2 r w2,
       WaitForEvents env c' w1 = Returns ((c2, r), w2) →
       r = task_result env t ∧
       txErrGroup c2 = {| running := []; firstErr := r |}).
Proof.
  cbv zeta. do 2 eexists. split; [vm_compute; reflexivity |].
  eapply (TXAsync_registers_confirmation_task _ Sim.client
            "Initializing access controller" [Sim.transfer Sim.alice Sim.alice]
            Sim.alice_signs Sim.alice (Sim.world [])).
  vm_compute. reflexivity.
Defined.



(** ** Joining the confirmation goroutines *)

(** A send never touches the error the group keeps, and starts at most one
    goroutine, which it puts behind those already running. *)
Lemma sends_start_at_most_one_task env c w :
  (∀ name instr signerFunc payer c' r w',
     TXAsync env c name instr signerFunc payer w = Returns ((c', r), w') →
     firstErr (txErrGroup c') = firstErr (txErrGroup c) ∧
     (running (txErrGroup c') = running (txErrGroup c) ∨
      ∃ t, running (txErrGroup c') = running (txErrGroup c) ++ [t])) ∧
  (∀ wpk solAmount c' r w',
     Airdrop env c wpk solAmount w = Returns ((c', r), w') →
     firstErr (txErrGroup c') = firstErr (txErrGroup c) ∧
     (running (txErrGroup c') = running (txErrGroup c) ∨
      ∃ t, running (txErrGroup c') = running (txErrGroup c) ++ [t])).
Proof.
  split.
  - intros name instr signerFunc payer c' r w'. unfold_go.
    repeat (case_go; cbn [events rpcSeq sched]); intros Hret; simplify_eq;
      (split; [reflexivity |]); first [by left | right; by eexists].
  - intros wpk solAmount c' r w'. unfold_go.
    repeat (case_go; cbn [events rpcSeq sched]); intros Hret; simplify_eq;
      (split; [reflexivity |]); first [by left | right; by eexists].
Qed.

Lemma first_failure_nonnil env order :
  first_failure env None order ≠ None ↔ ∃ t, t ∈ order ∧ task_result env t ≠ None.
Proof.
  unfold first_failure. rewrite head_None. split.
  - intros Hne. destruct (omap (task_result env) order) as [| e l] eqn:Ho; [done |].
    assert (e ∈ omap (task_result env) order) as Hin by (rewrite Ho; left).
    apply list_elem_of_omap in Hin as (t & Ht & Hr).
    exists t. split; [assumption | congruence].
  - intros (t & Ht & Hr) Hnil.
    destruct (task_result env t) as [e |] eqn:He; [| done].
    assert (e ∈ omap (task_result env) order) as Hin
      by (apply list_elem_of_omap; eauto).
    rewrite Hnil in Hin. by apply elem_of_nil in Hin.
Qed.

Lemma notified_result env t :
  notified env t = true →
  (task_result env t ≠ None ↔ execution_failed env t = true).
Proof.
  unfold notified, task_result, execution_failed.
  destruct (ws_SignatureSubscribe env _ _); [done |].
  destruct (ws_Recv env _ _) as [res | e]; [| done].
  intros _. destruct (ValueErr res); cbn; split; (done || congruence).
Qed.

Lemma filter_positive {A} (P : A → Prop) `{∀ x, Decision (P x)} (l : list A) :
  (0 < length (filter P l))%nat ↔ ∃ x, x ∈ l ∧ P x.
Proof.
  split.
  - intros Hlen. destruct (filter P l) as [| x k] eqn:Hf; [cbn in Hlen; lia |].
    assert (x ∈ filter P l) as Hin by (rewrite Hf; left).
    apply list_elem_of_filter in Hin as [HP Hin]. eauto.
  - intros (x & Hin & HP).
    assert (x ∈ filter P l) as Hf by (apply list_elem_of_filter; done).
    destruct (filter P l); [by apply elem_of_nil in Hf | cbn; lia].
Qed.

(** Along any run the group neither loses nor invents a goroutine, and the
    kept error is the first failure in the order of finishing. *)
Lemma group_run_conserves env s es s' :
  group_run env s es s' →
  running s.1 ++ started es ≡ₚ finished es ++ running s'.1 ∧
  firstErr s'.1 = first_failure env (firstErr s.1) (finished es).
Proof.
  induction 1 as [s | s e s1 es s2 Hstep Hrun [IHp IHe]].
  - cbn. rewrite app_nil_r. split; [done |].
    unfold first_failure. by destruct (firstErr s.1).
  - destruct Hstep as [g w t | g w i t r w' Hi Hconf]; cbn [fst] in *.
    + change (started (Started t :: es)) with (t :: started es).
      change (finished (Started t :: es)) with (finished es).
      cbn [Group_Go running firstErr] in IHp, IHe.
      split; [| exact IHe]. rewrite <- IHp, <- app_assoc. done.
    + rewrite confirmation_runs in Hconf. injection Hconf as <- <-.
      change (started (Finished t (task_result env t) :: es)) with (started es).
      change (finished (Finished t (task_result env t) :: es))
        with (t :: finished es).
      cbn [Group_done running firstErr] in IHp, IHe.
      split.
      * rewrite (delete_Permutation _ _ _ Hi). cbn. by rewrite IHp.
      * rewrite IHe. apply first_failure_done.
Qed.

(** Whatever the interleaving of sends and confirmations since the client
    was built, when [Wait] returns every goroutine that was started has
    finished, and the error returned is that of the first one that failed. *)
Lemma Wait_after_any_interleaving env w0 es s r :
  group_run env ({| running := []; firstErr := None |}, w0) es s →
  Wait_returns s r →
  started es ≡ₚ finished es ∧
  r = first_failure env None (finished es) ∧
  (r ≠ None ↔ ∃ t, t ∈ started es ∧ task_result env t ≠ None).
Proof.
  intros Hrun [Hidle ->].
  apply group_run_conserves in Hrun as [Hperm Herr].
  cbn [fst running firstErr app] in Hperm, Herr.
  rewrite Hidle, app_nil_r in Hperm.
  split_and!; [exact Hperm | exact Herr |].
  rewrite Herr, first_failure_nonnil. by setoid_rewrite Hperm.
Qed.

(** Every order of finishing is one the goroutines can take, so the join
    of [WaitForEvents] is one of the runs above: it only stops where
    [Wait] may return. *)
Lemma finishing_in_order env order :
  ∀ g w, order ≡ₚ running g →
  ∃ es,
    group_run env (g, w) es
      ({| running := []; firstErr := first_failure env (firstErr g) order |},
       extend w (concat (task_trace env <$> order))) ∧
    started es = [] ∧ finished es = order.
Proof.
  induction order as [| t order IH]; intros g w Hperm.
  - symmetry in Hperm. apply Permutation_nil_r in Hperm.
    exists []. split; [| done].
    destruct g as [tasks kept], w as [seq evs choices]. cbn in Hperm. subst tasks.
    unfold extend, first_failure. cbn. rewrite app_nil_r.
    destruct kept; constructor.
  - assert (t ∈ running g) as Hin by (rewrite <- Hperm; left).
    apply list_elem_of_lookup in Hin as [i Hi].
    destruct (IH (Group_done g i (task_result env t)) (extend w (task_trace env t)))
      as (es & Hrun & Hs & Hf).
    { cbn [Group_done running]. apply (Permutation_cons_inv (a := t)).
      rewrite Hperm. by apply delete_Permutation. }
    exists (Finished t (task_result env t) :: es). split_and!.
    + eapply run_step.
      * eapply step_finished; [exact Hi | apply confirmation_runs].
      * cbn [Group_done firstErr] in Hrun. rewrite first_failure_done in Hrun.
        unfold extend in *. cbn [rpcSeq events sched fmap list_fmap concat] in *.
        rewrite <- app_assoc in Hrun. exact Hrun.
    + exact Hs.
    + change (finished (Finished t (task_result env t) :: es)) with (t :: finished es).
      by rewrite Hf.
Qed.

Lemma Group_drain_is_a_run env g w :
  ∃ es g' w' w'',
    Group_drain env (length (running g)) g w = Returns (g', w') ∧
    group_run env (g, w) es (g', w'') ∧
    started es = [] ∧ finished es ≡ₚ running g ∧
    Wait_returns (g', w'') (firstErr g') ∧
    rpcSeq w'' = rpcSeq w' ∧ events w'' = events w'.
Proof.
  destruct (Group_drain_runs_all env (length (running g)) g w (le_n _))
    as (order & choices & Hdrain & Hperm).
  destruct (finishing_in_order env order g w Hperm) as (es & Hrun & Hs & Hf).
  do 4 eexists. split; [exact Hdrain |].
  split; [exact Hrun |]. rewrite Hf. split_and!; done.
Qed.

(** Two sends that both fail on chain, then the join: which of the two
    errors comes back is the scheduler's choice of the goroutine that
    finishes first, and the other error is lost. *)
Lemma WaitForEvents_keeps_first_failure :
  let to_system := [Sim.transfer Sim.alice "11111111111111111111111111111111"] in
  let to_nobody := [Sim.transfer Sim.alice "pub/nobody"] in
  let env :=
    Sim.node (λ _, false) (λ _, false)
      (Sim.ledger [(to_system, "InstructionError"); (to_nobody, "AccountNotFound")]) in
  let sends : M (Client * option error) :=
    do r1 <- TXAsync env Sim.client "first" to_system Sim.alice_signs Sim.alice;
    do r2 <- TXAsync env r1.1 "second" to_nobody Sim.alice_signs Sim.alice;
    WaitForEvents env r2.1 in
  (∃ c w, sends (Sim.world [0%nat])
          = Returns ((c, Some (ErrConfirmationFailed "InstructionError")), w) ∧
          txErrGroup c = {| running := [];
                            firstErr := Some (ErrConfirmationFailed "InstructionError") |}) ∧
  (∃ c w, sends (Sim.world [1%nat])
          = Returns ((c, Some (ErrConfirmationFailed "AccountNotFound")), w) ∧
          txErrGroup c = {| running := [];
                            firstErr := Some (ErrConfirmationFailed "AccountNotFound") |}).
Proof.
  cbv zeta. split; do 2 eexists; split; vm_compute; reflexivity.
Qed.

(** C2, refuted as worded.  One transaction is sent with [TXAsync]; the
    websocket then refuses the subscription for its signature.  No task
    saw an execution error, and [WaitForEvents] returns the refusal. *)
Lemma WaitForEvents_reports_transport_failure :
  let env := Sim.node (λ _, false) (λ _, true) (λ _, None) in
  ∃ c1 w1,
    TXAsync env Sim.client "Initializing access controller"
      [Sim.transfer Sim.alice Sim.alice] Sim.alice_signs Sim.alice (Sim.world [])
      = Returns ((c1, None), w1) ∧
    length (running (txErrGroup c1)) = 1%nat ∧
    length (filter (λ t, execution_failed env t) (running (txErrGroup c1))) = 0%nat ∧
    (∃ c2 w2, WaitForEvents env c1 w1
       = Returns ((c2, Some (ErrExternal "websocket: close sent")), w2)) ∧
    ¬ error_iff_execution_failure env c1 w1.
Proof.
  cbv zeta. do 2 eexists. split; [vm_compute; reflexivity |].
  split; [reflexivity |]. split; [vm_compute; reflexivity |].
  split; [do 2 eexists; vm_compute; reflexivity |].
  intros Hiff. unfold error_iff_execution_failure in Hiff.
  eapply (Nat.lt_irrefl 0), Hiff; [vm_compute; reflexivity | congruence].
Qed.

(** C2, amended.  [WaitForEvents] returns, and by then every goroutine the
    group was counting has run to its end (the group counts none any more
    and the trace holds each task's exchange with the websocket, in the
    order [order] in which they finished).  With no error kept from before,
    the result is the error of the first task of [order] that failed, so it
    is non-nil exactly when some task failed, be it on a refused
    subscription, on a failed receive or on an execution error; when every
    subscription delivered its notification, that is exactly when at least
    one task saw an execution error. *)
Theorem WaitForEvents_joins_all_tasks env c w :
  ∃ c' r w' order,
    WaitForEvents env c w = Returns ((c', r), w') ∧
    running (txErrGroup c') = [] ∧
    order ≡ₚ running (txErrGroup c) ∧
    events w' = events w ++ concat (task_trace env <$> order) ∧
    r = first_failure env (firstErr (txErrGroup c)) order ∧
    firstErr (txErrGroup c') = r ∧
    (firstErr (txErrGroup c) = None →
       (r ≠ None ↔ ∃ t, t ∈ running (txErrGroup c) ∧ task_result env t ≠ None) ∧
       ((∀ t, t ∈ running (txErrGroup c) → notified env t = true) →
        (r ≠ None ↔
         (0 < length (filter (λ t, execution_failed env t)
                        (running (txErrGroup c))))%nat))).
Proof.
  unfold WaitForEvents, Group_Wait.
  destruct (Group_drain_runs_all env (length (running (txErrGroup c)))
              (txErrGroup c) w (le_n _)) as (order & choices & Hdrain & Hperm).
  unfold bind at 1 2. rewrite Hdrain. unfold ret, bind. cbn [fst snd firstErr].
  do 3 eexists. exists order. split; [reflexivity |].
  cbn [set_txErrGroup txErrGroup running firstErr events].
  split_and!; try reflexivity; try assumption.
  intros Hkept. rewrite Hkept.
  assert (first_failure env None order ≠ None
          ↔ ∃ t, t ∈ running (txErrGroup c) ∧ task_result env t ≠ None) as Hany.
  { rewrite first_failure_nonnil. by setoid_rewrite Hperm. }
  split; [exact Hany |].
  intros Hnot. rewrite Hany, filter_positive. split.
  - intros (t & Ht & Hr). exists t. split; [assumption |].
    apply Is_true_true, notified_result; auto.
  - intros (t & Ht & Hf). exists t. split; [assumption |].
    apply notified_result; [auto | by apply Is_true_true].
Qed.

(** ** Construction *)

(** C9, refuted as worded.  With no URL configured, and with the RPC URL
    alone, [NewClient] does not return: indexing [cfg.URLs] panics.  With an
    empty RPC URL next to a websocket that answers, it returns a client: the
    RPC endpoint is taken as it is. *)
Lemma NewClient_panics_on_missing_endpoint :
  let urls l := {| External := false; ContractsDeployed := false; Name := "solana";
                   ID := "solana"; ChainID := 0; URL := ""; URLs := l;
                   Type_ := "solana"; PrivateKeys := []; Timeout := 0 |} in
  NewClient Sim.healthy (urls []) (Sim.world []) = Panics (IndexOutOfRange 0 0) ∧
  NewClient Sim.healthy (urls ["http://localhost:8899"]) (Sim.world [])
    = Panics (IndexOutOfRange 1 1) ∧
  (∃ c w', NewClient Sim.healthy (urls [""; "ws://localhost:8900"]) (Sim.world [])
             = Returns (Ok c, w') ∧ RPC c = {| rpcEndpoint := "" |}) ∧
  ¬ missing_endpoint_is_an_error Sim.healthy (urls []) (Sim.world []) ∧
  ¬ missing_endpoint_is_an_error Sim.healthy (urls [""; "ws://localhost:8900"])
      (Sim.world []).
Proof.
  cbv zeta. split_and!; [reflexivity | reflexivity | | |].
  - do 2 eexists. split; [vm_compute; reflexivity | reflexivity].
  - intros Hclaim. destruct Hclaim as (e & w' & Hret); [left; cbn; lia |].
    discriminate Hret.
  - intros Hclaim. destruct Hclaim as (e & w' & Hret); [right; cbn; left |].
    vm_compute in Hret. discriminate Hret.
Qed.

(** C9, amended.  Given the two endpoint URLs, [NewClient] dials the
    websocket endpoint (the second URL) before it returns, and does nothing
    else; a failed dial is the constructor's error, and otherwise the client
    is bound to both endpoints, with no wallet and an idle error group. *)
Theorem NewClient_dials_subscription_endpoint env cfg w url0 url1 :
  URLs cfg !! 0%nat = Some url0 →
  URLs cfg !! 1%nat = Some url1 →
  let w' := extend w [EvWSConnect url1 (ws_Connect env url1)] in
  match ws_Connect env url1 with
  | Some err => NewClient env cfg w = Returns (Err err, w')
  | None =>
      ∃ c, NewClient env cfg w = Returns (Ok c, w') ∧
           Config c = cfg ∧
           RPC c = {| rpcEndpoint := url0 |} ∧
           WS c = {| wsEndpoint := url1 |} ∧
           Wallets c = [] ∧ DefaultWallet c = None ∧
           txErrGroup c = {| running := []; firstErr := None |}
  end.
Proof.
  intros H0 H1. cbv zeta. unfold NewClient. rewrite H0, H1. unfold_go.
  destruct (ws_Connect env url1) as [err |]; [reflexivity |].
  eexists. split; [reflexivity |]. split_and!; reflexivity.
Qed.

Lemma NewClient_dials_subscription_endpoint_witness :
  (∃ c, NewClient Sim.healthy (Sim.config []) (Sim.world [])
          = Returns (Ok c, extend (Sim.world [])
                             [EvWSConnect "ws://localhost:8900" None]) ∧
        Config c = Sim.config [] ∧
        RPC c = {| rpcEndpoint := "http://localhost:8899" |} ∧
        WS c = {| wsEndpoint := "ws://localhost:8900" |} ∧
        Wallets c = [] ∧ DefaultWallet c = None ∧
        txErrGroup c = {| running := []; firstErr := None |}).
Proof.
  exact (NewClient_dials_subscription_endpoint Sim.healthy (Sim.config [])
           (Sim.world []) "http://localhost:8899" "ws://localhost:8900"
           eq_refl eq_refl).
Defined.

(** ** Wallets *)

Lemma set_Wallets_same c : set_Wallets (Wallets c ++ []) c = c.
Proof. destruct c. cbn. by rewrite app_nil_r. Qed.

(** [LoadWallet] returns the parse error, panics on a key of fewer than 32
    bytes, and returns the wallet of any other key. *)
Lemma LoadWallet_outcome env path :
  match lib_PrivateKeyFromBase58 env path with
  | Err e => LoadWallet env path = Returns (Err e)
  | Ok pk =>
      if decide (lib_PrivateKey_len env pk < 32)%nat
      then LoadWallet env path
           = Panics (SliceBoundsOutOfRange 32 (lib_PrivateKey_len env pk))
      else LoadWallet env path = Returns (Ok {| WalletPrivateKey := pk |})
  end.
Proof.
  unfold LoadWallet, PrivateKey_PublicKey.
  destruct (lib_PrivateKeyFromBase58 env path); [| done]. by destruct (decide _).
Qed.

(** The loop of [LoadWallets] over the keys appends the wallets of the
    keys it gets through, and stops at the first key that does not parse,
    with its error, or that parses to fewer than 32 bytes, with the fault of
    [LoadWallet]. *)
Lemma load_range_outline env keys :
  ∀ c, ∃ loaded,
    Forall2 (λ key wl, lib_PrivateKeyFromBase58 env key = Ok (WalletPrivateKey wl))
      (take (length loaded) keys) loaded ∧
    Forall (λ wl, (32 ≤ lib_PrivateKey_len env (WalletPrivateKey wl))%nat) loaded ∧
    (length loaded ≤ length keys)%nat ∧
    match load_range env c keys with
    | Returns (c', r) =>
        c' = set_Wallets (Wallets c ++ loaded) c ∧
        match r with
        | None => length loaded = length keys
        | Some e =>
            ∃ bad, keys !! length loaded = Some bad ∧
                   lib_PrivateKeyFromBase58 env bad = Err e
        end
    | Panics p =>
        ∃ short pk,
          keys !! length loaded = Some short ∧
          lib_PrivateKeyFromBase58 env short = Ok pk ∧
          (lib_PrivateKey_len env pk < 32)%nat ∧
          p = SliceBoundsOutOfRange 32 (lib_PrivateKey_len env pk)
    end.
Proof.
  induction keys as [| k keys IH]; intros c; cbn [load_range].
  - exists []. split_and!; try done. by rewrite set_Wallets_same.
  - pose proof (LoadWallet_outcome env k) as Hk.
    destruct (lib_PrivateKeyFromBase58 env k) as [pk | e] eqn:Hparse.
    + destruct (decide (lib_PrivateKey_len env pk < 32)%nat) as [Hshort | Hwhole];
        rewrite Hk.
      * exists []. split_and!; try done; [cbn; lia |]. by exists k, pk.
      * destruct (IH (set_Wallets (Wallets c ++ [{| WalletPrivateKey := pk |}]) c))
          as (loaded & Hall & Hlen & Hle & Hrun).
        exists ({| WalletPrivateKey := pk |} :: loaded).
        split_and!.
        -- cbn. by constructor.
        -- constructor; [cbn; lia | exact Hlen].
        -- cbn. lia.
        -- destruct (load_range env _ keys) as [[c' r] | p].
           ++ destruct Hrun as [-> Hr]. cbn [set_Wallets Wallets].
              rewrite <- app_assoc. split; [done |]. destruct r; [exact Hr |].
              cbn. by rewrite Hr.
           ++ exact Hrun.
    + rewrite Hk. exists [].
      split_and!; try done; try (cbn; lia); try (by rewrite set_Wallets_same).
      by exists k.
Qed.

Lemma omap_length_le {A B} (f : A → option B) (l : list A) :
  (length (omap f l) ≤ length l)%nat.
Proof.
  induction l as [| x l IH]; [done |].
  cbn. destruct (f x); cbn; lia.
Qed.

Lemma omap_length_all {A B} (f : A → option B) (l : list A) :
  length (omap f l) = length l → Forall (λ x, is_Some (f x)) l.
Proof.
  induction l as [| x l IH]; [constructor |].
  cbn. pose proof (omap_length_le f l). destruct (f x) eqn:Hx; cbn; intros Hlen.
  - constructor; [by rewrite Hx | apply IH; lia].
  - lia.
Qed.

Lemma task_trace_subscriptions env t :
  forallb (λ ev, is_subscription ev) (task_trace env t) = true.
Proof.
  unfold task_trace. destruct (ws_SignatureSubscribe env _ _); reflexivity.
Qed.

Lemma joins_are_subscriptions env order :
  forallb (λ ev, is_subscription ev) (concat (task_trace env <$> order)) = true.
Proof.
  induction order as [| t order IH]; [reflexivity |].
  cbn [fmap list_fmap concat]. rewrite forallb_app, task_trace_subscriptions. exact IH.
Qed.

(** The loop of [AirdropAddresses]: one request per address, in order, until
    an address does not parse or a request is refused. *)
Lemma airdrop_range_outline env addr :
  ∀ c solAmount w, ∃ c' r reqs,
    airdrop_range env c addr solAmount w
      = Returns ((c', r),
                 {| rpcSeq := rpcSeq w + length reqs;
                    events := events w ++ reqs; sched := sched w |}) ∧
    Forall2 (requests_airdrop_for env solAmount) (take (length reqs) addr) reqs ∧
    running (txErrGroup c') = running (txErrGroup c) ++ omap accepted reqs ∧
    firstErr (txErrGroup c') = firstErr (txErrGroup c) ∧
    Wallets c' = Wallets c ∧
    (r = None → length reqs = length addr ∧ length (omap accepted reqs) = length addr) ∧
    (r ≠ None → (length (omap accepted reqs) < length addr)%nat).
Proof.
  induction addr as [| a addr IH]; intros c solAmount w; cbn [airdrop_range].
  - exists c, None, []. unfold ret. cbn. rewrite !app_nil_r, Nat.add_0_r.
    destruct w. split_and!; try done; try apply Forall2_nil.
  - destruct (lib_PublicKeyFromBase58 env a) as [pubKey | e] eqn:Hparse.
    2:{ exists c, (Some e), []. unfold ret. cbn. rewrite !app_nil_r, Nat.add_0_r.
        destruct w. split_and!; try done; try apply Forall2_nil. cbn. lia. }
    unfold_go.
    destruct (rpc_RequestAirdrop env (rpcSeq w) pubKey _ _) as [txHash | e] eqn:Hrpc.
    + destruct (IH (queueTX c txHash CommitmentConfirmed) solAmount
                  {| rpcSeq := S (rpcSeq w);
                     events := events w ++
                       [EvRequestAirdrop pubKey (uint64_mul LAMPORTS_PER_SOL solAmount)
                          CommitmentConfirmed (Ok txHash)];
                     sched := sched w |})
        as (c' & r & reqs & Hrun & Hreqs & Hrunning & Hkept & Hw & Hnil & Herr).
      rewrite Hrun. cbn [rpcSeq events sched] in *.
      exists c', r,
        (EvRequestAirdrop pubKey (uint64_mul LAMPORTS_PER_SOL solAmount)
           CommitmentConfirmed (Ok txHash) :: reqs).
      split_and!.
      * rewrite <- app_assoc. cbn [length app]. do 3 f_equal. lia.
      * cbn [length take]. constructor; [| exact Hreqs]. by do 2 eexists.
      * rewrite Hrunning. cbn [queueTX set_txErrGroup txErrGroup Group_Go running].
        rewrite <- app_assoc. reflexivity.
      * rewrite Hkept. reflexivity.
      * rewrite Hw. reflexivity.
      * intros Hr. destruct (Hnil Hr) as [H1 H2]. cbn. rewrite H1, H2. done.
      * intros Hr. specialize (Herr Hr). cbn. lia.
    + exists c, (Some e),
        [EvRequestAirdrop pubKey (uint64_mul LAMPORTS_PER_SOL solAmount)
           CommitmentConfirmed (Err e)].
      split_and!; try done.
      * cbn [length]. do 3 f_equal. lia.
      * cbn. constructor; [| constructor]. by do 2 eexists.
      * cbn. by rewrite app_nil_r.
      * cbn. lia.
Qed.

Lemma airdrop_range_stopped env addr :
  ∀ c solAmount w, ∃ c' r reqs n,
    airdrop_range env c addr solAmount w
      = Returns ((c', r),
                 {| rpcSeq := n; events := events w ++ reqs; sched := sched w |}) ∧
    stopped_at env addr reqs r.
Proof.
  induction addr as [| a addr IH]; intros c solAmount w; cbn [airdrop_range].
  - exists c, None, [], (rpcSeq w). unfold ret. rewrite app_nil_r. destruct w.
    split; [done |]. by split.
  - destruct (lib_PublicKeyFromBase58 env a) as [pubKey | e] eqn:Hparse.
    2:{ exists c, (Some e), [], (rpcSeq w). unfold ret. rewrite app_nil_r. destruct w.
        split; [done |]. left. by exists a. }
    unfold_go.
    destruct (rpc_RequestAirdrop env (rpcSeq w) pubKey _ _) as [txHash | e] eqn:Hrpc.
    + destruct (IH (queueTX c txHash CommitmentConfirmed) solAmount
                  {| rpcSeq := S (rpcSeq w);
                     events := events w ++
                       [EvRequestAirdrop pubKey (uint64_mul LAMPORTS_PER_SOL solAmount)
                          CommitmentConfirmed (Ok txHash)];
                     sched := sched w |})
        as (c' & r & reqs & n & Hrun & Hstop).
      rewrite Hrun. cbn [rpcSeq events sched] in *.
      exists c', r,
        (EvRequestAirdrop pubKey (uint64_mul LAMPORTS_PER_SOL solAmount)
           CommitmentConfirmed (Ok txHash) :: reqs), n.
      split; [by rewrite <- app_assoc |].
      destruct r as [e |]; cbn [stopped_at] in *.
      * destruct Hstop as [(a' & Hi & Hbad & Hacc) | (before & key & lamports & -> & Hacc)].
        -- left. exists a'. split_and!; try done. constructor; [by eexists | done].
        -- right. eexists (_ :: before), key, lamports. split; [done |].
           constructor; [by eexists | done].
      * destruct Hstop as [Hlen Hacc]. split; [cbn; by rewrite Hlen |].
        constructor; [by eexists | done].
    + exists c, (Some e),
        [EvRequestAirdrop pubKey (uint64_mul LAMPORTS_PER_SOL solAmount)
           CommitmentConfirmed (Err e)], (S (rpcSeq w)).
      split; [done |]. right. by exists [], pubKey, (uint64_mul LAMPORTS_PER_SOL solAmount).
Qed.

(** [AirdropAddresses] as a whole: the requests come first; the join follows
    only when every address went through. *)
Lemma AirdropAddresses_outline env c addr solAmount w :
  ∃ c' r reqs joins choices,
    AirdropAddresses env c addr solAmount w
      = Returns ((c', r),
                 {| rpcSeq := rpcSeq w + length reqs;
                    events := events w ++ reqs ++ joins; sched := choices |}) ∧
    Forall2 (requests_airdrop_for env solAmount) (take (length reqs) addr) reqs ∧
    Wallets c' = Wallets c ∧
    ((r ≠ None ∧ joins = [] ∧ choices = sched w ∧
      (length (omap accepted reqs) < length addr)%nat ∧
      running (txErrGroup c') = running (txErrGroup c) ++ omap accepted reqs ∧
      firstErr (txErrGroup c') = firstErr (txErrGroup c) ∧
      stopped_at env addr reqs r) ∨
     (length reqs = length addr ∧ length (omap accepted reqs) = length addr ∧
      ∃ order,
        order ≡ₚ running (txErrGroup c) ++ omap accepted reqs ∧
        joins = concat (task_trace env <$> order) ∧
        running (txErrGroup c') = [] ∧
        r = first_failure env (firstErr (txErrGroup c)) order ∧
        firstErr (txErrGroup c') = r)).
Proof.
  unfold AirdropAddresses.
  destruct (airdrop_range_outline env addr c solAmount w)
    as (c1 & r1 & reqs & Hrun & Hreqs & Hrunning & Hkept & Hw & Hnil & Herr).
  unfold bind. rewrite Hrun. destruct r1 as [e |].
  - exists c1, (Some e), reqs, [], (sched w). unfold ret. rewrite app_nil_r.
    split_and!; try done. left. split_and!; try done; [by apply Herr |].
    destruct (airdrop_range_stopped env addr c solAmount w)
      as (c2 & r2 & reqs2 & n2 & Hrun2 & Hstop).
    rewrite Hrun in Hrun2. injection Hrun2 as _ <- _ Hev.
    apply app_inv_head in Hev as <-. exact Hstop.
  - destruct (Hnil eq_refl) as [Hall Hacc].
    unfold WaitForEvents, Group_Wait, bind.
    destruct (Group_drain_runs_all env (length (running (txErrGroup c1)))
                (txErrGroup c1)
                {| rpcSeq := rpcSeq w + length reqs;
                   events := events w ++ reqs; sched := sched w |} (le_n _))
      as (order & choices & Hdrain & Hperm).
    rewrite Hdrain. unfold ret. cbn [fst snd events rpcSeq firstErr].
    do 2 eexists. exists reqs, (concat (task_trace env <$> order)), choices.
    split_and!.
    + rewrite <- app_assoc. reflexivity.
    + exact Hreqs.
    + cbn. exact Hw.
    + right. split_and!; try done. exists order.
      rewrite <- Hrunning, <- Hkept. split_and!; try done.
Qed.

Lemma airdrop_range_returns env addr :
  ∀ c solAmount w, ∃ c' r w',
    airdrop_range env c addr solAmount w = Returns ((c', r), w') ∧
    Wallets c' = Wallets c.
Proof.
  induction addr as [| a addr IH]; intros c solAmount w; cbn [airdrop_range].
  - by do 3 eexists.
  - destruct (lib_PublicKeyFromBase58 env a) as [pubKey | e]; [| by do 3 eexists].
    unfold_go. destruct (rpc_RequestAirdrop env _ _ _ _) as [txHash | e].
    + edestruct IH as (c' & r & w' & Hrun & Hw). rewrite Hrun.
      do 3 eexists. split; [reflexivity |]. by rewrite Hw.
    + by do 3 eexists.
Qed.

Lemma WaitForEvents_returns env c w :
  ∃ g r w', WaitForEvents env c w = Returns ((set_txErrGroup g c, r), w').
Proof.
  unfold WaitForEvents, Group_Wait.
  destruct (Group_drain_runs_all env (length (running (txErrGroup c)))
              (txErrGroup c) w (le_n _)) as (order & choices & Hdrain & _).
  unfold bind at 1 2. rewrite Hdrain. unfold ret, bind. cbn [fst snd].
  by do 3 eexists.
Qed.

Lemma AirdropAddresses_returns env c addr solAmount w :
  ∃ c' r w',
    AirdropAddresses env c addr solAmount w = Returns ((c', r), w') ∧
    Wallets c' = Wallets c.
Proof.
  unfold AirdropAddresses.
  destruct (airdrop_range_returns env addr c solAmount w) as (c1 & r1 & w1 & Hrun & Hw).
  unfold bind. rewrite Hrun. destruct r1 as [e |].
  - by do 3 eexists.
  - destruct (WaitForEvents_returns env c1 w1) as (g & r & w' & Hwait).
    rewrite Hwait. do 3 eexists. split; [reflexivity |]. exact Hw.
Qed.








(** ** Chain identity *)

(** C5.  The three known hashes being distinct, a call of [ChainID] that
    the transport answers with [hash] makes one request and returns
    "devnet", "testnet" or "mainnet" for the hash of that network and
    "localnet" for every other hash; and four calls in a row against four
    answers make four requests and return the four names in turn, as the
    test expects for the three known hashes followed by an unknown one. *)
Theorem ChainID_maps_genesis_hash (devnet testnet mainnet : Hash) :
  devnet ≠ testnet →
  devnet ≠ mainnet →
  testnet ≠ mainnet →
  let ChainID := Reader.ChainID devnet testnet mainnet in
  let ChainID_calls := Reader.ChainID_calls devnet testnet mainnet in
  let network_of :=
    Reader.lookup_network (Reader.knownNetworks devnet testnet mainnet) in
  (∀ s hash,
     Reader.genesisHashes s !! Reader.hashCounter s = Some hash →
     ∃ network,
       ChainID s = (Ok network,
                    {| Reader.genesisHashes := Reader.genesisHashes s;
                       Reader.hashCounter := S (Reader.hashCounter s) |}) ∧
       (hash = devnet → network = "devnet") ∧
       (hash = testnet → network = "testnet") ∧
       (hash = mainnet → network = "mainnet") ∧
       (hash ≠ devnet → hash ≠ testnet → hash ≠ mainnet → network = "localnet")) ∧
  (∀ h1 h2 h3 h4,
     ChainID_calls 4
       {| Reader.genesisHashes := [h1; h2; h3; h4]; Reader.hashCounter := 0 |}
     = ([Ok (network_of h1); Ok (network_of h2);
         Ok (network_of h3); Ok (network_of h4)],
        {| Reader.genesisHashes := [h1; h2; h3; h4]; Reader.hashCounter := 4 |})) ∧
  (∀ other,
     other ≠ devnet → other ≠ testnet → other ≠ mainnet →
     (ChainID_calls 4
        {| Reader.genesisHashes := [devnet; testnet; mainnet; other];
           Reader.hashCounter := 0 |}).1
     = [Ok "devnet"; Ok "testnet"; Ok "mainnet"; Ok "localnet"]).
Proof.
  intros Hdt Hdm Htm ChainID ChainID_calls network_of.
  subst ChainID ChainID_calls network_of.
  assert (∀ hash,
    let network :=
      Reader.lookup_network (Reader.knownNetworks devnet testnet mainnet) hash in
    (hash = devnet → network = "devnet") ∧
    (hash = testnet → network = "testnet") ∧
    (hash = mainnet → network = "mainnet") ∧
    (hash ≠ devnet → hash ≠ testnet → hash ≠ mainnet → network = "localnet"))
    as Htable.
  { intros hash. cbn [Reader.lookup_network Reader.knownNetworks].
    repeat case_decide; split_and!; intros; subst; congruence. }
  assert (∀ h1 h2 h3 h4,
     Reader.ChainID_calls devnet testnet mainnet 4
       {| Reader.genesisHashes := [h1; h2; h3; h4]; Reader.hashCounter := 0 |}
     = ([Ok (Reader.lookup_network (Reader.knownNetworks devnet testnet mainnet) h1);
         Ok (Reader.lookup_network (Reader.knownNetworks devnet testnet mainnet) h2);
         Ok (Reader.lookup_network (Reader.knownNetworks devnet testnet mainnet) h3);
         Ok (Reader.lookup_network (Reader.knownNetworks devnet testnet mainnet) h4)],
        {| Reader.genesisHashes := [h1; h2; h3; h4]; Reader.hashCounter := 4 |}))
    as Hfour.
  { intros h1 h2 h3 h4. reflexivity. }
  split_and!.
  - intros s hash Hresp. unfold Reader.ChainID, Reader.GetGenesisHash. rewrite Hresp.
    eexists. split; [reflexivity | apply Htable].
  - exact Hfour.
  - intros other Hd Ht Hm. rewrite Hfour. cbn [fst].
    destruct (Htable devnet) as (Hdev & _).
    destruct (Htable testnet) as (_ & Htest & _).
    destruct (Htable mainnet) as (_ & _ & Hmain & _).
    destruct (Htable other) as (_ & _ & _ & Hother).
    rewrite (Hdev eq_refl), (Htest eq_refl), (Hmain eq_refl), (Hother Hd Ht Hm).
    reflexivity.
Qed.

Lemma ChainID_maps_genesis_hash_witness :
  (Reader.ChainID_calls Reader.Devnet Reader.Testnet Reader.Mainnet 4
     {| Reader.genesisHashes :=
          [Reader.Devnet; Reader.Testnet; Reader.Mainnet;
           "GH7ome3EiwEr7tu9JuTh2dpYWBJK3z69Xm1ZE3MEE6JC"];
        Reader.hashCounter := 0 |}).1
  = [Ok "devnet"; Ok "testnet"; Ok "mainnet"; Ok "localnet"].
Proof.
  refine (proj2 (proj2 (ChainID_maps_genesis_hash
                          Reader.Devnet Reader.Testnet Reader.Mainnet _ _ _))
            "GH7ome3EiwEr7tu9JuTh2dpYWBJK3z69Xm1ZE3MEE6JC" _ _ _);
    discriminate.
Defined.

(** * Further properties of the client *)

(** ** Subscriptions *)

(** What [TXSync] and the confirmation goroutine leave in the trace when
    the websocket answers. *)
Ltac released_trace :=
  split_and!;
  [ intros sig' com; split; intros Hin; split_elem Hin; simplify_eq;
    repeat first [apply list_elem_of_here | apply list_elem_of_further]
  | vm_compute; lia
  | intros sig' com Hin; split_elem Hin; simplify_eq; reflexivity ].

Lemma TXSync_trace_released env c name commitment instr signerFunc payer w :
  ∃ r new n,
    TXSync env c name commitment instr signerFunc payer w
      = Returns (r, {| rpcSeq := n; events := events w ++ new; sched := sched w |}) ∧
    released new.
Proof.
  unfold_go.
  repeat (case_go; cbn [events rpcSeq sched]); rewrite <- ?app_assoc;
    do 3 eexists; (split; [reflexivity |]); released_trace.
Qed.

Lemma task_trace_released env t : released (task_trace env t).
Proof.
  unfold task_trace. destruct (ws_SignatureSubscribe env _ _); released_trace.
Qed.

(** X1.  Whenever [TXSync] returns, and whenever the confirmation goroutine
    of [queueTX] does, it has given back the subscription it was granted,
    once and as the last thing it did, and it has unsubscribed from nothing
    else, a subscription that was refused in particular. *)
Theorem subscriptions_are_released env :
  (∀ c name commitment instr signerFunc payer w r w',
     TXSync env c name commitment instr signerFunc payer w = Returns (r, w') →
     ∃ new, events w' = events w ++ new ∧ released new) ∧
  (∀ t w r w',
     confirmation env t w = Returns (r, w') →
     ∃ new, events w' = events w ++ new ∧ released new).
Proof.
  split.
  - intros c name commitment instr signerFunc payer w r w' Hsync.
    destruct (TXSync_trace_released env c name commitment instr signerFunc payer w)
      as (r0 & new & n & Hrun & Hrel).
    rewrite Hrun in Hsync. injection Hsync as _ <-. by exists new.
  - intros t w r w'. rewrite confirmation_runs. intros [= _ <-].
    exists (task_trace env t). split; [reflexivity | apply task_trace_released].
Qed.

Lemma subscriptions_are_released_witness :
  let t := {| taskSig := "airdrop/alice"; taskCommitment := CommitmentConfirmed |} in
  ∃ w' w2,
    TXSync Sim.healthy Sim.client "Deploy store" CommitmentConfirmed
      [Sim.transfer Sim.alice Sim.alice] Sim.alice_signs Sim.alice (Sim.world [])
      = Returns (None, w') ∧
    confirmation Sim.healthy t (Sim.world []) = Returns (None, w2) ∧
    (∃ new, events w' = [] ++ new ∧ released new) ∧
    (∃ new, events w2 = [] ++ new ∧ released new).
Proof.
  cbv zeta. do 2 eexists.
  split; [vm_compute; reflexivity |]. split; [vm_compute; reflexivity |].
  split.
  - eapply (proj1 (subscriptions_are_released Sim.healthy) Sim.client "Deploy store"
              CommitmentConfirmed [Sim.transfer Sim.alice Sim.alice] Sim.alice_signs
              Sim.alice (Sim.world []) None).
    vm_compute. reflexivity.
  - eapply (proj2 (subscriptions_are_released Sim.healthy)
              {| taskSig := "airdrop/alice"; taskCommitment := CommitmentConfirmed |}
              (Sim.world []) None).
    vm_compute. reflexivity.
Defined.

(** ** Synchronous send: what a nil result stands for *)

(** X2.  When [TXSync] returns [nil] it has made exactly two RPC requests
    (the blockhash, the submit), has submitted the signed transaction with
    the preflight checks on and at the caller's commitment, and has received
    a notification for the very signature the node returned, subscribed at
    the caller's commitment. *)
Theorem TXSync_nil_means_notified env c name commitment instr signerFunc payer w w' :
  TXSync env c name commitment instr signerFunc payer w = Returns (None, w') →
  ∃ blockhash tx0 tx sigs sig res,
    rpc_GetRecentBlockhash env (rpcSeq w) CommitmentFinalized = Ok blockhash ∧
    lib_NewTransaction env instr blockhash payer = Ok tx0 ∧
    Sign env tx0 signerFunc = (tx, Ok sigs) ∧
    w' = {| rpcSeq := S (S (rpcSeq w));
            events := events w ++
              [EvGetRecentBlockhash CommitmentFinalized (Ok blockhash);
               EvEncodeTree name None;
               EvSendTransactionWithOpts tx false commitment (Ok sig);
               EvSignatureSubscribe sig commitment None;
               EvRecv sig commitment (Ok res);
               EvUnsubscribe sig commitment];
            sched := sched w |}.
Proof.
  unfold_go.
  repeat (case_go; cbn [events rpcSeq sched]); intros Hret; simplify_eq.
  do 6 eexists. split_and!; try reflexivity; try eassumption.
  rewrite <- !app_assoc. reflexivity.
Qed.

Lemma TXSync_nil_means_notified_witness :
  ∃ w' blockhash tx0 tx sigs sig res,
    rpc_GetRecentBlockhash Sim.healthy 0 CommitmentFinalized = Ok blockhash ∧
    lib_NewTransaction Sim.healthy [Sim.transfer Sim.alice Sim.alice] blockhash Sim.alice
      = Ok tx0 ∧
    Sign Sim.healthy tx0 Sim.alice_signs = (tx, Ok sigs) ∧
    w' = {| rpcSeq := 2;
            events := [] ++
              [EvGetRecentBlockhash CommitmentFinalized (Ok blockhash);
               EvEncodeTree "Deploy store" None;
               EvSendTransactionWithOpts tx false CommitmentProcessed (Ok sig);
               EvSignatureSubscribe sig CommitmentProcessed None;
               EvRecv sig CommitmentProcessed (Ok res);
               EvUnsubscribe sig CommitmentProcessed];
            sched := [] |}.
Proof.
  eexists.
  eapply (TXSync_nil_means_notified Sim.healthy Sim.client "Deploy store"
            CommitmentProcessed [Sim.transfer Sim.alice Sim.alice]
            Sim.alice_signs Sim.alice (Sim.world [])).
  vm_compute. reflexivity.
Defined.

(** ** Airdrops *)

(** X3.  [Airdrop] makes one request, at the confirmed commitment, for
    [solAmount] times 10^9 lamports computed in [uint64]: the amount is
    exact up to 18446744073 SOL and wraps around above.  An accepted
    request starts one confirmation goroutine for the returned signature;
    a refused one is returned and starts nothing. *)
Theorem Airdrop_lamports_wrap env c wpk solAmount w :
  (0 ≤ solAmount)%Z →
  let lamports := uint64_mul LAMPORTS_PER_SOL solAmount in
  let resp := rpc_RequestAirdrop env (rpcSeq w) wpk lamports CommitmentConfirmed in
  ∃ c' r,
    Airdrop env c wpk solAmount w
      = Returns ((c', r),
                 {| rpcSeq := S (rpcSeq w);
                    events := events w ++
                      [EvRequestAirdrop wpk lamports CommitmentConfirmed resp];
                    sched := sched w |}) ∧
    (0 ≤ lamports < 2 ^ 64)%Z ∧
    (lamports = (solAmount * 1000000000)%Z ↔ (solAmount ≤ 18446744073)%Z) ∧
    match resp with
    | Ok txHash => r = None ∧ c' = queueTX c txHash CommitmentConfirmed
    | Err e => r = Some e ∧ c' = c
    end.
Proof.
  intros Hpos lamports resp. subst lamports resp. unfold_go.
  unfold uint64_mul, LAMPORTS_PER_SOL.
  destruct (rpc_RequestAirdrop env _ _ _ _) as [txHash | e];
    do 2 eexists; (split; [reflexivity |]);
    (split; [apply Z.mod_pos_bound; lia |]);
    (split; [| done]).
  all: split.
  all: try (intros Heq;
            pose proof (Z.mod_pos_bound (1000000000 * solAmount) (2 ^ 64) ltac:(lia));
            lia).
  all: intros Hle; rewrite Z.mod_small by lia; lia.
Qed.

Lemma Airdrop_lamports_wrap_witness :
  ∃ c' r,
    Airdrop Sim.healthy Sim.client Sim.alice 18446744074 (Sim.world [])
      = Returns ((c', r),
                 {| rpcSeq := 1;
                    events := [] ++
                      [EvRequestAirdrop Sim.alice
                         (uint64_mul LAMPORTS_PER_SOL 18446744074) CommitmentConfirmed
                         (rpc_RequestAirdrop Sim.healthy 0 Sim.alice
                            (uint64_mul LAMPORTS_PER_SOL 18446744074)
                            CommitmentConfirmed)];
                    sched := [] |}) ∧
    (0 ≤ uint64_mul LAMPORTS_PER_SOL 18446744074 < 2 ^ 64)%Z ∧
    (uint64_mul LAMPORTS_PER_SOL 18446744074 = (18446744074 * 1000000000)%Z
     ↔ (18446744074 ≤ 18446744073)%Z) ∧
    match rpc_RequestAirdrop Sim.healthy 0 Sim.alice
            (uint64_mul LAMPORTS_PER_SOL 18446744074) CommitmentConfirmed with
    | Ok txHash => r = None ∧ c' = queueTX Sim.client txHash CommitmentConfirmed
    | Err e => r = Some e ∧ c' = Sim.client
    end.
Proof.
  apply (Airdrop_lamports_wrap Sim.healthy Sim.client Sim.alice 18446744074
           (Sim.world [])).
  lia.
Defined.

Lemma requests_are_airdrops env solAmount addr reqs :
  Forall2 (requests_airdrop_for env solAmount) addr reqs →
  forallb (λ ev, is_airdrop ev) reqs = true.
Proof.
  induction 1 as [| a ev l k (key & resp & _ & ->) _ IH]; [reflexivity | exact IH].
Qed.

(** The requests of a trace made of airdrop requests and, among them in
    any order, subscription traffic. *)
Lemma airdrops_among_subscriptions (reqs joins : list Event) :
  forallb (λ ev, is_airdrop ev) reqs = true →
  forallb (λ ev, is_subscription ev) joins = true →
  filter (λ ev, is_airdrop ev) (reqs ++ joins) = reqs ∧
  forallb (λ ev, is_airdrop ev || is_subscription ev) (reqs ++ joins) = true.
Proof.
  intros Hreqs Hjoins. rewrite filter_app, forallb_app. split.
  - assert (filter (λ ev, is_airdrop ev) joins = []) as ->.
    { induction joins as [| ev joins IH]; [done |].
      cbn in Hjoins. apply andb_prop in Hjoins as [Hev Hjoins].
      rewrite filter_cons_False; [by apply IH |].
      destruct ev; cbn in *; try discriminate; tauto. }
    rewrite app_nil_r.
    induction reqs as [| ev reqs IH]; [done |].
    cbn in Hreqs. apply andb_prop in Hreqs as [Hev Hreqs].
    rewrite filter_cons_True by (by apply Is_true_true). by rewrite IH.
  - apply andb_true_intro. split.
    + clear - Hreqs. induction reqs as [| ev reqs IH]; [done |].
      cbn in *. apply andb_prop in Hreqs as [-> Hreqs]. by apply IH.
    + clear - Hjoins. induction joins as [| ev joins IH]; [done |].
      cbn in *. apply andb_prop in Hjoins as [-> Hjoins].
      rewrite orb_true_r. by apply IH.
Qed.

(** X4.  What a call of [AirdropAddresses] that returns has asked of the
    node.  Its airdrop requests are for the addresses in the order given,
    each for [solAmount] SOL in lamports at the confirmed commitment, and
    beside them the trace holds subscription traffic only.  The requests
    stop at the first failure: a [nil] result means every address was
    requested and granted; an error is that of the first address that does
    not parse, every address before it having been requested and granted, or
    that of the request that was refused, the last one made, or else it
    comes from the join, after every address was requested and granted, and
    is the error the group had kept or that of a confirmation. *)
Theorem AirdropAddresses_requests_in_order env c addr solAmount w c' r w' :
  AirdropAddresses env c addr solAmount w = Returns ((c', r), w') →
  ∃ new reqs,
    events w' = events w ++ new ∧
    filter (λ ev, is_airdrop ev) new = reqs ∧
    forallb (λ ev, is_airdrop ev || is_subscription ev) new = true ∧
    Forall2 (requests_airdrop_for env solAmount) (take (length reqs) addr) reqs ∧
    match r with
    | None => length reqs = length addr ∧ Forall (λ ev, is_Some (accepted ev)) reqs
    | Some e =>
        stopped_at env addr reqs (Some e) ∨
        (length reqs = length addr ∧ Forall (λ ev, is_Some (accepted ev)) reqs ∧
         (firstErr (txErrGroup c) = Some e ∨
          ∃ t, t ∈ running (txErrGroup c) ++ omap accepted reqs ∧
               task_result env t = Some e))
    end.
Proof.
  intros Hret.
  destruct (AirdropAddresses_outline env c addr solAmount w)
    as (c0 & r0 & reqs & joins & choices & Hrun & Hreqs & _ & Hcases).
  rewrite Hrun in Hret. injection Hret as <- <- <-.
  assert (forallb (λ ev, is_subscription ev) joins = true) as Hjoins.
  { destruct Hcases as [(_ & -> & _) | (_ & _ & order & _ & -> & _)];
      [reflexivity | apply joins_are_subscriptions]. }
  destruct (airdrops_among_subscriptions reqs joins
              (requests_are_airdrops _ _ _ _ Hreqs) Hjoins) as [Hfilter Hall].
  exists (reqs ++ joins), reqs. cbn [events]. split_and!; try done.
  destruct Hcases as [(Hne & _ & _ & _ & _ & _ & Hstop)
                     | (Hlen & Hacc & order & Hperm & _ & _ & Hr & _)].
  - destruct r0 as [e |]; [by left | done].
  - rewrite <- Hlen in Hacc. apply omap_length_all in Hacc.
    destruct r0 as [e |]; [| done]. right. split_and!; try done.
    unfold first_failure in Hr.
    destruct (firstErr (txErrGroup c)) as [e0 |]; [left; congruence |]. right.
    destruct (omap (task_result env) order) as [| e1 l] eqn:Ho; [done |].
    cbn in Hr. injection Hr as ->.
    assert (e1 ∈ omap (task_result env) order) as Hin by (rewrite Ho; left).
    apply list_elem_of_omap in Hin as (t & Ht & Hres).
    exists t. split; [by rewrite <- Hperm | done].
Qed.

Lemma AirdropAddresses_requests_in_order_witness :
  ∃ c' r w',
    AirdropAddresses Sim.healthy Sim.client [Sim.alice; ""; "pub/bob"] 500 (Sim.world [])
      = Returns ((c', r), w') ∧
    ∃ new reqs,
      events w' = [] ++ new ∧
      filter (λ ev, is_airdrop ev) new = reqs ∧
      forallb (λ ev, is_airdrop ev || is_subscription ev) new = true ∧
      Forall2 (requests_airdrop_for Sim.healthy 500)
        (take (length reqs) [Sim.alice; ""; "pub/bob"]) reqs ∧
      match r with
      | None => length reqs = 3%nat ∧ Forall (λ ev, is_Some (accepted ev)) reqs
      | Some e =>
          stopped_at Sim.healthy [Sim.alice; ""; "pub/bob"] reqs (Some e) ∨
          (length reqs = 3%nat ∧ Forall (λ ev, is_Some (accepted ev)) reqs ∧
           (firstErr (txErrGroup Sim.client) = Some e ∨
            ∃ t, t ∈ running (txErrGroup Sim.client) ++ omap accepted reqs ∧
                 task_result Sim.healthy t = Some e))
      end.
Proof.
  do 3 eexists. split; [vm_compute; reflexivity |].
  eapply (AirdropAddresses_requests_in_order Sim.healthy Sim.client
            [Sim.alice; ""; "pub/bob"] 500 (Sim.world [])).
  vm_compute. reflexivity.
Defined.

(** ** The error group keeps its first error for good *)

(** X6.  Once the error group has kept an error, the client does not
    recover.  A [WaitForEvents] that returns gives that error back,
    whatever the goroutines still running report; an [AirdropAddresses] or
    a [LoadWallets] that returns gives an error back as well; in each case
    the group still holds the error it had kept.  So [LoadWallets] never
    gets to [SetWallet]: when it panics, it is in [LoadWallet], on a key of
    fewer than 32 bytes. *)
Theorem kept_error_is_returned_ever_after env c w e :
  firstErr (txErrGroup c) = Some e →
  (∀ c' r w', WaitForEvents env c w = Returns ((c', r), w') →
     r = Some e ∧ firstErr (txErrGroup c') = Some e) ∧
  (∀ addr solAmount c' r w',
     AirdropAddresses env c addr solAmount w = Returns ((c', r), w') →
     r ≠ None ∧ firstErr (txErrGroup c') = Some e) ∧
  (∀ cfg,
     match LoadWallets env c cfg w with
     | Returns ((c', r), w') => r ≠ None ∧ firstErr (txErrGroup c') = Some e
     | Panics p => ∃ len, (len < 32)%nat ∧ p = SliceBoundsOutOfRange 32 len
     end).
Proof.
  intros Hkept.
  assert (∀ c0 addr solAmount w0 c' r w',
            firstErr (txErrGroup c0) = Some e →
            AirdropAddresses env c0 addr solAmount w0 = Returns ((c', r), w') →
            r ≠ None ∧ firstErr (txErrGroup c') = Some e) as Hdrop.
  { intros c0 addr solAmount w0 c' r w' Hk Hret.
    destruct (AirdropAddresses_outline env c0 addr solAmount w0)
      as (c1 & r1 & reqs & joins & choices & Hrun & _ & _ & Hcases).
    rewrite Hrun in Hret. injection Hret as <- <- <-.
    destruct Hcases as [(Hne & _ & _ & _ & _ & Hsame & _)
                       | (_ & _ & order & _ & _ & _ & Hr & Hf)].
    - split; [exact Hne | by rewrite Hsame].
    - rewrite Hk in Hr. cbn in Hr. subst r1. split; [done | exact Hf]. }
  split_and!.
  - intros c' r w'. unfold WaitForEvents, Group_Wait, bind.
    destruct (Group_drain_runs_all env (length (running (txErrGroup c)))
                (txErrGroup c) w (le_n _)) as (order & choices & Hdrain & _).
    rewrite Hdrain, Hkept. unfold ret. cbn. by intros [= <- <- <-].
  - intros addr solAmount c' r w'. by apply Hdrop.
  - intros cfg. unfold LoadWallets.
    destruct (load_range_outline env (PrivateKeys cfg) c)
      as (loaded & _ & _ & _ & Hload).
    destruct (load_range env c (PrivateKeys cfg)) as [[c1 [e' |]] | p].
    + destruct Hload as [-> _]. split; [done | exact Hkept].
    + destruct Hload as [-> _]. unfold bind.
      destruct (AirdropAddresses env _ _ _ w) as [[[c2 r] w2] | p] eqn:Hrun.
      * apply Hdrop in Hrun as [Hne Hk2]; [| exact Hkept].
        destruct r as [e' |]; [| done]. split; [done | exact Hk2].
      * destruct (AirdropAddresses_returns env (set_Wallets (Wallets c ++ loaded) c)
                    ((λ wl, lib_PublicKey env (WalletPrivateKey wl))
                       <$> Wallets (set_Wallets (Wallets c ++ loaded) c)) 500 w)
          as (c2 & r & w2 & Hret & _).
        rewrite Hret in Hrun. discriminate Hrun.
    + destruct Hload as (short & pk & _ & _ & Hshort & ->). by eexists.
Qed.

Lemma kept_error_is_returned_ever_after_witness :
  let kept := ErrConfirmationFailed "InstructionError" in
  let poisoned :=
    set_txErrGroup {| running := []; firstErr := Some kept |} Sim.client in
  (∀ c' r w', WaitForEvents Sim.healthy poisoned (Sim.world []) = Returns ((c', r), w') →
     r = Some kept ∧ firstErr (txErrGroup c') = Some kept) ∧
  (∀ addr solAmount c' r w',
     AirdropAddresses Sim.healthy poisoned addr solAmount (Sim.world [])
       = Returns ((c', r), w') →
     r ≠ None ∧ firstErr (txErrGroup c') = Some kept) ∧
  (∀ cfg,
     match LoadWallets Sim.healthy poisoned cfg (Sim.world []) with
     | Returns ((c', r), w') => r ≠ None ∧ firstErr (txErrGroup c') = Some kept
     | Panics p => ∃ len, (len < 32)%nat ∧ p = SliceBoundsOutOfRange 32 len
     end).
Proof.
  exact (kept_error_is_returned_ever_after Sim.healthy
           (set_txErrGroup
              {| running := [];
                 firstErr := Some (ErrConfirmationFailed "InstructionError") |}
              Sim.client)
           (Sim.world []) (ErrConfirmationFailed "InstructionError") eq_refl).
Defined.

(** ** Loading wallets *)

(** X7.  When one of the configured private keys does not parse,
    [LoadWallets] does not get past the first such key.  Either it returns
    the error of that key: then no request has reached the node, the error
    group and the default wallet are as they were, and the wallets of the
    keys before the bad one stay appended to the client.  Or a key before
    the bad one parses to fewer than 32 bytes, and [LoadWallets] panics in
    [LoadWallet] at the first such key, with the slice-bounds fault of
    taking its public key. *)
Theorem LoadWallets_stops_at_bad_key env c cfg w k e :
  k ∈ PrivateKeys cfg →
  lib_PrivateKeyFromBase58 env k = Err e →
  ∃ loaded,
    Forall2 (λ key wl, lib_PrivateKeyFromBase58 env key = Ok (WalletPrivateKey wl))
      (take (length loaded) (PrivateKeys cfg)) loaded ∧
    Forall (λ wl, (32 ≤ lib_PrivateKey_len env (WalletPrivateKey wl))%nat) loaded ∧
    match LoadWallets env c cfg w with
    | Returns ((c', r), w') =>
        ∃ bad e',
          PrivateKeys cfg !! length loaded = Some bad ∧
          lib_PrivateKeyFromBase58 env bad = Err e' ∧
          r = Some e' ∧ w' = w ∧
          Wallets c' = Wallets c ++ loaded ∧
          txErrGroup c' = txErrGroup c ∧
          DefaultWallet c' = DefaultWallet c
    | Panics p =>
        ∃ short pk,
          PrivateKeys cfg !! length loaded = Some short ∧
          lib_PrivateKeyFromBase58 env short = Ok pk ∧
          (lib_PrivateKey_len env pk < 32)%nat ∧
          p = SliceBoundsOutOfRange 32 (lib_PrivateKey_len env pk)
    end.
Proof.
  intros Hin Hbad. unfold LoadWallets.
  destruct (load_range_outline env (PrivateKeys cfg) c)
    as (loaded & Hall & Hwhole & _ & Hload).
  exists loaded. split; [exact Hall |]. split; [exact Hwhole |].
  destruct (load_range env c (PrivateKeys cfg)) as [[c1 [e' |]] | p].
  - destruct Hload as (-> & bad & Hi & Hb). exists bad, e'. split_and!; done.
  - exfalso. destruct Hload as [_ Hlen]. rewrite Hlen, take_ge in Hall by lia.
    apply list_elem_of_lookup in Hin as [i Hi].
    destruct (Forall2_lookup_l _ _ _ _ _ Hall Hi) as (wl & _ & Hok). congruence.
  - exact Hload.
Qed.

Lemma LoadWallets_stops_at_bad_key_witness :
  ∃ loaded,
    Forall2 (λ key wl,
               lib_PrivateKeyFromBase58 Sim.truncating key = Ok (WalletPrivateKey wl))
      (take (length loaded) ["abc"; ""]) loaded ∧
    Forall (λ wl, (32 ≤ lib_PrivateKey_len Sim.truncating (WalletPrivateKey wl))%nat)
      loaded ∧
    match LoadWallets Sim.truncating Sim.client
            (Sim.config ["abc"; ""]) (Sim.world []) with
    | Returns ((c', r), w') =>
        ∃ bad e',
          ["abc"; ""] !! length loaded = Some bad ∧
          lib_PrivateKeyFromBase58 Sim.truncating bad = Err e' ∧
          r = Some e' ∧ w' = Sim.world [] ∧
          Wallets c' = [] ++ loaded ∧
          txErrGroup c' = txErrGroup Sim.client ∧
          DefaultWallet c' = None
    | Panics p =>
        ∃ short pk,
          ["abc"; ""] !! length loaded = Some short ∧
          lib_PrivateKeyFromBase58 Sim.truncating short = Ok pk ∧
          (lib_PrivateKey_len Sim.truncating pk < 32)%nat ∧
          p = SliceBoundsOutOfRange 32 (lib_PrivateKey_len Sim.truncating pk)
    end.
Proof.
  apply (LoadWallets_stops_at_bad_key Sim.truncating Sim.client
           (Sim.config ["abc"; ""]) (Sim.world [])
           "" (ErrExternal "zero length string")).
  - apply list_elem_of_further, list_elem_of_here.
  - reflexivity.
Defined.

(** X24.  [LoadWallet] takes the public key of the key it has parsed, for
    the line it logs.  So it returns the error of a text that does not
    parse, panics with the slice-bounds fault on a key of fewer than 32
    bytes, and returns the wallet of any other key.  And [LoadWallets]
    panics with that fault at the first configured key of fewer than 32
    bytes, when the keys before it parse and have their 32 bytes: no
    request has reached the node by then. *)
Theorem LoadWallet_takes_public_key env :
  (∀ path,
     match lib_PrivateKeyFromBase58 env path with
     | Err e => LoadWallet env path = Returns (Err e)
     | Ok pk =>
         if decide (lib_PrivateKey_len env pk < 32)%nat
         then LoadWallet env path
              = Panics (SliceBoundsOutOfRange 32 (lib_PrivateKey_len env pk))
         else LoadWallet env path = Returns (Ok {| WalletPrivateKey := pk |})
     end) ∧
  (∀ c cfg w i short pk,
     PrivateKeys cfg !! i = Some short →
     lib_PrivateKeyFromBase58 env short = Ok pk →
     (lib_PrivateKey_len env pk < 32)%nat →
     whole_keys env (take i (PrivateKeys cfg)) →
     LoadWallets env c cfg w
       = Panics (SliceBoundsOutOfRange 32 (lib_PrivateKey_len env pk))).
Proof.
  split; [apply LoadWallet_outcome |].
  intros c cfg w i short pk Hi Hparse Hshort Hbefore. unfold LoadWallets.
  destruct (load_range_outline env (PrivateKeys cfg) c)
    as (loaded & Hall & Hwhole & Hle & Hload).
  assert (¬ (i < length loaded)%nat) as Hnot_loaded.
  { intros Hlt.
    assert (take (length loaded) (PrivateKeys cfg) !! i = Some short) as Hi'
      by (by rewrite lookup_take_lt).
    destruct (Forall2_lookup_l _ _ _ _ _ Hall Hi') as (wl & Hwl & Hok).
    apply (Forall_lookup_1 _ _ _ _ Hwhole) in Hwl.
    assert (pk = WalletPrivateKey wl) as -> by congruence. lia. }
  assert (∀ key, PrivateKeys cfg !! length loaded = Some key →
                 (length loaded < i)%nat →
                 ∃ sk, lib_PrivateKeyFromBase58 env key = Ok sk ∧
                       (32 ≤ lib_PrivateKey_len env sk)%nat) as Hearlier.
  { intros key Hkey Hlt.
    apply (Forall_lookup_1 _ _ (length loaded) key Hbefore).
    by rewrite lookup_take_lt. }
  destruct (load_range env c (PrivateKeys cfg)) as [[c1 [e |]] | p].
  - exfalso. destruct Hload as (_ & bad & Hbad & Herr).
    destruct (decide (length loaded = i)) as [Heq | Hne].
    + rewrite Heq in Hbad. congruence.
    + destruct (Hearlier bad Hbad) as (sk & Hok & _); [lia | congruence].
  - exfalso. destruct Hload as [_ Hlen].
    apply lookup_lt_Some in Hi. lia.
  - destruct Hload as (short' & pk' & Hj & Hparse' & Hshort' & ->).
    destruct (decide (length loaded = i)) as [Heq | Hne].
    + rewrite Heq in Hj. unfold panic. congruence.
    + exfalso. destruct (Hearlier short' Hj) as (sk & Hok & Hlong); [lia |].
      assert (sk = pk') as -> by congruence. lia.
Qed.

Lemma LoadWallet_takes_public_key_witness :
  LoadWallets Sim.truncating Sim.client (Sim.config ["abc"; "bob"]) (Sim.world [])
    = Panics (SliceBoundsOutOfRange 32 3).
Proof.
  refine (proj2 (LoadWallet_takes_public_key Sim.truncating) Sim.client
            (Sim.config ["abc"; "bob"]) (Sim.world []) 0%nat "abc" "abc"
            eq_refl eq_refl _ _).
  - cbn. lia.
  - constructor.
Defined.

(** X8.  When [LoadWallets] returns [nil], the client holds its former
    wallets followed by one wallet per configured key, in the order of the
    keys, and the default wallet is the second wallet of that list; for a
    client that held no wallet this is the wallet of the second configured
    key, not of the first. *)
Theorem LoadWallets_default_is_second_wallet env c cfg w c' w' :
  LoadWallets env c cfg w = Returns ((c', None), w') →
  ∃ loaded,
    Forall2 (λ key wl, lib_PrivateKeyFromBase58 env key = Ok (WalletPrivateKey wl))
      (PrivateKeys cfg) loaded ∧
    Wallets c' = Wallets c ++ loaded ∧
    DefaultWallet c' = (Wallets c ++ loaded) !! 1%nat ∧
    is_Some (DefaultWallet c') ∧
    (Wallets c = [] →
     ∃ key pk, PrivateKeys cfg !! 1%nat = Some key ∧
               lib_PrivateKeyFromBase58 env key = Ok pk ∧
               DefaultWallet c' = Some {| WalletPrivateKey := pk |}).
Proof.
  unfold LoadWallets.
  destruct (load_range_outline env (PrivateKeys cfg) c)
    as (loaded & Hall & _ & _ & Hload).
  destruct (load_range env c (PrivateKeys cfg)) as [[c1 [e |]] | p];
    [discriminate | | discriminate].
  destruct Hload as [-> Hlen]. rewrite Hlen, take_ge in Hall by lia.
  destruct (AirdropAddresses_outline env (set_Wallets (Wallets c ++ loaded) c)
              ((λ wl, lib_PublicKey env (WalletPrivateKey wl))
                 <$> Wallets (set_Wallets (Wallets c ++ loaded) c)) 500 w)
    as (c2 & r & reqs & joins & choices & Hdrop & _ & Hw2 & _).
  unfold bind. rewrite Hdrop. destruct r as [e |]; [discriminate |].
  unfold SetWallet. destruct (decide (1 < 0)%Z); [lia |].
  change (Z.to_nat 1) with 1%nat.
  destruct (Wallets c2 !! 1%nat) as [wallet |] eqn:Hone; [| discriminate].
  unfold ret. intros [= <- <-]. cbn [set_DefaultWallet Wallets DefaultWallet].
  cbn [set_Wallets Wallets] in Hw2. rewrite Hw2 in *. exists loaded. split_and!; try done.
  intros Hfresh. rewrite Hfresh in Hone. cbn in Hone.
  destruct (Forall2_lookup_r _ _ _ _ _ Hall Hone) as (key & Hkey & Hok).
  exists key, (WalletPrivateKey wallet). destruct wallet. done.
Qed.

Lemma LoadWallets_default_is_second_wallet_witness :
  ∃ c' w',
    LoadWallets Sim.healthy Sim.client (Sim.config ["alice"; "bob"]) (Sim.world [])
      = Returns ((c', None), w') ∧
    ∃ loaded,
      Forall2 (λ key wl,
                 lib_PrivateKeyFromBase58 Sim.healthy key = Ok (WalletPrivateKey wl))
        ["alice"; "bob"] loaded ∧
      Wallets c' = [] ++ loaded ∧
      DefaultWallet c' = ([] ++ loaded) !! 1%nat ∧
      is_Some (DefaultWallet c') ∧
      (@nil Wallet = [] →
       ∃ key pk, ["alice"; "bob"] !! 1%nat = Some key ∧
                 lib_PrivateKeyFromBase58 Sim.healthy key = Ok pk ∧
                 DefaultWallet c' = Some {| WalletPrivateKey := pk |}).
Proof.
  do 2 eexists. split; [vm_compute; reflexivity |].
  eapply (LoadWallets_default_is_second_wallet Sim.healthy Sim.client
            (Sim.config ["alice"; "bob"]) (Sim.world [])).
  vm_compute. reflexivity.
Defined.

Lemma accepted_requests env solAmount (addr : list string) (reqs : list Event) :
  Forall2 (requests_airdrop_for env solAmount) addr reqs →
  Forall (λ ev, is_Some (accepted ev)) reqs →
  Forall2 (λ a ev, ∃ key sig,
             lib_PublicKeyFromBase58 env a = Ok key ∧
             ev = EvRequestAirdrop key (uint64_mul LAMPORTS_PER_SOL solAmount)
                    CommitmentConfirmed (Ok sig))
    addr reqs.
Proof.
  induction 1 as [| a ev addr reqs (key & resp & Hkey & ->) _ IH]; intros Hacc;
    [constructor |].
  apply Forall_cons in Hacc as [[t Hev] Hacc].
  constructor; [| by apply IH].
  destruct resp as [sig | e]; [| discriminate Hev].
  exists key, sig. split; [exact Hkey | reflexivity].
Qed.

(** X9.  When [LoadWallets] returns [nil], every wallet the client holds,
    those it had before the call as well as the new ones, was the object of
    one airdrop request of 500 SOL (500000000000 lamports) at the confirmed
    commitment, the requests following the order of the wallets; beside
    these requests the call made subscription traffic only; every request
    was accepted, and every confirmation goroutine, those left running by
    earlier sends included, ended without error. *)
Theorem LoadWallets_funds_every_wallet env c cfg w c' w' :
  LoadWallets env c cfg w = Returns ((c', None), w') →
  ∃ new reqs,
    events w' = events w ++ new ∧
    filter (λ ev, is_airdrop ev) new = reqs ∧
    forallb (λ ev, is_airdrop ev || is_subscription ev) new = true ∧
    Forall2 (λ wl ev, ∃ key sig,
               lib_PublicKeyFromBase58 env (lib_PublicKey env (WalletPrivateKey wl))
                 = Ok key ∧
               ev = EvRequestAirdrop key 500000000000 CommitmentConfirmed (Ok sig))
      (Wallets c') reqs ∧
    running (txErrGroup c') = [] ∧
    firstErr (txErrGroup c') = None ∧
    (∀ t, t ∈ running (txErrGroup c) ++ omap accepted reqs → task_result env t = None).
Proof.
  unfold LoadWallets.
  destruct (load_range_outline env (PrivateKeys cfg) c)
    as (loaded & _ & _ & _ & Hload).
  destruct (load_range env c (PrivateKeys cfg)) as [[c1 [e |]] | p];
    [discriminate | | discriminate].
  destruct Hload as [-> _].
  destruct (AirdropAddresses_outline env (set_Wallets (Wallets c ++ loaded) c)
              ((λ wl, lib_PublicKey env (WalletPrivateKey wl))
                 <$> Wallets (set_Wallets (Wallets c ++ loaded) c)) 500 w)
    as (c2 & r & reqs & joins & choices & Hdrop & Hreqs & Hw2 & Hcases).
  unfold bind. rewrite Hdrop. destruct r as [e |]; [discriminate |].
  unfold SetWallet. destruct (decide (1 < 0)%Z); [lia |].
  destruct (Wallets c2 !! Z.to_nat 1) as [wallet |]; [| discriminate].
  unfold ret. intros [= <- <-].
  cbn [set_DefaultWallet Wallets txErrGroup events].
  destruct Hcases as [(Hne & _) | (Hall & Hacc & order & Hperm & -> & Hidle & Hr & Hf)];
    [done |].
  rewrite take_ge in Hreqs by lia.
  rewrite <- Hall in Hacc. apply omap_length_all in Hacc.
  destruct (airdrops_among_subscriptions reqs (concat (task_trace env <$> order))
              (requests_are_airdrops _ _ _ _ Hreqs) (joins_are_subscriptions env order))
    as [Hfilter Hboth].
  exists (reqs ++ concat (task_trace env <$> order)), reqs.
  split_and!; try done.
  - rewrite Hw2.
    exact (proj1 (Forall2_fmap_l _ _ _ _) (accepted_requests env 500 _ _ Hreqs Hacc)).
  - intros t Ht. cbn [set_Wallets txErrGroup] in Hperm. rewrite <- Hperm in Ht.
    destruct (task_result env t) eqn:Hres; [| reflexivity].
    exfalso. unfold first_failure in Hr. cbn [set_Wallets txErrGroup] in Hr.
    destruct (firstErr (txErrGroup c)); [discriminate |].
    symmetry in Hr. apply head_None in Hr.
    assert (e ∈ omap (task_result env) order) as Hin
      by (apply list_elem_of_omap; eauto).
    rewrite Hr in Hin. by apply elem_of_nil in Hin.
Qed.

Lemma LoadWallets_funds_every_wallet_witness :
  ∃ c' w',
    LoadWallets Sim.healthy Sim.client (Sim.config ["alice"; "bob"]) (Sim.world [1%nat])
      = Returns ((c', None), w') ∧
    ∃ new reqs,
      events w' = [] ++ new ∧
      filter (λ ev, is_airdrop ev) new = reqs ∧
      forallb (λ ev, is_airdrop ev || is_subscription ev) new = true ∧
      Forall2 (λ wl ev, ∃ key sig,
                 lib_PublicKeyFromBase58 Sim.healthy
                   (lib_PublicKey Sim.healthy (WalletPrivateKey wl)) = Ok key ∧
                 ev = EvRequestAirdrop key 500000000000 CommitmentConfirmed (Ok sig))
        (Wallets c') reqs ∧
      running (txErrGroup c') = [] ∧
      firstErr (txErrGroup c') = None ∧
      (∀ t, t ∈ running (txErrGroup Sim.client) ++ omap accepted reqs →
            task_result Sim.healthy t = None).
Proof.
  do 2 eexists. split; [vm_compute; reflexivity |].
  eapply (LoadWallets_funds_every_wallet Sim.healthy Sim.client
            (Sim.config ["alice"; "bob"]) (Sim.world [1%nat])).
  vm_compute. reflexivity.
Defined.

(** ** Funding an address *)

(** X10.  [Fund] airdrops whole SOL only: for an address that parses and an
    amount of at least 0 and below 2^64 SOL it does exactly what [Airdrop]
    does for the integer part [n] of the amount, so that an amount below
    one SOL makes a request for 0 lamports; for an address that does not
    parse it returns the error and asks nothing of the node. *)
Theorem Fund_airdrops_whole_SOL env c toAddress amount w :
  (0 ≤ numerator amount < 2 ^ 64 * Z.pos (denominator amount))%Z →
  let n := (numerator amount / Z.pos (denominator amount))%Z in
  match lib_PublicKeyFromBase58 env toAddress with
  | Ok pubKey =>
      Fund env c toAddress amount w = Airdrop env c pubKey n w ∧
      (Z.pos (denominator amount) * n ≤ numerator amount
       < Z.pos (denominator amount) * (n + 1))%Z ∧
      ((numerator amount < Z.pos (denominator amount))%Z →
       ∃ c' r resp,
         Fund env c toAddress amount w
           = Returns ((c', r),
                      {| rpcSeq := S (rpcSeq w);
                         events := events w ++
                           [EvRequestAirdrop pubKey 0 CommitmentConfirmed resp];
                         sched := sched w |}))
  | Err err => Fund env c toAddress amount w = Returns ((c, Some err), w)
  end.
Proof.
  intros [Hlo Hhi] n. unfold Fund.
  destruct (lib_PublicKeyFromBase58 env toAddress) as [pubKey | err]; [| reflexivity].
  assert (BigFloat_Uint64 amount = n) as Hn.
  { unfold BigFloat_Uint64, MaxUint64. rewrite Z.quot_div_nonneg by lia. fold n.
    assert (0 ≤ n < 2 ^ 64)%Z as [H0 H1].
    { subst n. split; [apply Z.div_pos; lia |].
      apply Z.div_lt_upper_bound; lia. }
    destruct (n <? 0)%Z eqn:Hneg; [apply Z.ltb_lt in Hneg; lia |].
    destruct (2 ^ 64 - 1 <? n)%Z eqn:Hbig; [apply Z.ltb_lt in Hbig; lia |].
    reflexivity. }
  rewrite Hn. split; [| split].
  - reflexivity.
  - subst n. pose proof (Z.mul_div_le (numerator amount) (Z.pos (denominator amount))).
    pose proof (Z.mul_succ_div_gt (numerator amount) (Z.pos (denominator amount))).
    lia.
  - intros Hsmall. assert (n = 0%Z) as -> by (subst n; apply Z.div_small; lia).
    unfold_go. destruct (rpc_RequestAirdrop env _ _ _ _); do 3 eexists; reflexivity.
Qed.

Lemma Fund_airdrops_whole_SOL_witness :
  let half := {| numerator := 1; denominator := 2 |} in
  Fund Sim.healthy Sim.client "alice" half (Sim.world [])
    = Airdrop Sim.healthy Sim.client "alice" (1 / 2) (Sim.world []) ∧
  (2 * (1 / 2) ≤ 1 < 2 * (1 / 2 + 1))%Z ∧
  ((1 < 2)%Z →
   ∃ c' r resp,
     Fund Sim.healthy Sim.client "alice" half (Sim.world [])
       = Returns ((c', r),
                  {| rpcSeq := 1;
                     events := [] ++
                       [EvRequestAirdrop "alice" 0 CommitmentConfirmed resp];
                     sched := [] |})).
Proof.
  cbv zeta.
  refine (Fund_airdrops_whole_SOL Sim.healthy Sim.client "alice"
            {| numerator := 1; denominator := 2 |} (Sim.world []) _).
  cbn. lia.
Defined.

(** ** Building a client from the environment *)

Lemma load_range_bindings env keys :
  ∀ c c' r, load_range env c keys = Returns (c', r) → same_bindings c c'.
Proof.
  induction keys as [| k keys IH]; intros c c' r; cbn [load_range].
  - intros [= <- <-]. by repeat split.
  - destruct (LoadWallet env k) as [[wl | e] | p];
      [| intros [= <- <-]; by repeat split | discriminate].
    intros Hrun. apply IH in Hrun. exact Hrun.
Qed.

Lemma airdrop_range_bindings env addr :
  ∀ c solAmount w c' r w',
    airdrop_range env c addr solAmount w = Returns ((c', r), w') → same_bindings c c'.
Proof.
  induction addr as [| a addr IH]; intros c solAmount w c' r w'; cbn [airdrop_range].
  - intros [= <- <- <-]. by repeat split.
  - destruct (lib_PublicKeyFromBase58 env a); [| intros [= <- <- <-]; by repeat split].
    unfold_go. destruct (rpc_RequestAirdrop env _ _ _ _).
    + intros Hrun. apply IH in Hrun. exact Hrun.
    + intros [= <- <- <-]. by repeat split.
Qed.

Lemma LoadWallets_bindings env c cfg w c' r w' :
  LoadWallets env c cfg w = Returns ((c', r), w') → same_bindings c c'.
Proof.
  unfold LoadWallets.
  destruct (load_range env c (PrivateKeys cfg)) as [[c1 r1] | p] eqn:Hload;
    [| discriminate].
  apply load_range_bindings in Hload.
  destruct r1 as [e |]; [intros [= <- <- <-]; exact Hload |].
  unfold AirdropAddresses, bind.
  destruct (airdrop_range env c1 _ 500 w) as [[[c2 r2] w2] | p] eqn:Hdrop;
    [| discriminate].
  apply airdrop_range_bindings in Hdrop.
  assert (same_bindings c c2) as H2.
  { destruct Hload as (? & ? & ? & ? & ?), Hdrop as (? & ? & ? & ? & ?).
    repeat split; congruence. }
  destruct r2 as [e |]; [intros [= <- <- <-]; exact H2 |].
  destruct (WaitForEvents_returns env c2 w2) as (g & r3 & w3 & Hwait).
  rewrite Hwait. destruct r3 as [e |]; [intros [= <- <- <-]; exact H2 |].
  unfold SetWallet. destruct (decide (1 < 0)%Z); [discriminate |].
  destruct (Wallets (set_txErrGroup g c2) !! Z.to_nat 1); [| discriminate].
  unfold ret. intros [= <- <- <-]. exact H2.
Qed.

(** X11.  A client comes out of [ClientInitFunc] only when the
    configuration map went through YAML and back, the environment gave at
    least two URLs, the websocket at the second one answered and
    [LoadWallets] returned [nil].  That client carries the decoded
    configuration with its [ID] set to the network name and its [URLs]
    replaced by the environment's, whatever the map said; it is bound to the
    first URL for RPC and to the second for the websocket; and its default
    wallet is the one of the second configured private key. *)
Theorem ClientInitFunc_returns_bound_client {ConfigMap : Type}
    (yaml : YamlCodec ConfigMap) env networkName (networkConfig : ConfigMap)
    urls w c w' :
  ClientInitFunc yaml env networkName networkConfig urls w = Done (Ok c, w') →
  ∃ d decoded url0 url1 key1 pk1,
    yaml_Marshal yaml networkConfig = Ok d ∧
    yaml_Unmarshal yaml d = Ok decoded ∧
    urls !! 0%nat = Some url0 ∧ urls !! 1%nat = Some url1 ∧
    ws_Connect env url1 = None ∧
    Config c = set_ID_URLs networkName urls decoded ∧
    RPC c = {| rpcEndpoint := url0 |} ∧
    WS c = {| wsEndpoint := url1 |} ∧
    PrivateKeys decoded !! 1%nat = Some key1 ∧
    lib_PrivateKeyFromBase58 env key1 = Ok pk1 ∧
    DefaultWallet c = Some {| WalletPrivateKey := pk1 |} ∧
    length (Wallets c) = length (PrivateKeys decoded).
Proof.
  unfold ClientInitFunc.
  destruct (yaml_Marshal yaml networkConfig) as [d | e] eqn:Hm; [| discriminate].
  destruct (yaml_Unmarshal yaml d) as [decoded | e] eqn:Hu; [| discriminate].
  set (cfg := set_ID_URLs networkName urls decoded).
  unfold NewClient. cbn [URLs cfg set_ID_URLs].
  destruct (urls !! 0%nat) as [url0 |] eqn:H0; [| discriminate].
  destruct (urls !! 1%nat) as [url1 |] eqn:H1; [| discriminate].
  unfold_go. destruct (ws_Connect env url1) as [e |] eqn:Hws; [discriminate |].
  match goal with
  | |- context [LoadWallets env ?fresh ?cfg0 ?start] =>
      set (c0 := fresh); set (w0 := start);
      destruct (LoadWallets env c0 cfg0 w0) as [[[c1 r1] w1] | p] eqn:Hload
  end; [| discriminate].
  destruct r1 as [e |]; [discriminate |]. intros [= <- <-].
  pose proof (LoadWallets_bindings _ _ _ _ _ _ _ Hload) as (Hc & Hr & Hs & _).
  unfold LoadWallets in Hload.
  destruct (load_range_outline env (PrivateKeys cfg) c0)
    as (loaded & Hall & _ & _ & Hrun).
  destruct (load_range env c0 (PrivateKeys cfg)) as [[c2 [e |]] | p];
    [discriminate | | discriminate].
  destruct Hrun as [-> Hnil]. rewrite Hnil, take_ge in Hall by lia.
  destruct (AirdropAddresses_outline env (set_Wallets (Wallets c0 ++ loaded) c0)
              ((λ wl, lib_PublicKey env (WalletPrivateKey wl))
                 <$> Wallets (set_Wallets (Wallets c0 ++ loaded) c0)) 500 w0)
    as (c3 & r & reqs & joins & choices & Hdrop & _ & Hw3 & _).
  unfold bind in Hload. rewrite Hdrop in Hload.
  destruct r as [e |]; [discriminate |].
  unfold SetWallet in Hload. destruct (decide (1 < 0)%Z); [lia |].
  change (Z.to_nat 1) with 1%nat in Hload.
  destruct (Wallets c3 !! 1%nat) as [wallet |] eqn:Hone; [| discriminate].
  unfold ret in Hload. injection Hload as <- _.
  cbn [set_DefaultWallet set_Wallets Wallets DefaultWallet Config RPC WS] in *.
  rewrite Hw3 in *. cbn [c0 Wallets app] in *.
  destruct (Forall2_lookup_r _ _ _ _ _ Hall Hone) as (key1 & Hkey & Hok).
  exists d, decoded, url0, url1, key1, (WalletPrivateKey wallet).
  destruct wallet. cbn [WalletPrivateKey] in *.
  split_and!; try done.
Qed.

Lemma ClientInitFunc_returns_bound_client_witness :
  ∃ c w',
    ClientInitFunc keys_yaml Sim.healthy "localnet" ["alice"; "bob"]
      ["http://127.0.0.1:8899"; "ws://127.0.0.1:8900"] (Sim.world [])
      = Done (Ok c, w') ∧
    ∃ d decoded url0 url1 key1 pk1,
      yaml_Marshal keys_yaml ["alice"; "bob"] = Ok d ∧
      yaml_Unmarshal keys_yaml d = Ok decoded ∧
      ["http://127.0.0.1:8899"; "ws://127.0.0.1:8900"] !! 0%nat = Some url0 ∧
      ["http://127.0.0.1:8899"; "ws://127.0.0.1:8900"] !! 1%nat = Some url1 ∧
      ws_Connect Sim.healthy url1 = None ∧
      Config c = set_ID_URLs "localnet"
                   ["http://127.0.0.1:8899"; "ws://127.0.0.1:8900"] decoded ∧
      RPC c = {| rpcEndpoint := url0 |} ∧
      WS c = {| wsEndpoint := url1 |} ∧
      PrivateKeys decoded !! 1%nat = Some key1 ∧
      lib_PrivateKeyFromBase58 Sim.healthy key1 = Ok pk1 ∧
      DefaultWallet c = Some {| WalletPrivateKey := pk1 |} ∧
      length (Wallets c) = length (PrivateKeys decoded).
Proof.
  do 2 eexists. split; [vm_compute; reflexivity |].
  eapply (ClientInitFunc_returns_bound_client keys_yaml Sim.healthy "localnet"
            ["alice"; "bob"] ["http://127.0.0.1:8899"; "ws://127.0.0.1:8900"]
            (Sim.world [])).
  vm_compute. reflexivity.
Defined.

Lemma ClientInitFunc_endpoints {ConfigMap : Type} (yaml : YamlCodec ConfigMap)
    env networkName (networkConfig : ConfigMap) urls w c w' :
  ClientInitFunc yaml env networkName networkConfig urls w = Done (Ok c, w') →
  ∃ url0 url1,
    urls !! 0%nat = Some url0 ∧ urls !! 1%nat = Some url1 ∧
    ws_Connect env url1 = None ∧
    RPC c = {| rpcEndpoint := url0 |} ∧ WS c = {| wsEndpoint := url1 |}.
Proof.
  unfold ClientInitFunc.
  destruct (yaml_Marshal yaml networkConfig) as [d | e]; [| discriminate].
  destruct (yaml_Unmarshal yaml d) as [decoded | e]; [| discriminate].
  unfold NewClient. cbn [URLs set_ID_URLs].
  destruct (urls !! 0%nat) as [url0 |]; [| discriminate].
  destruct (urls !! 1%nat) as [url1 |]; [| discriminate].
  unfold_go. destruct (ws_Connect env url1) as [e |] eqn:Hws; [discriminate |].
  match goal with
  | |- context [LoadWallets env ?fresh ?cfg0 ?start] =>
      destruct (LoadWallets env fresh cfg0 start) as [[[c1 r1] w1] | p] eqn:Hload
  end; [| discriminate].
  destruct r1 as [e |]; [discriminate |]. intros [= <- <-].
  apply LoadWallets_bindings in Hload as (_ & Hr & Hs & _).
  by exists url0, url1.
Qed.

(** The simulated websocket refuses what the dialer refuses. *)
Lemma healthy_accepts_only_ws : accepts_only_ws Sim.healthy.
Proof. intros url Hurl. cbn. rewrite Hurl. by eexists. Qed.

(** X23.  The two functions handed to the test framework agree on the
    endpoints only when the chart has exactly one URL for [http-rpc].
    [ClientURLSFunc] lists all the HTTP URLs and then all the websocket
    URLs, and [ClientInitFunc] takes the first entry of that list for RPC
    and the second for the websocket, by position.  So, the dialer taking
    no other scheme than [ws] and [wss]: a client that comes out of it has,
    with one HTTP URL, that URL for RPC and the first websocket URL for the
    websocket; with none, it has the first websocket URL for RPC; and with
    two or more, its websocket endpoint is the second of them, which then
    had a websocket scheme.  With two or more URLs for [http-rpc], the
    second not of a websocket scheme, and a configuration map that goes
    through YAML, no client comes out: [ClientInitFunc] returns the error
    of the dialer for that URL. *)
Theorem ClientURLSFunc_endpoints_by_position {ConfigMap : Type}
    (yaml : YamlCodec ConfigMap) env networkName (networkConfig : ConfigMap)
    httpURL wsURL urls w :
  accepts_only_ws env →
  ClientURLSFunc httpURL wsURL = Ok urls →
  ∃ http ws,
    httpURL = Ok http ∧ wsURL = Ok ws ∧ urls = http ++ ws ∧
    (∀ c w',
       ClientInitFunc yaml env networkName networkConfig urls w = Done (Ok c, w') →
       match http with
       | [] => Some (RPC c) = (λ u, {| rpcEndpoint := u |}) <$> ws !! 0%nat ∧
               Some (WS c) = (λ u, {| wsEndpoint := u |}) <$> ws !! 1%nat
       | [url] => RPC c = {| rpcEndpoint := url |} ∧
                  Some (WS c) = (λ u, {| wsEndpoint := u |}) <$> ws !! 0%nat
       | url :: url' :: _ => RPC c = {| rpcEndpoint := url |} ∧
                             WS c = {| wsEndpoint := url' |} ∧
                             ws_scheme url' = true
       end) ∧
    (∀ url url' rest d decoded,
       http = url :: url' :: rest →
       ws_scheme url' = false →
       yaml_Marshal yaml networkConfig = Ok d →
       yaml_Unmarshal yaml d = Ok decoded →
       ∃ e, ws_Connect env url' = Some e ∧
            ClientInitFunc yaml env networkName networkConfig urls w
              = Done (Err e,
                      {| rpcSeq := rpcSeq w;
                         events := events w ++ [EvWSConnect url' (Some e)];
                         sched := sched w |})).
Proof.
  intros Hdialer. unfold ClientURLSFunc.
  destruct httpURL as [http | e]; [| discriminate].
  destruct wsURL as [ws | e]; [| discriminate].
  intros [= <-]. exists http, ws. split_and!; try done.
  - intros c w' (url0 & url1 & H0 & H1 & Hws & -> & ->)%ClientInitFunc_endpoints.
    destruct http as [| url [| url' http]]; cbn [app] in H0, H1.
    + by rewrite H0, H1.
    + injection H0 as <-. change ((url :: ws) !! 1%nat) with (ws !! 0%nat) in H1.
      by rewrite H1.
    + injection H0 as <-; injection H1 as <-. split_and!; try done.
      destruct (ws_scheme url') eqn:Hscheme; [done |].
      destruct (Hdialer url' Hscheme) as [e He]. congruence.
  - intros url url' rest d decoded -> Hscheme Hm Hu.
    destruct (Hdialer url' Hscheme) as [e He]. exists e. split; [exact He |].
    unfold ClientInitFunc. rewrite Hm, Hu. unfold NewClient.
    cbn [URLs set_ID_URLs app lookup list_lookup]. unfold_go. by rewrite He.
Qed.

Lemma ClientURLSFunc_endpoints_by_position_witness :
  ClientInitFunc keys_yaml Sim.healthy "localnet" ["alice"; "bob"]
    ["http://10.0.0.1:8899"; "http://10.0.0.2:8899"; "ws://10.0.0.1:8900"]
    (Sim.world [])
  = Done (Err (ErrExternal "malformed ws or wss URL"),
          {| rpcSeq := 0;
             events := [EvWSConnect "http://10.0.0.2:8899"
                          (Some (ErrExternal "malformed ws or wss URL"))];
             sched := [] |}).
Proof.
  destruct (ClientURLSFunc_endpoints_by_position keys_yaml Sim.healthy "localnet"
              ["alice"; "bob"]
              (Ok ["http://10.0.0.1:8899"; "http://10.0.0.2:8899"])
              (Ok ["ws://10.0.0.1:8900"])
              ["http://10.0.0.1:8899"; "http://10.0.0.2:8899"; "ws://10.0.0.1:8900"]
              (Sim.world []) healthy_accepts_only_ws eq_refl)
    as (http & ws & [= <-] & [= <-] & _ & _ & Hrefused).
  destruct (Hrefused "http://10.0.0.1:8899" "http://10.0.0.2:8899" []
              "alice bob" (Sim.config ["alice"; "bob"]) eq_refl eq_refl eq_refl
              ltac:(vm_compute; reflexivity))
    as (e & [= <-] & Hrun).
  exact Hrun.
Defined.

(** X12.  With fewer than two URLs [ClientInitFunc] does not return: the
    constructor indexes past the end of the URLs, however many the
    configuration map itself listed, since those have been overwritten by
    the ones it was given.  Nothing has been sent to the node by then. *)
Theorem ClientInitFunc_crashes {ConfigMap : Type} (yaml : YamlCodec ConfigMap)
    env networkName (networkConfig : ConfigMap) urls w d decoded :
  yaml_Marshal yaml networkConfig = Ok d →
  yaml_Unmarshal yaml d = Ok decoded →
  (length urls < 2)%nat →
  ClientInitFunc yaml env networkName networkConfig urls w
    = Crashed (IndexFault (IndexOutOfRange (Z.of_nat (length urls)) (length urls))).
Proof.
  intros Hm Hu Hlen. unfold ClientInitFunc. rewrite Hm, Hu.
  unfold NewClient. cbn [URLs set_ID_URLs].
  destruct urls as [| url0 [| url1 urls]]; cbn in *; [done | done | lia].
Qed.

Lemma ClientInitFunc_crashes_witness :
  (2 ≤ length (URLs (Sim.config ["alice"; "bob"])))%nat ∧
  ClientInitFunc keys_yaml Sim.healthy "localnet" ["alice"; "bob"]
    ["http://127.0.0.1:8899"] (Sim.world [])
    = Crashed (IndexFault (IndexOutOfRange 1 1)).
Proof.
  split; [vm_compute; lia |].
  apply (ClientInitFunc_crashes keys_yaml Sim.healthy "localnet" ["alice"; "bob"]
           ["http://127.0.0.1:8899"] (Sim.world []) "alice bob"
           (Sim.config ["alice"; "bob"]));
    [reflexivity | vm_compute; reflexivity | vm_compute; lia].
Defined.

(** ** Listing the files of a directory *)

Module FsFacts.
Import Fs.
Import Stdlib.Strings.Ascii.

Lemma Entry_induction (P : Entry → Prop) :
  (∀ name err, P (Missing name err)) →
  (∀ name, P (File name)) →
  (∀ name err, P (Directory name (Err err))) →
  (∀ name entries, Forall P entries → P (Directory name (Ok entries))) →
  ∀ e, P e.
Proof.
  intros Hmissing Hfile Hunread Hdir.
  fix IH 1. intros [name err | name | name [entries | err]].
  - apply Hmissing.
  - apply Hfile.
  - apply Hdir. induction entries as [| e' entries IHentries].
    + constructor.
    + constructor; [apply IH | exact IHentries].
  - apply Hunread.
Qed.

Lemma append_empty (s : string) : s +:+ EmptyString = s.
Proof.
  induction s as [| ch s IH]; [done |].
  change (String ch (s +:+ EmptyString) = String ch s). by rewrite IH.
Qed.

Lemma scan_append p q found :
  scan q = Some found → scan (p +:+ q) = Some found.
Proof.
  intros Hq. induction p as [| ch p IH]; [done |].
  change (scan (String ch (p +:+ q)) = Some found).
  cbn [scan]. by rewrite IH.
Qed.

Lemma Ext_Join dir name : Ext (Join dir name) = Ext name.
Proof.
  unfold Join. destruct (decide (dir = EmptyString)); [done |].
  unfold Ext. destruct (scan name) as [found |] eqn:Hname.
  - rewrite (scan_append dir ("/" +:+ name) found); [done |].
    change (scan (String "/" name) = Some found).
    cbn [scan]. by rewrite Hname.
  - rewrite (scan_append dir ("/" +:+ name) EmptyString); [done |].
    change (scan (String "/" name) = Some EmptyString).
    cbn [scan]. by rewrite Hname.
Qed.

Lemma scan_suffix path found :
  scan path = Some found → ∃ stem, path = stem +:+ found.
Proof.
  revert found. induction path as [| ch path IH]; intros found; cbn; [done |].
  destruct (scan path) as [found' |] eqn:Hscan.
  - intros [= <-]. destruct (IH _ eq_refl) as [stem ->].
    by exists (String ch stem).
  - case_bool_decide; [intros [= <-]; by exists EmptyString |].
    destruct (IsPathSeparator ch); [| done].
    intros [= <-]. exists (String ch path). by rewrite append_empty.
Qed.

Lemma Ext_suffix path : ∃ stem, path = stem +:+ Ext path.
Proof.
  unfold Ext. destruct (scan path) as [found |] eqn:Hscan; cbn.
  - by apply scan_suffix.
  - exists path. by rewrite append_empty.
Qed.

Lemma scan_fixed path found :
  scan path = Some found → Ext found = found.
Proof.
  revert found. induction path as [| ch path IH]; intros found; cbn; [done |].
  destruct (scan path) as [found' |] eqn:Hscan.
  - intros [= <-]. by apply IH.
  - case_bool_decide as Hdot.
    + intros [= <-]. unfold Ext. cbn. rewrite Hscan.
      by rewrite bool_decide_true.
    + destruct (IsPathSeparator ch); [| done]. by intros [= <-].
Qed.

Lemma Ext_fixed path : Ext (Ext path) = Ext path.
Proof.
  unfold Ext at 2 3. destruct (scan path) as [found |] eqn:Hscan; cbn.
  - by eapply scan_fixed.
  - done.
Qed.

Lemma visit_collect ext :
  ∀ e path keyFiles,
    visit (collect ext) path e keyFiles
      = if broken e then Crashed NilDereference
        else Done (keyFiles ++ found ext path e, None).
Proof.
  induction e as [name err | name | name err | name entries IH]
    using Entry_induction; intros path keyFiles; cbn.
  - done.
  - destruct (decide (Ext path = ext)); [done | by rewrite app_nil_r].
  - by rewrite app_nil_r.
  - revert keyFiles. induction IH as [| e' entries He' _ IHentries]; intros keyFiles.
    + by rewrite app_nil_r.
    + rewrite He'. destruct (broken e'); [done |]. cbn [orb].
      rewrite IHentries.
      match goal with |- context [if ?b then _ else _] => destruct b end; [done |].
      by rewrite app_assoc.
Qed.

Lemma found_files ext :
  ∀ e path,
    (∀ name, e = File name → Ext path = Ext name) →
    found ext path e = filter (λ name, Ext name = ext) (files e).
Proof.
  induction e as [name err | name | name err | name entries IH]
    using Entry_induction; intros path Hpath; cbn [found files].
  - done.
  - rewrite (Hpath name eq_refl).
    destruct (decide (Ext name = ext)) as [Heq | Hne].
    + by rewrite filter_cons_True.
    + by rewrite filter_cons_False.
  - done.
  - clear Hpath. induction IH as [| e' entries He' _ IHentries]; [done |].
    rewrite filter_app, <- IHentries. f_equal. apply He'.
    intros name' ->. apply Ext_Join.
Qed.

Lemma found_nothing ext :
  Ext ext ≠ ext → ∀ e path, found ext path e = [].
Proof.
  intros Hext.
  induction e as [name err | name | name err | name entries IH]
    using Entry_induction; intros path; cbn [found]; try done.
  - destruct (decide (Ext path = ext)) as [<- |]; [| done].
    by rewrite Ext_fixed in Hext.
  - induction IH as [| e' entries He' _ IHentries]; [done |].
    by rewrite He', IHentries.
Qed.

End FsFacts.

Lemma ListDirFilenamesByExt_outcome root dir ext :
  (Fs.broken root = true ∧
   Fs.ListDirFilenamesByExt root dir ext = Crashed NilDereference) ∨
  (Fs.broken root = false ∧
   Fs.ListDirFilenamesByExt root dir ext = Done (Ok (Fs.found ext dir root))).
Proof.
  unfold Fs.ListDirFilenamesByExt, Fs.Walk. rewrite FsFacts.visit_collect.
  destruct (Fs.broken root); [by left | by right].
Qed.

(** X13.  [ListDirFilenamesByExt] has no way of returning an error: the
    function it hands to [filepath.Walk] returns [nil] on every path and
    drops the error it is given, so a directory that cannot be read is
    passed over in silence.  The call either returns a list of names, or, when
    the walk meets a path on which [Lstat] fails (the directory [dir] itself
    to begin with), calls [IsDir] on a nil [FileInfo] and panics. *)
Theorem ListDirFilenamesByExt_never_returns_error root dir ext :
  (∀ err, Fs.ListDirFilenamesByExt root dir ext ≠ Done (Err err)) ∧
  (Fs.broken root = true →
   Fs.ListDirFilenamesByExt root dir ext = Crashed NilDereference) ∧
  (Fs.broken root = false →
   ∃ names, Fs.ListDirFilenamesByExt root dir ext = Done (Ok names)) ∧
  (∀ name err,
     Fs.ListDirFilenamesByExt (Fs.Directory name (Err err)) dir ext = Done (Ok [])).
Proof.
  unfold Fs.ListDirFilenamesByExt, Fs.Walk.
  split_and!.
  - intros err. rewrite FsFacts.visit_collect. by destruct (Fs.broken root).
  - intros Hb. by rewrite FsFacts.visit_collect, Hb.
  - intros Hb. rewrite FsFacts.visit_collect, Hb. by eexists.
  - done.
Qed.

(** X14.  What [ListDirFilenamesByExt] lists when it returns.  For a
    directory: the names of all the files below it, at any depth, whose own
    extension is [ext], in the order of the walk; these are bare names, with
    nothing of the path that led to them, and each of them ends in [ext].
    Directories are never listed, whatever their names.  For a [dir] that
    is itself a file: its name, when the extension of [dir] as it was
    written is [ext]. *)
Theorem ListDirFilenamesByExt_lists_names root dir ext names :
  Fs.ListDirFilenamesByExt root dir ext = Done (Ok names) →
  match root with
  | Fs.File name => names = if decide (Fs.Ext dir = ext) then [name] else []
  | _ => names = filter (λ name, Fs.Ext name = ext) (Fs.files root) ∧
         ∀ name, name ∈ names → ∃ stem, name = stem +:+ ext
  end.
Proof.
  unfold Fs.ListDirFilenamesByExt, Fs.Walk. rewrite FsFacts.visit_collect.
  destruct (Fs.broken root); [done |]. intros [= <-].
  assert (∀ name,
            name ∈ filter (λ name, Fs.Ext name = ext) (Fs.files root) →
            ∃ stem, name = stem +:+ ext) as Hends.
  { intros name [<- _]%list_elem_of_filter. apply FsFacts.Ext_suffix. }
  destruct root as [name err | name | name content]; cbn [app].
  - done.
  - done.
  - rewrite FsFacts.found_files by done. done.
Qed.

Lemma ListDirFilenamesByExt_lists_names_witness :
  ["access_controller-keypair.json"; "ocr2-keypair.json"]
    = filter (λ name, Fs.Ext name = ".json") (Fs.files Fs.programs) ∧
  ∀ name, name ∈ ["access_controller-keypair.json"; "ocr2-keypair.json"] →
          ∃ stem, name = stem +:+ ".json".
Proof.
  apply (ListDirFilenamesByExt_lists_names Fs.programs "contracts/target/deploy"
           ".json").
  vm_compute. reflexivity.
Defined.

(** X15.  The [ext] argument has to be an extension as [filepath.Ext]
    produces them, a dot followed by neither dot nor separator (or the empty
    text, for names without dot): with any other text, [json] or [.tar.gz]
    for instance, a call that returns lists nothing, whatever the directory
    holds. *)
Theorem ListDirFilenamesByExt_wants_an_extension root dir ext names :
  Fs.Ext ext ≠ ext →
  Fs.ListDirFilenamesByExt root dir ext = Done (Ok names) →
  names = [].
Proof.
  intros Hext. unfold Fs.ListDirFilenamesByExt, Fs.Walk.
  rewrite FsFacts.visit_collect, (FsFacts.found_nothing ext Hext).
  destruct (Fs.broken root); [done |]. by intros [= <-].
Qed.

Lemma ListDirFilenamesByExt_wants_an_extension_witness :
  Fs.Ext "json" ≠ "json" ∧
  ∃ names,
    Fs.ListDirFilenamesByExt Fs.programs "contracts/target/deploy" "json"
      = Done (Ok names) ∧
    names = [].
Proof.
  split; [vm_compute; discriminate |].
  eexists. split; [vm_compute; reflexivity |].
  apply (ListDirFilenamesByExt_wants_an_extension Fs.programs
           "contracts/target/deploy" "json");
    [vm_compute; discriminate | vm_compute; reflexivity].
Defined.

(** ** The contract deployer *)

Module DeployerFacts.
Import Deployer.

Lemma generate_range_outline env lib c :
  ∀ seeds authorities,
    match generate_range env lib c authorities seeds with
    | Crashed crash =>
        crash = NilDereference ∧ seeds ≠ [] ∧ keys_of env c = None
    | Done (Err err) =>
        ∃ seed state prog,
          seed ∈ seeds ∧ keys_of env c = Some (state, prog) ∧
          FindAuthorityAddress lib seed state prog = Err err
    | Done (Ok authorities') =>
        (seeds = [] ∨ is_Some (keys_of env c)) ∧
        ∀ seed,
          if decide (seed ∈ seeds)
          then ∃ a state prog,
                 authorities' !! seed = Some a ∧
                 keys_of env c = Some (state, prog) ∧
                 FindAuthorityAddress lib seed state prog
                   = Ok (AuthorityPublicKey a, Nonce a)
          else authorities' !! seed = authorities !! seed
    end.
Proof.
  assert (∀ authorities : gmap string Authority,
            ∀ seed : string,
              if decide (seed ∈ @nil string)
              then ∃ a state prog,
                     authorities !! seed = Some a ∧
                     @None (PublicKey * PublicKey) = Some (state, prog) ∧
                     FindAuthorityAddress lib seed state prog
                       = Ok (AuthorityPublicKey a, Nonce a)
              else authorities !! seed = authorities !! seed) as Hnone.
  { intros authorities seed. by rewrite decide_False by apply not_elem_of_nil. }
  unfold keys_of.
  destruct (OCR (deployerAccounts c)) as [ocr |] eqn:Hocr;
    [destruct (ProgramWallets (deployerClient c) !! "ocr2-keypair.json")
       as [prog |] eqn:Hpw |].
  - induction seeds as [| seed seeds IH]; intros authorities; cbn [generate_range].
    { split; [by left |]. intros seed.
      by rewrite decide_False by apply not_elem_of_nil. }
    unfold Wallet_PublicKey. rewrite Hocr, Hpw.
    destruct (FindAuthorityAddress lib seed _ _) as [[auth nonce] | err] eqn:Hfind.
    + specialize (IH (<[seed := {| AuthorityPublicKey := auth; Nonce := nonce |}]>
                        authorities)).
      destruct (generate_range env lib c _ seeds) as [[authorities' | err] | crash].
      * destruct IH as [_ IH]. split; [right; by eexists |].
        intros seed'. specialize (IH seed').
        destruct (decide (seed' ∈ seeds)) as [Hin | Hout].
        -- rewrite decide_True by (by apply list_elem_of_further). exact IH.
        -- destruct (decide (seed' = seed)) as [-> | Hne].
           ++ rewrite decide_True by apply list_elem_of_here.
              rewrite lookup_insert_eq in IH.
              eexists {| AuthorityPublicKey := auth; Nonce := nonce |}, _, _.
              split_and!; [exact IH | reflexivity | exact Hfind].
           ++ rewrite decide_False by (intros [? | ?]%elem_of_cons; done).
              by rewrite lookup_insert_ne in IH.
      * destruct IH as (seed' & state & prog' & Hin & Hkeys & Herr).
        exists seed', state, prog'. split_and!; [by apply list_elem_of_further | done..].
      * destruct IH as (_ & _ & [=]).
    + eexists seed, _, _.
      split_and!; [apply list_elem_of_here | reflexivity | exact Hfind].
  - intros [| seed seeds] authorities; cbn [generate_range].
    + split; [by left | apply Hnone].
    + unfold Wallet_PublicKey. by rewrite Hocr, Hpw.
  - intros [| seed seeds] authorities; cbn [generate_range].
    + split; [by left | apply Hnone].
    + unfold Wallet_PublicKey. by rewrite Hocr.
Qed.

Lemma LoadWallet_panics env path p :
  LoadWallet env path = Panics p →
  ∃ sk, lib_PrivateKeyFromBase58 env path = Ok sk ∧
        (lib_PrivateKey_len env sk < 32)%nat ∧
        p = SliceBoundsOutOfRange 32 (lib_PrivateKey_len env sk).
Proof.
  pose proof (LoadWallet_outcome env path) as H.
  destruct (lib_PrivateKeyFromBase58 env path) as [sk | e]; [| by rewrite H].
  destruct (decide _) as [Hshort | Hwhole]; rewrite H; [| done].
  intros [= <-]. by exists sk.
Qed.

Lemma load_programs_outline env lib contractsDir :
  ∀ keyFiles c,
    ∃ loaded,
      loaded `prefix_of` keyFiles ∧
      match load_programs env lib c contractsDir keyFiles with
      | Returns (c', r) =>
          c' = set_ProgramWallets (ProgramWallets c') c ∧
          match r with
          | None => loaded = keyFiles
          | Some err =>
              ∃ kfn, keyFiles !! length loaded = Some kfn ∧
                     wallet_of env lib contractsDir kfn = Returns (Err err)
          end ∧
          ∀ name,
            if decide (name ∈ loaded)
            then ∃ w, ProgramWallets c' !! name = Some w ∧
                      wallet_of env lib contractsDir name = Returns (Ok w)
            else ProgramWallets c' !! name = ProgramWallets c !! name
      | Panics p =>
          ∃ kfn, keyFiles !! length loaded = Some kfn ∧
                 wallet_of env lib contractsDir kfn = Panics p
      end.
Proof.
  induction keyFiles as [| kfn keyFiles IH]; intros c; cbn [load_programs].
  - exists []. split_and!; try done. by destruct c.
  - destruct (lib_PrivateKeyFromSolanaKeygenFile lib (Fs.Join contractsDir kfn))
      as [pk | err] eqn:Hkey.
    2:{ exists []. split; [apply prefix_nil |]. split_and!.
        - by destruct c.
        - exists kfn. split; [done |]. unfold wallet_of. by rewrite Hkey.
        - intros name. by rewrite decide_False by apply not_elem_of_nil. }
    destruct (LoadWallet env (lib_PrivateKey_String lib pk)) as [[w | err] | p] eqn:Hw.
    + destruct (IH (set_ProgramWallets (<[kfn := w]> (ProgramWallets c)) c))
        as (loaded & Hpre & Hrun).
      exists (kfn :: loaded). split; [by apply prefix_cons |].
      destruct (load_programs env lib _ contractsDir keyFiles) as [[c' r] | p].
      * destruct Hrun as (Hc & Hr & Hmap). split_and!.
        -- exact Hc.
        -- destruct r as [err |]; [exact Hr | by rewrite Hr].
        -- intros name. specialize (Hmap name).
           cbn [ProgramWallets set_ProgramWallets] in Hmap.
           destruct (decide (name ∈ loaded)) as [Hin | Hout].
           ++ rewrite decide_True by (by apply list_elem_of_further). exact Hmap.
           ++ destruct (decide (name = kfn)) as [-> | Hne].
              ** rewrite decide_True by apply list_elem_of_here.
                 rewrite lookup_insert_eq in Hmap. exists w. split; [done |].
                 unfold wallet_of. by rewrite Hkey.
              ** rewrite decide_False by (intros [? | ?]%elem_of_cons; done).
                 by rewrite lookup_insert_ne in Hmap.
      * exact Hrun.
    + exists []. split; [apply prefix_nil |]. split_and!.
      * by destruct c.
      * exists kfn. split; [done |]. unfold wallet_of. by rewrite Hkey.
      * intros name. by rewrite decide_False by apply not_elem_of_nil.
    + exists []. split; [apply prefix_nil |].
      exists kfn. split; [done |]. unfold wallet_of. by rewrite Hkey.
Qed.

End DeployerFacts.

Lemma LoadPrograms_nil_outline env lib root c contractsDir :
  match Deployer.LoadPrograms env lib root c contractsDir with
  | Done (c', None) =>
      Deployer.deployerAccounts c' = Deployer.deployerAccounts c ∧
      Fs.ListDirFilenamesByExt root contractsDir ".json"
        = Done (Ok (Fs.found ".json" contractsDir root)) ∧
      ∀ name,
        if decide (name ∈ Fs.found ".json" contractsDir root)
        then ∃ w, ProgramWallets (Deployer.deployerClient c') !! name = Some w ∧
                  Deployer.wallet_of env lib contractsDir name = Returns (Ok w)
        else ProgramWallets (Deployer.deployerClient c') !! name
             = ProgramWallets (Deployer.deployerClient c) !! name
  | _ => True
  end.
Proof.
  unfold Deployer.LoadPrograms.
  destruct (ListDirFilenamesByExt_outcome root contractsDir ".json") as [[Hb ->] | [Hb ->]].
  - done.
  - destruct (DeployerFacts.load_programs_outline env lib contractsDir
                (Fs.found ".json" contractsDir root) (Deployer.deployerClient c))
      as (loaded & Hpre & Hrun).
    destruct (Deployer.load_programs env lib _ contractsDir _) as [[c' r] | p]; [| done].
    destruct Hrun as (Hc & Hr & Hmap).
    destruct r as [err |]; [done |]. subst loaded. done.
Qed.

(** X16.  [GenerateAuthorities] replaces the authorities as a whole or
    leaves the deployer alone.  When the search fails for one seed its error
    is returned and nothing has changed, the authorities found for earlier
    seeds being dropped.  When it returns [nil], the new map has an entry
    for exactly the seeds given, each holding what the search found for that
    seed under the OCR state account and the program wallet filed under
    [ocr2-keypair.json]; authorities stored before under other seeds are
    gone; the owner is now the client's default wallet, nil if that was nil;
    the client and the other accounts are as before.  The call panics only
    on a nil pointer, and only when there is a seed: without seeds neither
    the state account nor the program wallet is looked at. *)
Theorem GenerateAuthorities_replaces_or_leaves env lib c seeds :
  match Deployer.GenerateAuthorities env lib c seeds with
  | Crashed crash =>
      crash = NilDereference ∧ seeds ≠ [] ∧
      (Deployer.OCR (Deployer.deployerAccounts c) = None ∨
       ProgramWallets (Deployer.deployerClient c) !! "ocr2-keypair.json" = None)
  | Done (c', Some err) =>
      c' = c ∧
      ∃ seed ocr prog,
        seed ∈ seeds ∧
        Deployer.OCR (Deployer.deployerAccounts c) = Some ocr ∧
        ProgramWallets (Deployer.deployerClient c) !! "ocr2-keypair.json" = Some prog ∧
        Deployer.FindAuthorityAddress lib seed
          (lib_PublicKey env (WalletPrivateKey ocr))
          (lib_PublicKey env (WalletPrivateKey prog)) = Err err
  | Done (c', None) =>
      Deployer.deployerClient c' = Deployer.deployerClient c ∧
      Deployer.deployerAccounts c'
        = Deployer.set_Authorities_Owner
            (Deployer.Authorities (Deployer.deployerAccounts c'))
            (DefaultWallet (Deployer.deployerClient c))
            (Deployer.deployerAccounts c) ∧
      (seeds = [] → Deployer.Authorities (Deployer.deployerAccounts c') = ∅) ∧
      ∀ seed,
        match Deployer.Authorities (Deployer.deployerAccounts c') !! seed with
        | None => seed ∉ seeds
        | Some a =>
            seed ∈ seeds ∧
            ∃ ocr prog,
              Deployer.OCR (Deployer.deployerAccounts c) = Some ocr ∧
              ProgramWallets (Deployer.deployerClient c) !! "ocr2-keypair.json"
                = Some prog ∧
              Deployer.FindAuthorityAddress lib seed
                (lib_PublicKey env (WalletPrivateKey ocr))
                (lib_PublicKey env (WalletPrivateKey prog))
                = Ok (Deployer.AuthorityPublicKey a, Deployer.Nonce a)
        end
  end.
Proof.
  unfold Deployer.GenerateAuthorities.
  pose proof (DeployerFacts.generate_range_outline env lib c seeds ∅) as H.
  unfold Deployer.keys_of in H.
  destruct (Deployer.generate_range env lib c ∅ seeds)
    as [[authorities | err] | crash].
  - destruct H as [Hkeys H]. cbn. split_and!; try done.
    + intros ->. apply map_eq. intros seed. specialize (H seed).
      rewrite decide_False in H by apply not_elem_of_nil. exact H.
    + intros seed. specialize (H seed).
      destruct (decide (seed ∈ seeds)) as [Hin | Hout].
      * destruct H as (a & state & prog & -> & Hk & Hfind). split; [done |].
        destruct (Deployer.OCR (Deployer.deployerAccounts c)) as [ocr |]; [| done].
        destruct (ProgramWallets (Deployer.deployerClient c) !! "ocr2-keypair.json")
          as [pw |]; [| done].
        injection Hk as <- <-. by exists ocr, pw.
      * rewrite H, lookup_empty. exact Hout.
  - destruct H as (seed & state & prog & Hin & Hk & Hfind). split; [done |].
    destruct (Deployer.OCR (Deployer.deployerAccounts c)) as [ocr |]; [| done].
    destruct (ProgramWallets (Deployer.deployerClient c) !! "ocr2-keypair.json")
      as [pw |]; [| done].
    injection Hk as <- <-. by exists seed, ocr, pw.
  - destruct H as (-> & Hne & Hk). split_and!; try done.
    destruct (Deployer.OCR (Deployer.deployerAccounts c)) as [ocr |]; [| by left].
    destruct (ProgramWallets (Deployer.deployerClient c) !! "ocr2-keypair.json")
      as [pw |]; [done | by right].
Qed.

(** X17.  [LoadPrograms] files a wallet under the bare name of every key
    file that the walk of [contractsDir] lists, and reads the key of each
    from the path made of [contractsDir] and that name.  It stops at the
    first key file that cannot be read or whose key does not parse and
    returns that error, with the wallets of the files before it already
    filed; an unreadable directory is never its error.  Program wallets
    under other names, the rest of the client and the accounts are as
    before.  The call panics in two cases: on a nil pointer, exactly when
    the walk does; and, the walk having gone through, in [LoadWallet] at
    the first key file it gets to whose key has fewer than 32 bytes, with
    the slice-bounds fault of taking its public key. *)
Theorem LoadPrograms_files_wallets_by_name env lib root c contractsDir :
  match Deployer.LoadPrograms env lib root c contractsDir with
  | Crashed crash =>
      (crash = NilDereference ∧ Fs.broken root = true) ∨
      (Fs.broken root = false ∧
       ∃ keyFiles loaded kfn pk sk,
         Fs.ListDirFilenamesByExt root contractsDir ".json" = Done (Ok keyFiles) ∧
         loaded `prefix_of` keyFiles ∧
         keyFiles !! length loaded = Some kfn ∧
         Deployer.lib_PrivateKeyFromSolanaKeygenFile lib (Fs.Join contractsDir kfn) = Ok pk ∧
         lib_PrivateKeyFromBase58 env (Deployer.lib_PrivateKey_String lib pk) = Ok sk ∧
         (lib_PrivateKey_len env sk < 32)%nat ∧
         crash = IndexFault (SliceBoundsOutOfRange 32 (lib_PrivateKey_len env sk)))
  | Done (c', r) =>
      Fs.broken root = false ∧
      Deployer.deployerAccounts c' = Deployer.deployerAccounts c ∧
      Deployer.deployerClient c'
        = set_ProgramWallets (ProgramWallets (Deployer.deployerClient c'))
            (Deployer.deployerClient c) ∧
      ∃ keyFiles loaded,
        Fs.ListDirFilenamesByExt root contractsDir ".json" = Done (Ok keyFiles) ∧
        loaded `prefix_of` keyFiles ∧
        match r with
        | None => loaded = keyFiles
        | Some err =>
            ∃ kfn, keyFiles !! length loaded = Some kfn ∧
                   Deployer.wallet_of env lib contractsDir kfn = Returns (Err err)
        end ∧
        ∀ name,
          if decide (name ∈ loaded)
          then ∃ w, ProgramWallets (Deployer.deployerClient c') !! name = Some w ∧
                    Deployer.wallet_of env lib contractsDir name = Returns (Ok w)
          else ProgramWallets (Deployer.deployerClient c') !! name
               = ProgramWallets (Deployer.deployerClient c) !! name
  end.
Proof.
  unfold Deployer.LoadPrograms.
  destruct (ListDirFilenamesByExt_outcome root contractsDir ".json") as [[Hb ->] | [Hb ->]].
  - by left.
  - destruct (DeployerFacts.load_programs_outline env lib contractsDir
                (Fs.found ".json" contractsDir root) (Deployer.deployerClient c))
      as (loaded & Hpre & Hrun).
    destruct (Deployer.load_programs env lib _ contractsDir _) as [[c' r] | p].
    + destruct Hrun as (Hc & Hr & Hmap).
      cbn. split_and!; try done. by exists (Fs.found ".json" contractsDir root), loaded.
    + right. split; [exact Hb |]. destruct Hrun as (kfn & Hi & Hpanic).
      unfold Deployer.wallet_of in Hpanic.
      destruct (Deployer.lib_PrivateKeyFromSolanaKeygenFile lib _) as [pk | err] eqn:Hkey;
        [| discriminate].
      apply DeployerFacts.LoadWallet_panics in Hpanic as (sk & Hsk & Hshort & ->).
      by exists (Fs.found ".json" contractsDir root), loaded, kfn, pk, sk.
Qed.

(** X18.  Loading the programs is what makes [GenerateAuthorities] safe.
    After a [LoadPrograms] that returned [nil] on a directory whose listing
    has a key file named [ocr2-keypair.json], and with the OCR state account
    in place, [GenerateAuthorities] returns for every list of seeds; the
    program it searches addresses under is the wallet read from
    [ocr2-keypair.json] directly under [contractsDir]. *)
Theorem LoadPrograms_then_GenerateAuthorities env lib root c contractsDir keyFiles
    c' seeds :
  Fs.ListDirFilenamesByExt root contractsDir ".json" = Done (Ok keyFiles) →
  "ocr2-keypair.json" ∈ keyFiles →
  Deployer.LoadPrograms env lib root c contractsDir = Done (c', None) →
  is_Some (Deployer.OCR (Deployer.deployerAccounts c)) →
  ∃ c'' r prog,
    Deployer.GenerateAuthorities env lib c' seeds = Done (c'', r) ∧
    ProgramWallets (Deployer.deployerClient c') !! "ocr2-keypair.json" = Some prog ∧
    Deployer.wallet_of env lib contractsDir "ocr2-keypair.json" = Returns (Ok prog).
Proof.
  intros Hlist Hfile Hload [ocr Hocr].
  pose proof (LoadPrograms_nil_outline env lib root c contractsDir) as H.
  rewrite Hload in H. destruct H as (Hacc & Hlisted & Hmap).
  rewrite Hlist in Hlisted. injection Hlisted as ->.
  specialize (Hmap "ocr2-keypair.json").
  rewrite decide_True in Hmap by done.
  destruct Hmap as (prog & Hprog & Hwallet).
  pose proof (DeployerFacts.generate_range_outline env lib c' seeds ∅) as H.
  unfold Deployer.GenerateAuthorities, Deployer.keys_of in *.
  rewrite Hacc, Hocr, Hprog in H.
  destruct (Deployer.generate_range env lib c' ∅ seeds) as [[authorities | err] | crash].
  - by eexists _, _, prog.
  - by eexists _, _, prog.
  - by destruct H as (_ & _ & [=]).
Qed.

Lemma LoadPrograms_then_GenerateAuthorities_witness :
  let lib := Deployer.sim_lib Fs.target "contracts/target/deploy" in
  ∃ c',
    Deployer.LoadPrograms Sim.healthy lib Fs.target
      Deployer.sim_deployer "contracts/target/deploy" = Done (c', None) ∧
    ∃ c'' r prog,
      Deployer.GenerateAuthorities Sim.healthy lib c' ["vault"; "store"]
        = Done (c'', r) ∧
      ProgramWallets (Deployer.deployerClient c') !! "ocr2-keypair.json" = Some prog ∧
      Deployer.wallet_of Sim.healthy lib "contracts/target/deploy"
        "ocr2-keypair.json" = Returns (Ok prog).
Proof.
  eexists. split; [vm_compute; reflexivity |].
  eapply (LoadPrograms_then_GenerateAuthorities Sim.healthy
            (Deployer.sim_lib Fs.target "contracts/target/deploy")
            Fs.target Deployer.sim_deployer "contracts/target/deploy"
            ["access_controller-keypair.json"; "ocr2-keypair.json";
             "store-keypair.json"]).
  - vm_compute. reflexivity.
  - apply list_elem_of_further, list_elem_of_here.
  - vm_compute. reflexivity.
  - by eexists.
Defined.

(** ** Balance metrics *)

Module MonitoringFacts.
Import Monitoring.
#[local] Set Warnings "-clear-no-such-hyp".

Lemma prefix_inj (name name' : string) :
  "sol_balance_" +:+ name = "sol_balance_" +:+ name' → name = name'.
Proof. intros H. by simplify_eq. Qed.

Lemma init_range_runs names :
  ∀ st,
    match init_range names st with
    | Done st' =>
        (∀ name, name ∈ names → "sol_balance_" +:+ name ∉ registered st) ∧
        registered st' = list_to_set (String.append "sol_balance_" <$> names) ∪ registered st ∧
        ∀ name, gauges st' !! name
                = if decide (name ∈ names) then Some (fresh_gauge name)
                  else gauges st !! name
    | Crashed crash =>
        crash = Panicked "duplicate metrics collector registration attempted" ∧
        (¬ NoDup names ∨
         ∃ name, name ∈ names ∧ "sol_balance_" +:+ name ∈ registered st)
    end.
Proof.
  induction names as [| name names IH]; intros st; cbn [init_range].
  - split_and!.
    + by intros name ?%elem_of_nil.
    + cbn. set_solver.
    + intros name. by rewrite decide_False by apply not_elem_of_nil.
  - unfold NewGaugeVec.
    destruct (decide ("sol_balance_" +:+ name ∈ registered st)) as [Hin | Hout].
    { split; [done |]. right. exists name. split; [apply list_elem_of_here | done]. }
    specialize (IH {| registered := {[ "sol_balance_" +:+ name ]} ∪ registered st;
                      gauges := <[name := fresh_gauge name]> (gauges st) |}).
    fold (fresh_gauge name).
    destruct (init_range names _) as [st' | crash]; cbn [registered gauges] in IH.
    + destruct IH as (Hfree & Hreg & Hg). split_and!.
      * intros name' [-> | Hin]%elem_of_cons; [done |].
        specialize (Hfree name' Hin). set_solver.
      * rewrite Hreg. cbn. set_solver.
      * intros name'. rewrite Hg.
        destruct (decide (name' ∈ names)) as [Hin | Hnin].
        -- by rewrite decide_True by (by apply list_elem_of_further).
        -- destruct (decide (name' = name)) as [-> | Hne].
           ++ rewrite decide_True by apply list_elem_of_here.
              by rewrite lookup_insert_eq.
           ++ rewrite decide_False by (intros [? | ?]%elem_of_cons; done).
              by rewrite lookup_insert_ne.
    + destruct IH as (-> & [Hdup | (name' & Hin & Hreg)]); split; try done.
      * left. intros Hnd. apply Hdup. by apply NoDup_cons in Hnd as [_ ?].
      * apply elem_of_union in Hreg as [Hreg | Hreg].
        -- apply elem_of_singleton, prefix_inj in Hreg as <-.
           left. intros Hnd. by apply NoDup_cons in Hnd as [? _].
        -- right. exists name'. split; [by apply list_elem_of_further | done].
Qed.

Lemma validate_set_series utf8 series g lvs :
  validateLabelValues utf8 (set_series series g) lvs = validateLabelValues utf8 g lvs.
Proof. done. Qed.

Lemma set_series_same g : set_series (gauge_series g) g = g.
Proof. by destruct g. Qed.

(** What [DeleteLabelValues] leaves of a vector. *)
Lemma DeleteLabelValues_leaves utf8 g lvs :
  (DeleteLabelValues utf8 g lvs).1
    = if validateLabelValues utf8 g lvs
      then set_series (delete lvs (gauge_series g)) g
      else g.
Proof.
  unfold DeleteLabelValues. destruct (validateLabelValues utf8 g lvs); [| done].
  destruct (gauge_series g !! lvs) eqn:Hl; [done |].
  cbn. by rewrite delete_id, set_series_same.
Qed.

Lemma cleanup_range_runs utf8 l names :
  NoDup names →
  ∀ st,
    (∀ name, name ∈ names → is_Some (gauges st !! name)) →
    ∃ st',
      cleanup_range utf8 names st l = Done st' ∧
      registered st' = registered st ∧
      ∀ name,
        gauges st' !! name
          = if decide (name ∈ names)
            then (λ g, (DeleteLabelValues utf8 g (label_values l)).1)
                   <$> gauges st !! name
            else gauges st !! name.
Proof.
  induction 1 as [| name names Hnin Hnd IH]; intros st Hall; cbn [cleanup_range].
  - exists st. by split_and!.
  - destruct (Hall name) as [g Hg]; [apply list_elem_of_here |]. rewrite Hg.
    destruct (DeleteLabelValues utf8 g (label_values l)) as [g' deleted] eqn:Hdel.
    destruct (IH (set_gauges (<[name := g']> (gauges st)) st))
      as (st' & -> & Hreg & Hmap).
    { intros name' Hin. cbn.
      destruct (decide (name' = name)) as [-> | Hne].
      - rewrite lookup_insert_eq. by eexists.
      - rewrite lookup_insert_ne by done. apply Hall. by apply list_elem_of_further. }
    exists st'. split_and!; try done.
    intros name'. rewrite Hmap. cbn [gauges set_gauges].
    destruct (decide (name' ∈ names)) as [Hin | Hout].
    + rewrite decide_True by (by apply list_elem_of_further).
      rewrite lookup_insert_ne; [done |]. by intros <-.
    + destruct (decide (name' = name)) as [-> | Hne].
      * rewrite decide_True by apply list_elem_of_here.
        rewrite lookup_insert_eq, Hg. cbn. by rewrite Hdel.
      * rewrite decide_False by (intros [? | ?]%elem_of_cons; done).
        by rewrite lookup_insert_ne.
Qed.

Lemma Cleanup_runs utf8 st l :
  as_registered utf8 st →
  ∃ st',
    Cleanup utf8 st l = Done st' ∧
    registered st' = registered st ∧
    ∀ name,
      gauges st' !! name
        = (λ g, (DeleteLabelValues utf8 g (label_values l)).1) <$> gauges st !! name.
Proof.
  intros Hst.
  destruct (cleanup_range_runs utf8 l BalanceAccountNames ltac:(compute_done) st)
    as (st' & Hrun & Hreg & Hmap).
  { intros name Hin. specialize (Hst name).
    destruct (gauges st !! name); [by eexists | done]. }
  exists st'. split_and!; try done.
  intros name. rewrite Hmap. destruct (decide _) as [| Hout]; [done |].
  specialize (Hst name). destruct (gauges st !! name); [| done].
  by destruct Hst as [? _].
Qed.

Lemma SetBalance_runs utf8 st balance name l :
  match SetBalance utf8 st balance name l with
  | Done st' =>
      ∃ g, gauges st !! name = Some g ∧
           validateLabelValues utf8 g (label_values l) = true ∧
           st' = set_gauges
                   (<[name := set_series
                                (<[label_values l := float64_of_uint64 balance]>
                                   (gauge_series g)) g]> (gauges st)) st
  | Crashed crash =>
      (gauges st !! name = None ∧
       crash = Panicked ("gauge not known for name '" +:+ name +:+ "'")) ∨
      (∃ g, gauges st !! name = Some g ∧
            validateLabelValues utf8 g (label_values l) = false)
  end.
Proof.
  unfold SetBalance, WithLabelValues_Set.
  destruct (gauges st !! name) as [g |]; [| by left].
  destruct (validateLabelValues utf8 g (label_values l)) eqn:Hv.
  - by exists g.
  - right. by exists g.
Qed.

Lemma reachable_as_registered utf8 reg st :
  reachable utf8 reg st → as_registered utf8 st.
Proof.
  induction 1 as [st Hinit | st balance name l st' _ IH Hset | st l st' _ IH Hclean].
  - unfold init in Hinit.
    pose proof (init_range_runs BalanceAccountNames
                  {| registered := reg; gauges := ∅ |}) as H.
    rewrite Hinit in H. destruct H as (_ & _ & Hg).
    intros name. rewrite Hg. destruct (decide (name ∈ BalanceAccountNames)).
    + split_and!; try done. intros lvs [v Hv].
      unfold fresh_gauge in Hv. cbn [gauge_series] in Hv.
      by rewrite lookup_empty in Hv.
    + done.
  - pose proof (SetBalance_runs utf8 st balance name l) as H.
    rewrite Hset in H. destruct H as (g & Hg & Hvalid & ->).
    intros name'. cbn [gauges set_gauges].
    destruct (decide (name' = name)) as [-> | Hne].
    + rewrite lookup_insert_eq. specialize (IH name). rewrite Hg in IH.
      destruct IH as (Hin & Hname & Hlabels & Hseries). split_and!; try done.
      intros lvs. cbn [gauge_series set_series]. rewrite validate_set_series.
      destruct (decide (lvs = label_values l)) as [-> | Hother]; [done |].
      rewrite lookup_insert_ne by done. apply Hseries.
    + rewrite lookup_insert_ne by done. apply IH.
  - destruct (Cleanup_runs utf8 st l IH) as (st1 & Hrun & _ & Hmap).
    rewrite Hclean in Hrun. injection Hrun as <-.
    intros name. rewrite Hmap. specialize (IH name).
    destruct (gauges st !! name) as [g |]; [| done]. cbn.
    destruct IH as (Hin & Hname & Hlabels & Hseries).
    rewrite DeleteLabelValues_leaves.
    destruct (validateLabelValues utf8 g (label_values l)); [| done].
    split_and!; try done.
    intros lvs. cbn [gauge_series set_series]. rewrite validate_set_series.
    intros [v Hv]. apply Hseries. exists v.
    by apply lookup_delete_Some in Hv as [_ ?].
Qed.

Lemma validate_labels utf8 g l :
  gauge_labels g = labelNames →
  validateLabelValues utf8 g (label_values l) = forallb utf8 (label_values l).
Proof. intros Hl. unfold validateLabelValues. by rewrite Hl. Qed.

Lemma State_eq st st' :
  registered st = registered st' → gauges st = gauges st' → st = st'.
Proof. destruct st, st'. cbn. by intros -> ->. Qed.

Lemma float64_of_uint64_near (n : Z) :
  (0 ≤ n < 2 ^ 64)%Z →
  (Z.abs (float64_of_uint64 n - n) ≤ 1024)%Z ∧
  (n ≤ 2 ^ 53 → float64_of_uint64 n = n)%Z.
Proof.
  intros Hn. unfold float64_of_uint64.
  destruct (Z.ltb_spec n (2 ^ 53)) as [Hsmall | Hbig]; [lia |].
  assert (53 ≤ Z.log2 n < 64)%Z as Hlog.
  { split; [apply Z.log2_le_pow2; lia | apply Z.log2_lt_pow2; lia]. }
  set (e := (Z.log2 n - 52)%Z).
  assert (1 ≤ e ≤ 11)%Z as He by lia.
  assert (2 ^ e = 2 * 2 ^ (e - 1))%Z as Hpow.
  { rewrite <- Z.pow_succ_r by lia. f_equal. lia. }
  assert (0 < 2 ^ (e - 1) ≤ 1024)%Z as Hhalf.
  { split; [apply Z.pow_pos_nonneg; lia |].
    change 1024%Z with (2 ^ 10)%Z. apply Z.pow_le_mono_r; lia. }
  pose proof (Z.div_mod n (2 ^ e) ltac:(lia)) as Hdiv.
  pose proof (Z.mod_pos_bound n (2 ^ e) ltac:(lia)) as Hmod.
  set (q := (n / 2 ^ e)%Z) in *. set (r := (n mod 2 ^ e)%Z) in *.
  set (half := (2 ^ (e - 1))%Z) in *.
  assert (2 ^ e ≤ n)%Z as Hle.
  { apply Z.log2_le_pow2; lia. }
  split.
  - rewrite Hpow in *.
    destruct (Z.ltb_spec r half); [lia |].
    destruct (Z.ltb_spec half r); [lia |].
    destruct (Z.even q); lia.
  - intros Hmax. assert (n = 2 ^ 53)%Z as -> by lia. reflexivity.
Qed.

End MonitoringFacts.

(** X19.  [init] makes one gauge for each of the six account names, called
    [sol_balance_] followed by the name, with the nine label names and no
    series, and registers it; it returns exactly when none of these six
    metric names is taken in the default registry, and panics in
    [promauto] otherwise. *)
Theorem init_registers_one_gauge_per_account reg :
  match Monitoring.init reg with
  | Done st =>
      (∀ name, name ∈ Monitoring.BalanceAccountNames →
               "sol_balance_" +:+ name ∉ reg) ∧
      Monitoring.registered st
        = list_to_set (String.append "sol_balance_" <$> Monitoring.BalanceAccountNames) ∪ reg ∧
      ∀ name,
        Monitoring.gauges st !! name
          = if decide (name ∈ Monitoring.BalanceAccountNames)
            then Some (Monitoring.fresh_gauge name)
            else None
  | Crashed crash =>
      crash = Panicked "duplicate metrics collector registration attempted" ∧
      ∃ name, name ∈ Monitoring.BalanceAccountNames ∧ "sol_balance_" +:+ name ∈ reg
  end.
Proof.
  unfold Monitoring.init.
  pose proof (MonitoringFacts.init_range_runs Monitoring.BalanceAccountNames
                {| Monitoring.registered := reg; Monitoring.gauges := ∅ |}) as H.
  destruct (Monitoring.init_range _ _) as [st | crash]; cbn in H.
  - destruct H as (Hfree & Hreg & Hg). split_and!; [done | done |].
    intros name. rewrite Hg. by destruct (decide _).
  - destruct H as (-> & [Hdup | H]); [| done].
    exfalso. apply Hdup. compute_done.
Qed.

(** X20.  Once [init] has run, whatever calls have returned since, the
    package holds a gauge for each of the six account names and for no other
    name, each named and labelled as [init] made it.  So [SetBalance] panics
    with its own message exactly for an account name that is not one of the
    six, returns for the others unless a label value is not valid UTF-8 (the
    panic is then the vector's), and [Cleanup] always returns. *)
Theorem gauges_stay_as_registered utf8 reg st :
  Monitoring.reachable utf8 reg st →
  (∀ name,
     match Monitoring.gauges st !! name with
     | Some g => name ∈ Monitoring.BalanceAccountNames ∧
                 Monitoring.gauge_Name g = "sol_balance_" +:+ name ∧
                 Monitoring.gauge_labels g = Monitoring.labelNames
     | None => name ∉ Monitoring.BalanceAccountNames
     end) ∧
  (∀ l, ∃ st', Monitoring.Cleanup utf8 st l = Done st') ∧
  ∀ balance name l,
    match Monitoring.SetBalance utf8 st balance name l with
    | Done st' =>
        name ∈ Monitoring.BalanceAccountNames ∧
        forallb utf8 (Monitoring.label_values l) = true
    | Crashed crash =>
        ((name ∉ Monitoring.BalanceAccountNames) ∧
         crash = Panicked ("gauge not known for name '" +:+ name +:+ "'")) ∨
        (name ∈ Monitoring.BalanceAccountNames ∧
         forallb utf8 (Monitoring.label_values l) = false)
    end.
Proof.
  intros Hst%MonitoringFacts.reachable_as_registered. split_and!.
  - intros name. specialize (Hst name).
    destruct (Monitoring.gauges st !! name); [| done].
    by destruct Hst as (? & ? & ? & _).
  - intros l. destruct (MonitoringFacts.Cleanup_runs utf8 st l Hst) as (st' & ? & _).
    by exists st'.
  - intros balance name l.
    pose proof (MonitoringFacts.SetBalance_runs utf8 st balance name l) as H.
    specialize (Hst name).
    destruct (Monitoring.SetBalance utf8 st balance name l) as [st' | crash].
    + destruct H as (g & Hg & Hvalid & _). rewrite Hg in Hst.
      destruct Hst as (? & _ & Hlabels & _).
      by rewrite MonitoringFacts.validate_labels in Hvalid.
    + destruct H as [[Hg ->] | (g & Hg & Hvalid)]; rewrite Hg in Hst.
      * by left.
      * right. destruct Hst as (? & _ & Hlabels & _).
        by rewrite MonitoringFacts.validate_labels in Hvalid.
Qed.

Lemma gauges_stay_as_registered_witness :
  ∃ st,
    Monitoring.init ∅ = Done st ∧
    (∀ name,
       match Monitoring.gauges st !! name with
       | Some g => name ∈ Monitoring.BalanceAccountNames ∧
                   Monitoring.gauge_Name g = "sol_balance_" +:+ name ∧
                   Monitoring.gauge_labels g = Monitoring.labelNames
       | None => name ∉ Monitoring.BalanceAccountNames
       end) ∧
    (∀ l, ∃ st', Monitoring.Cleanup Monitoring.no_byte_255 st l = Done st') ∧
    ∀ balance name l,
      match Monitoring.SetBalance Monitoring.no_byte_255 st balance name l with
      | Done st' =>
          name ∈ Monitoring.BalanceAccountNames ∧
          forallb Monitoring.no_byte_255 (Monitoring.label_values l) = true
      | Crashed crash =>
          ((name ∉ Monitoring.BalanceAccountNames) ∧
           crash = Panicked ("gauge not known for name '" +:+ name +:+ "'")) ∨
          (name ∈ Monitoring.BalanceAccountNames ∧
           forallb Monitoring.no_byte_255 (Monitoring.label_values l) = false)
      end.
Proof.
  eexists. split; [vm_compute; reflexivity |].
  apply (gauges_stay_as_registered Monitoring.no_byte_255 ∅).
  apply Monitoring.reach_init. vm_compute. reflexivity.
Defined.

(** X21.  What a gauge shows after [SetBalance].  The series of the named
    account at the nine label values shows the balance converted to
    [float64], which is the balance itself up to 2^53 lamports and is off by
    at most 1024 lamports above; every other series, of this gauge and of
    the others, shows what it did, and nothing is registered. *)
Theorem SetBalance_shows_converted_balance utf8 st balance name l st' :
  Monitoring.SetBalance utf8 st balance name l = Done st' →
  (0 ≤ balance < 2 ^ 64)%Z →
  ∃ v,
    Monitoring.shown st' name (Monitoring.label_values l) = Some v ∧
    v = Monitoring.float64_of_uint64 balance ∧
    (Z.abs (v - balance) ≤ 1024)%Z ∧
    ((balance ≤ 2 ^ 53)%Z → v = balance) ∧
    (∀ name' lvs,
       (name', lvs) ≠ (name, Monitoring.label_values l) →
       Monitoring.shown st' name' lvs = Monitoring.shown st name' lvs) ∧
    Monitoring.registered st' = Monitoring.registered st.
Proof.
  intros Hset Hrange.
  pose proof (MonitoringFacts.SetBalance_runs utf8 st balance name l) as H.
  rewrite Hset in H. destruct H as (g & Hg & _ & ->).
  destruct (MonitoringFacts.float64_of_uint64_near balance Hrange) as [Hnear Hexact].
  exists (Monitoring.float64_of_uint64 balance).
  unfold Monitoring.shown. cbn [Monitoring.gauges Monitoring.set_gauges].
  split_and!; try done.
  - rewrite lookup_insert_eq. cbn. by rewrite lookup_insert_eq.
  - intros name' lvs Hne.
    destruct (decide (name' = name)) as [-> | Hname].
    + rewrite lookup_insert_eq, Hg. cbn.
      rewrite lookup_insert_ne; [done |]. by intros <-.
    + by rewrite lookup_insert_ne.
Qed.

Lemma SetBalance_shows_converted_balance_witness :
  let st := {| Monitoring.registered := ∅;
               Monitoring.gauges :=
                 {[ "token_vault" := Monitoring.fresh_gauge "token_vault" ]} |} in
  ∃ st',
    Monitoring.SetBalance Monitoring.no_byte_255 st (2 ^ 53 + 1) "token_vault"
      Monitoring.feed = Done st' ∧
    ∃ v,
      Monitoring.shown st' "token_vault" (Monitoring.label_values Monitoring.feed)
        = Some v ∧
      v = Monitoring.float64_of_uint64 (2 ^ 53 + 1) ∧
      (Z.abs (v - (2 ^ 53 + 1)) ≤ 1024)%Z ∧
      ((2 ^ 53 + 1 ≤ 2 ^ 53)%Z → v = (2 ^ 53 + 1)%Z) ∧
      (∀ name' lvs,
         (name', lvs) ≠ ("token_vault", Monitoring.label_values Monitoring.feed) →
         Monitoring.shown st' name' lvs = Monitoring.shown st name' lvs) ∧
      Monitoring.registered st' = Monitoring.registered st.
Proof.
  intros st. eexists.
  split; [unfold Monitoring.SetBalance; reflexivity |].
  eapply (SetBalance_shows_converted_balance Monitoring.no_byte_255 st
            (2 ^ 53 + 1) "token_vault" Monitoring.feed).
  - unfold Monitoring.SetBalance. reflexivity.
  - lia.
Defined.

(** X22.  [Cleanup] forgets a feed.  In any state the package can be in, it
    returns, and afterwards none of the six gauges shows anything for the
    nine label values, while every series for other label values shows what
    it did.  A balance set for those label values and then cleaned up leaves
    the package as the clean-up alone would. *)
Theorem Cleanup_forgets_the_feed utf8 reg st l :
  Monitoring.reachable utf8 reg st →
  ∃ st',
    Monitoring.Cleanup utf8 st l = Done st' ∧
    Monitoring.registered st' = Monitoring.registered st ∧
    (∀ name lvs,
       Monitoring.shown st' name lvs
         = if decide (lvs = Monitoring.label_values l) then None
           else Monitoring.shown st name lvs) ∧
    ∀ balance name st1,
      Monitoring.SetBalance utf8 st balance name l = Done st1 →
      Monitoring.Cleanup utf8 st1 l = Done st'.
Proof.
  intros Hreach.
  pose proof (MonitoringFacts.reachable_as_registered utf8 reg st Hreach) as Hst.
  destruct (MonitoringFacts.Cleanup_runs utf8 st l Hst) as (st' & Hrun & Hreg & Hmap).
  exists st'. split_and!; try done.
  - intros name lvs. unfold Monitoring.shown. rewrite Hmap.
    specialize (Hst name).
    destruct (Monitoring.gauges st !! name) as [g |]; cbn; [| by destruct (decide _)].
    destruct Hst as (_ & _ & _ & Hseries).
    rewrite MonitoringFacts.DeleteLabelValues_leaves.
    destruct (Monitoring.validateLabelValues utf8 g (Monitoring.label_values l))
      eqn:Hvalid; cbn.
    + destruct (decide (lvs = Monitoring.label_values l)) as [-> | Hne].
      * apply lookup_delete_eq.
      * by rewrite lookup_delete_ne.
    + destruct (decide (lvs = Monitoring.label_values l)) as [-> | Hne]; [| done].
      destruct (Monitoring.gauge_series g !! Monitoring.label_values l) eqn:Hl;
        [| done].
      rewrite Hseries in Hvalid; [done | by eexists].
  - intros balance name st1 Hset.
    assert (Monitoring.reachable utf8 reg st1) as Hreach1
      by (by eapply Monitoring.reach_SetBalance).
    pose proof (MonitoringFacts.reachable_as_registered utf8 reg st1 Hreach1) as Hst1.
    destruct (MonitoringFacts.Cleanup_runs utf8 st1 l Hst1)
      as (st1' & -> & Hreg1 & Hmap1).
    f_equal.
    pose proof (MonitoringFacts.SetBalance_runs utf8 st balance name l) as H.
    rewrite Hset in H. destruct H as (g & Hg & Hvalid & ->).
    apply MonitoringFacts.State_eq; [by rewrite Hreg1, Hreg |].
    apply map_eq. intros name'. rewrite Hmap1, Hmap.
    cbn [Monitoring.gauges Monitoring.set_gauges].
    destruct (decide (name' = name)) as [-> | Hne].
    + rewrite lookup_insert_eq, Hg. cbn. f_equal.
      rewrite !MonitoringFacts.DeleteLabelValues_leaves.
      rewrite MonitoringFacts.validate_set_series, Hvalid.
      cbn. by rewrite delete_insert_eq.
    + by rewrite lookup_insert_ne.
Qed.

Lemma Cleanup_forgets_the_feed_witness :
  ∃ st,
    Monitoring.init ∅ = Done st ∧
    ∃ st',
      Monitoring.Cleanup Monitoring.no_byte_255 st Monitoring.feed = Done st' ∧
      Monitoring.registered st' = Monitoring.registered st ∧
      (∀ name lvs,
         Monitoring.shown st' name lvs
           = if decide (lvs = Monitoring.label_values Monitoring.feed) then None
             else Monitoring.shown st name lvs) ∧
      ∀ balance name st1,
        Monitoring.SetBalance Monitoring.no_byte_255 st balance name Monitoring.feed
          = Done st1 →
        Monitoring.Cleanup Monitoring.no_byte_255 st1 Monitoring.feed = Done st'.
Proof.
  eexists. split; [vm_compute; reflexivity |].
  apply (Cleanup_forgets_the_feed Monitoring.no_byte_255 ∅).
  apply Monitoring.reach_init. vm_compute. reflexivity.
Defined.
